(** * scimesh: paper identity, deduplication, query translation and the
    multi-provider search orchestrator.

    A shallow embedding of [scimesh/models.py], [scimesh/search.py],
    [scimesh/query/combinators.py] and the provider adapters under
    [scimesh/providers/], with the properties the specification states
    about them.

    Conventions of the embedding:
    - Python [str] is [string] (ASCII text); [str.lower()] is the ASCII case
      folding [lower];
    - Python [int] is [Z]; [str(n)] / an [int] inside an f-string is stdpp's
      [pretty];
    - [x | None] is [option]; Python truthiness is written out ([truthy_str],
      [truthy_int]);
    - a [dict] with string keys is a [gmap string _], a [set] of strings a
      [gset string];
    - a raised exception is the [inl] of a sum, a normal return the [inr];
    - logging and [warnings.warn] are an explicit list of log records. *)

From Stdlib Require Import ZArith String Ascii List Bool Lia.
From stdpp Require Import base option list gmap strings pretty sets sorting.

Local Open Scope string_scope.
Local Open Scope list_scope.
Local Open Scope Z_scope.

(** ** Python values *)

Module Py.

(** Truthiness of a [str | None]: [None] and [""] are falsy. *)
Definition truthy_str (o : option string) : bool :=
  match o with
  | Some (String _ _) => true
  | _ => false
  end.

(** Truthiness of a [str]. *)
Definition nonempty (s : string) : bool :=
  match s with
  | String _ _ => true
  | EmptyString => false
  end.

(** Truthiness of an [int | None]: [None] and [0] are falsy. *)
Definition truthy_int (o : option Z) : bool :=
  match o with
  | Some z => negb (z =? 0)
  | None => false
  end.

(** [a or b] on [int | None]. *)
Definition or_int (a b : option Z) : option Z :=
  if truthy_int a then a else b.

(** [a or b] on [str | None]. *)
Definition or_str (a b : option string) : option string :=
  if truthy_str a then a else b.

Definition lower_ascii (c : ascii) : ascii :=
  let n := N_of_ascii c in
  if ((65 <=? n) && (n <=? 90))%N then ascii_of_N (n + 32) else c.

(** [str.lower()] on ASCII text. *)
Fixpoint lower (s : string) : string :=
  match s with
  | EmptyString => EmptyString
  | String c t => String (lower_ascii c) (lower t)
  end.

(** [sep.join(parts)]. *)
Definition join (sep : string) (parts : list string) : string :=
  String.concat sep parts.

(** Exceptions raised by the code or by its collaborators. *)
Inductive Exception :=
| RuntimeError (msg : string)
| ValueError (msg : string)
| TypeError (msg : string)
| HTTPStatusError (status : Z)
| OtherError (msg : string).

(** [str(e)] as used in the warning messages. *)
Definition exc_str (e : Exception) : string :=
  match e with
  | RuntimeError m | ValueError m | TypeError m | OtherError m => m
  | HTTPStatusError c => "HTTP status " +:+ pretty c
  end.

(** The object handed to the built-in [hash]: a [str] or a
    [(str, int)] tuple. *)
Inductive Hashable :=
| HStr (s : string)
| HTuple (s : string) (n : Z).

(** [s.replace(old, new)] for a non-empty [old]: the occurrences of [old]
    are replaced from left to right, without overlap. [skip] counts the
    characters of an occurrence still to be passed over. *)
Fixpoint replace_go (old new : string) (skip : nat) (s : string) : string :=
  match s with
  | EmptyString => EmptyString
  | String c rest =>
      match skip with
      | S k => replace_go old new k rest
      | O =>
          if String.prefix old (String c rest)
          then new +:+ replace_go old new (String.length old - 1) rest
          else String c (replace_go old new 0 rest)
      end
  end.

Definition replace (old new s : string) : string := replace_go old new 0 s.

End Py.
Import Py.

(** ** scimesh/models.py *)

Record Author := mkAuthor {
  a_name : string;
  a_affiliation : option string;
  a_orcid : option string
}.

Record Paper := mkPaper {
  title : string;
  authors : list Author;
  year : Z;
  source : string;
  abstract : option string;
  doi : option string;
  url : option string;
  topics : list string;
  citations_count : option Z;
  publication_date : option string;
  journal : option string;
  extras : gmap string string
}.

(** [Paper.__hash__]: the object that is hashed. *)
Definition Paper_hash_key (self : Paper) : Hashable :=
  if truthy_str (doi self) then HStr (default "" (doi self))
  else HTuple (lower (title self)) (year self).

(** [Paper.__hash__], over the interpreter's built-in [hash]. *)
Definition Paper___hash__ (hash : Hashable -> Z) (self : Paper) : Z :=
  hash (Paper_hash_key self).

(** [Paper.__eq__] (for [other] a [Paper]). *)
Definition Paper___eq__ (self other : Paper) : bool :=
  if truthy_str (doi self) && truthy_str (doi other)
  then bool_decide (doi self = doi other)
  else bool_decide (lower (title self) = lower (title other))
       && bool_decide (year self = year other).

Record SearchResult := mkSearchResult {
  papers : list Paper;
  errors : gmap string Exception;
  total_by_provider : gmap string Z
}.

(** The [key] of the loop body of [SearchResult.dedupe]. *)
Definition dedupe_key (paper : Paper) : string :=
  if truthy_str (doi paper) then default "" (doi paper)
  else lower (title paper) +:+ ":" +:+ pretty (year paper).

(** One iteration of the [for paper in self.papers] loop, on the pair
    [(seen, unique)]. *)
Definition dedupe_step (st : gset string * list Paper) (paper : Paper)
  : gset string * list Paper :=
  let key := dedupe_key paper in
  if decide (key ∈ st.1) then st
  else ({[key]} ∪ st.1, st.2 ++ [paper]).

Definition dedupe_loop (ps : list Paper) : gset string * list Paper :=
  foldl dedupe_step (∅, []) ps.

(** [SearchResult.dedupe]. *)
Definition dedupe (self : SearchResult) : SearchResult :=
  {| papers := (dedupe_loop (papers self)).2;
     errors := errors self;
     total_by_provider := total_by_provider self |}.

(** ** scimesh/query/combinators.py *)

Inductive Query :=
| Field (field value : string)
| And (left right : Query)
| Or (left right : Query)
| Not (operand : Query)
| YearRange (start end_ : option Z)
| CitationRange (min max : option Z).
(* [CitationRange] is imported by the Semantic Scholar adapter from
   [combinators]; its fields [min] and [max] are read there. *)

(** The factory functions. *)
Module Combinators.

Definition title (value : string) : Query := Field "title" value.
Definition abstract (value : string) : Query := Field "abstract" value.
Definition author (value : string) : Query := Field "author" value.
Definition keyword (value : string) : Query := Field "keyword" value.
Definition doi (value : string) : Query := Field "doi" value.
Definition fulltext (value : string) : Query := Field "fulltext" value.
Definition year (start end_ : option Z) : Query := YearRange start end_.

End Combinators.

(** Modelled from the spec: [has_fulltext] is imported from [combinators]
    but not defined in the sources at hand. "True iff any fulltext leaf
    exists anywhere in the tree." *)
Fixpoint has_fulltext (query : Query) : bool :=
  match query with
  | Field f _ => String.eqb f "fulltext"
  | And l r | Or l r => has_fulltext l || has_fulltext r
  | Not o => has_fulltext o
  | YearRange _ _ | CitationRange _ _ => false
  end.

(** Modelled from the spec: [extract_fulltext_term], missing from the
    sources at hand. "Depth-first search returning the value of the first
    [Field(fulltext, ...)] leaf encountered, or none if absent" (pre-order,
    left to right through And/Or/Not). *)
Fixpoint extract_fulltext_term (query : Query) : option string :=
  match query with
  | Field f v => if String.eqb f "fulltext" then Some v else None
  | And l r | Or l r =>
      match extract_fulltext_term l with
      | Some v => Some v
      | None => extract_fulltext_term r
      end
  | Not o => extract_fulltext_term o
  | YearRange _ _ | CitationRange _ _ => None
  end.

(** Modelled from the spec: [remove_fulltext], missing from the sources at
    hand. "Returns a new tree with all [Field(fulltext, ...)] leaves removed.
    Removing a leaf from an And/Or node collapses to the surviving sibling;
    removing the sole operand of Not or the sole leaf of the whole tree
    yields 'no query remains' (signaled by returning none)." *)
Fixpoint remove_fulltext (query : Query) : option Query :=
  match query with
  | Field f v => if String.eqb f "fulltext" then None else Some query
  | And l r =>
      match remove_fulltext l, remove_fulltext r with
      | Some l', Some r' => Some (And l' r')
      | Some l', None => Some l'
      | None, Some r' => Some r'
      | None, None => None
      end
  | Or l r =>
      match remove_fulltext l, remove_fulltext r with
      | Some l', Some r' => Some (Or l' r')
      | Some l', None => Some l'
      | None, Some r' => Some r'
      | None, None => None
      end
  | Not o => Not <$> remove_fulltext o
  | YearRange _ _ | CitationRange _ _ => Some query
  end.

(** Modelled from the spec: [extract_citation_range], missing from the
    sources at hand. "Same extract/remove pattern specialized to
    CitationRange nodes"; the node found is returned as its pair
    [(min, max)]. *)
Fixpoint extract_citation_range (query : Query) : option (option Z * option Z) :=
  match query with
  | CitationRange mn mx => Some (mn, mx)
  | And l r | Or l r =>
      match extract_citation_range l with
      | Some c => Some c
      | None => extract_citation_range r
      end
  | Not o => extract_citation_range o
  | Field _ _ | YearRange _ _ => None
  end.

(** Modelled from the spec: [remove_citation_range], missing from the
    sources at hand; [remove_fulltext] with CitationRange nodes in the place
    of fulltext leaves. *)
Fixpoint remove_citation_range (query : Query) : option Query :=
  match query with
  | CitationRange _ _ => None
  | And l r =>
      match remove_citation_range l, remove_citation_range r with
      | Some l', Some r' => Some (And l' r')
      | Some l', None => Some l'
      | None, Some r' => Some r'
      | None, None => None
      end
  | Or l r =>
      match remove_citation_range l, remove_citation_range r with
      | Some l', Some r' => Some (Or l' r')
      | Some l', None => Some l'
      | None, Some r' => Some r'
      | None, None => None
      end
  | Not o => Not <$> remove_citation_range o
  | Field _ _ | YearRange _ _ => Some query
  end.

(** ** The HTTP collaborator and the effects of a provider *)

Record Request := mkRequest {
  req_url : string;
  req_params : list (string * string);
  req_headers : list (string * string)
}.

(** An author record of the Semantic Scholar author-search endpoint. *)
Record AuthorHit := mkAuthorHit {
  authorId : option string;
  hit_citationCount : option Z
}.

(** A record of a response body, by what a provider's record parser meets
    when it reads the record: a record without a title; a record with a
    field of a shape the parser does not expect (for OpenAlex, a
    [primary_location] that is [null]), on which reading the fields raises
    [e]; or a titled record whose fields are read without an exception,
    [fields] holding their values. What the parser then does is the
    provider's: see [_parse_work], [_parse_entry] and [_parse_paper]. *)
Inductive RawRecord :=
| Untitled
| Malformed (e : Exception)
| Titled (fields : Paper).

(** A response: its status code and its JSON body. *)
Record Response := mkResponse {
  status_code : Z;
  body_total : option Z;
  body_records : list RawRecord;
  body_authors : list AuthorHit
}.

(** The network as seen through one [httpx.AsyncClient]: the reply to a
    request, given how many requests the client has sent before. A reply
    is a response or a transport-level exception. *)
Definition Client : Type := nat -> Request -> Exception + Response.

Inductive LogRecord :=
| LogWarning (msg : string)
| LogError (msg : string)
| Sleep (seconds : Z).

Record World := mkWorld {
  sent : list Request;
  log : list LogRecord
}.

Definition world0 : World := {| sent := []; log := [] |}.

(** An async generator (or coroutine) drained to its end: from a world, the
    world it leaves, the items it yielded, and how it ended: an exception
    raised or a return value. [logger.debug] and [logger.info] calls are
    not recorded. *)
Definition Gen (Y A : Type) : Type := World -> World * list Y * (Exception + A).

Module GenM.

Definition ret {Y A} (a : A) : Gen Y A := fun w => (w, [], inr a).

Definition bind {Y A B} (m : Gen Y A) (k : A -> Gen Y B) : Gen Y B :=
  fun w =>
    match m w with
    | (w1, ys, inl e) => (w1, ys, inl e)
    | (w1, ys, inr a) =>
        match k a w1 with
        | (w2, ys', r) => (w2, ys ++ ys', r)
        end
    end.

Definition raise {Y A} (e : Exception) : Gen Y A := fun w => (w, [], inl e).

Definition yield {Y} (y : Y) : Gen Y unit := fun w => (w, [y], inr tt).

Definition logging {Y} (r : LogRecord) : Gen Y unit :=
  fun w => ({| sent := sent w; log := log w ++ [r] |}, [], inr tt).

(** [await client.get(url, headers=...)]. *)
Definition get {Y} (client : Client) (req : Request) : Gen Y Response :=
  fun w =>
    let w' := {| sent := sent w ++ [req]; log := log w |} in
    match client (length (sent w)) req with
    | inl e => (w', [], inl e)
    | inr resp => (w', [], inr resp)
    end.

(** [for x in xs: body(x)]. *)
Fixpoint for_each {Y X} (xs : list X) (body : X -> Gen Y unit) : Gen Y unit :=
  match xs with
  | [] => ret tt
  | x :: rest => bind (body x) (fun _ => for_each rest body)
  end.

(** [async for y in g: yield from f(y)] for a body without effects. *)
Definition flat_map {Y Y' A} (f : Y -> list Y') (g : Gen Y A) : Gen Y' A :=
  fun w => match g w with (w1, ys, r) => (w1, concat (map f ys), r) end.

End GenM.

Notation "'do' x <- m ; k" := (GenM.bind m (fun x => k))
  (at level 10, x pattern, m at level 100, k at level 200).
Notation "m ;; k" := (GenM.bind m (fun _ => k))
  (at level 100, k at level 200, right associativity).

(** [response.raise_for_status()]: anything but a 2xx status raises. *)
Definition raise_for_status {Y} (resp : Response) : Gen Y unit :=
  if (200 <=? status_code resp) && (status_code resp <? 300)
  then GenM.ret tt
  else GenM.raise (HTTPStatusError (status_code resp)).

(** ** scimesh/providers/base.py *)

Record ProviderState := mkProviderState {
  _api_key : option string;
  _client : option Client
}.

(** [Provider.__init__]; [env] is what [_load_from_env] returns. *)
Definition Provider___init__ (api_key env : option string) : ProviderState :=
  {| _api_key := or_str api_key env; _client := None |}.

(** [Provider.__aenter__]; [fresh] is the client [httpx.AsyncClient(timeout=30.0)]
    creates. *)
Definition Provider___aenter__ (fresh : Client) (self : ProviderState) : ProviderState :=
  {| _api_key := _api_key self; _client := Some fresh |}.

(** [Provider.__aexit__]. *)
Definition Provider___aexit__ (self : ProviderState) : ProviderState :=
  match _client self with
  | Some _ => {| _api_key := _api_key self; _client := None |}
  | None => self
  end.

Definition not_initialized : Exception :=
  RuntimeError "Provider not initialized. Use 'async with provider:'".

(** ** scimesh/providers/openalex.py *)

Module OpenAlex.

Definition name : string := "openalex".
Definition BASE_URL : string := "https://api.openalex.org/works".

(** The fields of the first [case] of [_collect_params]. *)
Definition is_search_field (f : string) : bool :=
  String.eqb f "title" || String.eqb f "abstract"
  || String.eqb f "keyword" || String.eqb f "fulltext".

(** [_collect_params]; the two lists it appends to are passed in and
    returned as the pair [(search_terms, filters)]. A node that matches no
    [case] (a field of another name, a CitationRange) falls through the
    [match] and leaves both lists as they are. *)
Fixpoint _collect_params (query : Query) (acc : list string * list string)
  : list string * list string :=
  match query with
  | Field f v =>
      if is_search_field f then (acc.1 ++ [v], acc.2)
      else if String.eqb f "author"
      then (acc.1, acc.2 ++ ["raw_author_name.search:" +:+ v])
      else if String.eqb f "doi"
      then (acc.1, acc.2 ++ ["doi:" +:+ v])
      else acc
  | And l r => _collect_params r (_collect_params l acc)
  | Or l r => _collect_params r (_collect_params l acc)
  | Not o =>
      let neg := _collect_params o ([], []) in
      (acc.1, acc.2 ++ map (fun f => "!" +:+ f) neg.2)
  | YearRange s e =>
      if truthy_int s && truthy_int e then
        if bool_decide (s = e)
        then (acc.1, acc.2 ++ ["publication_year:" +:+ pretty (default 0 s)])
        else (acc.1, acc.2 ++ ["publication_year:" +:+ pretty (default 0 s)
                               +:+ "-" +:+ pretty (default 0 e)])
      else if truthy_int s
      then (acc.1, acc.2 ++ ["publication_year:>" +:+ pretty (default 0 s - 1)])
      else if truthy_int e
      then (acc.1, acc.2 ++ ["publication_year:<" +:+ pretty (default 0 e + 1)])
      else acc
  | CitationRange _ _ => acc
  end.

(** [_build_params]: [(search_terms, filter_string)]. *)
Definition _build_params (query : Query) : string * string :=
  let r := _collect_params query ([], []) in
  (join " " r.1, join "," r.2).

(** [_parse_work]: [None] for a work without a title, the exception of a
    field access that fails, or the paper built from the fields (every
    keyword it passes to [Paper] is a field of [Paper]). *)
Definition _parse_work (work : RawRecord) : Exception + option Paper :=
  match work with
  | Untitled => inr None
  | Malformed e => inl e
  | Titled fields => inr (Some fields)
  end.

(** [search]; [mailto] is the adapter's [_mailto]. *)
Definition search (mailto : option string) (self : ProviderState)
    (query : Query) (max_results : Z) : Gen Paper unit :=
  match _client self with
  | None => GenM.raise not_initialized
  | Some client =>
      let '(search_terms, filter_str) := _build_params query in
      let params :=
        [("per_page", pretty (Z.min max_results 200))]
        ++ (if truthy_str mailto then [("mailto", default "" mailto)] else [])
        ++ (if nonempty search_terms then [("search", search_terms)] else [])
        ++ (if nonempty filter_str then [("filter", filter_str)] else []) in
      do response <- GenM.get client
           {| req_url := BASE_URL; req_params := params; req_headers := [] |};
      raise_for_status response;;
      GenM.for_each (body_records response)
        (fun work => match _parse_work work with
                     | inl e => GenM.raise e
                     | inr (Some paper) => GenM.yield paper
                     | inr None => GenM.ret tt
                     end)
  end.

(** The two nested loops of [_reconstruct_abstract]: the list [words] of
    pairs [(pos, word)] before it is sorted. The dict [inverted_index] is
    given by its items in their order. *)
Definition positioned_words (inverted_index : list (string * list Z))
  : list (Z * string) :=
  concat (map (fun item => map (fun pos => (pos, item.1)) item.2)
              inverted_index).

(** [words.sort(key=lambda x: x[0])]: a stable sort by position. *)
Fixpoint insert_by_pos (x : Z * string) (sorted : list (Z * string))
  : list (Z * string) :=
  match sorted with
  | [] => [x]
  | y :: rest =>
      if x.1 <=? y.1 then x :: y :: rest else y :: insert_by_pos x rest
  end.

Definition sort_by_pos (words : list (Z * string)) : list (Z * string) :=
  foldr insert_by_pos [] words.

(** [_reconstruct_abstract]. *)
Definition _reconstruct_abstract (inverted_index : list (string * list Z))
  : string :=
  join " " (map snd (sort_by_pos (positioned_words inverted_index))).

End OpenAlex.

(** ** scimesh/providers/scopus.py *)

Module Scopus.

Definition name : string := "scopus".
Definition BASE_URL : string := "https://api.elsevier.com/content/search/scopus".

(** [_translate_query]; the [case _] raises [ValueError] (its message is
    shortened here). *)
Fixpoint _translate_query (query : Query) : Exception + string :=
  match query with
  | Field f v =>
      if String.eqb f "title" then inr ("TITLE(" +:+ v +:+ ")")
      else if String.eqb f "author" then inr ("AUTH(" +:+ v +:+ ")")
      else if String.eqb f "abstract" then inr ("ABS(" +:+ v +:+ ")")
      else if String.eqb f "keyword" then inr ("KEY(" +:+ v +:+ ")")
      else if String.eqb f "fulltext" then inr ("ALL(" +:+ v +:+ ")")
      else if String.eqb f "doi" then inr ("DOI(" +:+ v +:+ ")")
      else inl (ValueError "Unsupported query node")
  | And l r =>
      match _translate_query l with
      | inl e => inl e
      | inr sl =>
          match _translate_query r with
          | inl e => inl e
          | inr sr => inr ("(" +:+ sl +:+ " AND " +:+ sr +:+ ")")
          end
      end
  | Or l r =>
      match _translate_query l with
      | inl e => inl e
      | inr sl =>
          match _translate_query r with
          | inl e => inl e
          | inr sr => inr ("(" +:+ sl +:+ " OR " +:+ sr +:+ ")")
          end
      end
  | Not o =>
      match _translate_query o with
      | inl e => inl e
      | inr so => inr ("NOT " +:+ so)
      end
  | YearRange s e =>
      if truthy_int s && truthy_int e then
        if bool_decide (s = e)
        then inr ("PUBYEAR = " +:+ pretty (default 0 s))
        else inr ("(PUBYEAR > " +:+ pretty (default 0 s - 1)
                  +:+ " AND PUBYEAR < " +:+ pretty (default 0 e + 1) +:+ ")")
      else if truthy_int s
      then inr ("PUBYEAR > " +:+ pretty (default 0 s - 1))
      else if truthy_int e
      then inr ("PUBYEAR < " +:+ pretty (default 0 e + 1))
      else inr ""
  | CitationRange _ _ => inl (ValueError "Unsupported query node")
  end.

(** [_parse_entry]: [None] for an entry without a title, the exception of
    a field access that fails, or the paper built from the fields. *)
Definition _parse_entry (entry : RawRecord) : Exception + option Paper :=
  match entry with
  | Untitled => inr None
  | Malformed e => inl e
  | Titled fields => inr (Some fields)
  end.

(** [search]. *)
Definition search (self : ProviderState) (query : Query) (max_results : Z)
  : Gen Paper unit :=
  match _client self with
  | None => GenM.raise not_initialized
  | Some client =>
      if negb (truthy_str (_api_key self))
      then GenM.raise
             (ValueError "Scopus requires an API key. Set SCOPUS_API_KEY or pass api_key=")
      else
        match _translate_query query with
        | inl e => GenM.raise e
        | inr query_str =>
            let headers := [("X-ELS-APIKey", default "" (_api_key self));
                            ("Accept", "application/json")] in
            let params := [("query", query_str);
                           ("count", pretty (Z.min max_results 25));
                           ("start", "0");
                           ("view", "COMPLETE")] in
            do response <- GenM.get client
                 {| req_url := BASE_URL; req_params := params;
                    req_headers := headers |};
            raise_for_status response;;
            GenM.for_each (body_records response)
              (fun entry => match _parse_entry entry with
                            | inl e => GenM.raise e
                            | inr (Some paper) => GenM.yield paper
                            | inr None => GenM.ret tt
                            end)
        end
  end.

End Scopus.

(** ** scimesh/providers/_fulltext_fallback.py *)

Module FulltextFallbackMixin.

Definition fulltext_warning : LogRecord :=
  LogWarning
    ("Fulltext search requires additional filters for providers without "
     +:+ "native fulltext support. Add TITLE(), AUTHOR(), or other filters. "
     +:+ "Example: ALL(term) AND TITLE(topic)").

Section Mixin.

(** The provider's override of [_search_api]. *)
Variable _search_api : Query -> Z -> Gen Paper unit.
(** [FulltextIndex().search(term, limit=...)], the local index. *)
Variable index_search : string -> Z -> list string.

(** The body of [async for paper in self._search_api(...)], over the
    papers the source generator yields. The flag says whether the loop
    ran off the end of the source (so that the source's own end, an
    exception included, is reached) or left it by [return]. *)
Fixpoint filter_loop (matching_ids : gset string) (max_results count : Z)
    (source : list Paper) : list Paper * bool :=
  match source with
  | [] => ([], true)
  | paper :: rest =>
      if count >=? max_results then ([], false)
      else
        let paper_id := or_str (doi paper) (extras paper !! "paper_id") in
        if truthy_str paper_id
           && bool_decide (default "" paper_id ∈ matching_ids)
        then
          let '(out, drained) :=
            filter_loop matching_ids max_results (count + 1) rest in
          (paper :: out, drained)
        else filter_loop matching_ids max_results count rest
  end.

(** [_search_with_fulltext_filter]. The requests recorded are those of
    the source generator drained to its end. *)
Definition _search_with_fulltext_filter (query : Query) (max_results : Z)
  : Gen Paper unit :=
  let term := extract_fulltext_term query in
  if negb (truthy_str term) then GenM.ret tt
  else
    match remove_fulltext query with
    | None => GenM.logging fulltext_warning
    | Some base_query =>
        let matching_ids : gset string :=
          list_to_set (index_search (default "" term) 10000) in
        if bool_decide (matching_ids = ∅) then GenM.ret tt
        else
          fun w =>
            match _search_api base_query (max_results * 3) w with
            | (w1, source, ending) =>
                let '(out, drained) :=
                  filter_loop matching_ids max_results 0 source in
                (w1, out, if drained then ending else inr tt)
            end
    end.

End Mixin.

End FulltextFallbackMixin.

(** ** scimesh/providers/semantic_scholar.py *)

Module SemanticScholar.

Definition name : string := "semantic_scholar".
Definition BASE_URL : string :=
  "https://api.semanticscholar.org/graph/v1/paper/search".
Definition PAGE_SIZE : Z := 100.
Definition MAX_TOTAL_RESULTS : Z := 1000.
Definition API_FIELDS : string :=
  "paperId,title,abstract,authors,year,citationCount,referenceCount,"
  +:+ "venue,publicationDate,openAccessPdf,isOpenAccess,fieldsOfStudy,externalIds".

Definition dquote : string := String "034"%char EmptyString.

Definition is_plain_field (f : string) : bool :=
  String.eqb f "author" || String.eqb f "abstract" || String.eqb f "keyword"
  || String.eqb f "fulltext" || String.eqb f "doi".

(** [_collect_terms]: the list [terms] it appends to is passed in and
    returned, next to the pair [(year_start, year_end)]. *)
Fixpoint _collect_terms (query : Query) (terms : list string)
  : list string * (option Z * option Z) :=
  match query with
  | Field f v =>
      if String.eqb f "title" then (terms ++ [dquote +:+ v +:+ dquote], (None, None))
      else if is_plain_field f then (terms ++ [v], (None, None))
      else (terms, (None, None))
  | And l r =>
      let '(terms1, (ys1, ye1)) := _collect_terms l terms in
      let '(terms2, (ys2, ye2)) := _collect_terms r terms1 in
      (terms2, (or_int ys1 ys2, or_int ye1 ye2))
  | Or l r =>
      let '(left_terms, (ys1, ye1)) := _collect_terms l [] in
      let '(right_terms, (ys2, ye2)) := _collect_terms r [] in
      let terms' :=
        match left_terms, right_terms with
        | _ :: _, _ :: _ =>
            terms ++ ["(" +:+ join " " left_terms +:+ " | "
                      +:+ join " " right_terms +:+ ")"]
        | _ :: _, [] => terms ++ left_terms
        | [], _ :: _ => terms ++ right_terms
        | [], [] => terms
        end in
      (terms', (or_int ys1 ys2, or_int ye1 ye2))
  | Not o =>
      let '(neg_terms, (ys, ye)) := _collect_terms o [] in
      (terms ++ map (fun term => "-" +:+ term) neg_terms, (ys, ye))
  | YearRange s e => (terms, (s, e))
  | CitationRange _ _ => (terms, (None, None))
  end.

(** [_translate_query]: [(query_string, year_start, year_end)]. *)
Definition _translate_query (query : Query) : string * option Z * option Z :=
  let '(terms, (year_start, year_end)) := _collect_terms query [] in
  (join " " terms, year_start, year_end).

Definition _extract_author_only (query : Query) : option string :=
  match query with
  | Field f v => if String.eqb f "author" then Some v else None
  | _ => None
  end.

Fixpoint _extract_author_filter (query : Query) : option string :=
  match query with
  | Field f v => if String.eqb f "author" then Some v else None
  | And l r | Or l r =>
      or_str (_extract_author_filter l) (_extract_author_filter r)
  | _ => None
  end.

Fixpoint _extract_title_filter (query : Query) : option string :=
  match query with
  | Field f v => if String.eqb f "title" then Some v else None
  | And l r | Or l r =>
      or_str (_extract_title_filter l) (_extract_title_filter r)
  | _ => None
  end.

(** [needle in hay] on strings. *)
Fixpoint contains (needle hay : string) : bool :=
  String.prefix needle hay
  || match hay with
     | EmptyString => false
     | String _ rest => contains needle rest
     end.

Definition max_retries : Z := 3.

(** How one pass through the body of the retry loop leaves it. *)
Inductive Attempt :=
| Continue (retry_delay : Z)
| Return (response : Response).

(** The [try] block of [_fetch_with_retry]. *)
Definition attempt_body {Y} (client : Client) (req : Request)
    (attempt retry_delay : Z) : Gen Y Attempt :=
  do response <- GenM.get client req;
  if status_code response =? 429 then
    if attempt <? max_retries - 1 then
      GenM.logging (LogWarning "Rate limited (429), retrying");;
      GenM.logging (Sleep retry_delay);;
      GenM.ret (Continue (retry_delay * 2))
    else
      GenM.logging (LogError "Rate limited after 3 attempts");;
      raise_for_status response;;
      raise_for_status response;;
      GenM.ret (Return response)
  else
    raise_for_status response;;
    GenM.ret (Return response).

(** The [for attempt in range(max_retries)] loop with its
    [except httpx.HTTPStatusError] handler. *)
Fixpoint retry_loop {Y} (client : Client) (req : Request)
    (attempts : list Z) (retry_delay : Z) : Gen Y (option Response) :=
  match attempts with
  | [] => GenM.ret None
  | attempt :: rest =>
      fun w =>
        match attempt_body (Y:=Y) client req attempt retry_delay w with
        | (w1, ys, inr (Return response)) => (w1, ys, inr (Some response))
        | (w1, ys, inr (Continue delay')) => retry_loop client req rest delay' w1
        | (w1, ys, inl (HTTPStatusError c)) =>
            if attempt =? max_retries - 1 then (w1, ys, inl (HTTPStatusError c))
            else retry_loop client req rest retry_delay w1
        | (w1, ys, inl e) => (w1, ys, inl e)
        end
  end.

(** [_fetch_with_retry]; delays are in seconds. *)
Definition _fetch_with_retry {Y} (self : ProviderState) (req : Request)
  : Gen Y (option Response) :=
  match _client self with
  | None => GenM.ret None
  | Some client => retry_loop client req (seqZ 0 max_retries) 1
  end.

Definition api_headers (self : ProviderState) : list (string * string) :=
  if truthy_str (_api_key self)
  then [("x-api-key", default "" (_api_key self))] else [].

(** What the call [Paper(..., pdf_url=..., open_access=...,
    references_count=...)] at the end of [_parse_paper] does: [Paper] has
    no field of these names. *)
Definition unexpected_keyword : Exception :=
  TypeError "Paper.__init__() got an unexpected keyword argument 'pdf_url'".

(** [_parse_paper]: [None] for a record without a title and the exception
    of a field access that fails; for a titled record whose fields are
    read, the call of [Paper] raises. *)
Definition _parse_paper (paper_data : RawRecord) : Exception + option Paper :=
  match paper_data with
  | Untitled => inr None
  | Malformed e => inl e
  | Titled _ => inl unexpected_keyword
  end.

(** [for paper_data in papers: paper = self._parse_paper(paper_data);
    if paper: yield paper]. *)
Definition yield_parsed (records : list RawRecord) : Gen Paper unit :=
  GenM.for_each records
    (fun paper_data => match _parse_paper paper_data with
                       | inl e => GenM.raise e
                       | inr (Some paper) => GenM.yield paper
                       | inr None => GenM.ret tt
                       end).

(** [max(authors, key=lambda a: a.get("citationCount", 0))]: the first
    author with the largest count. *)
Fixpoint best_author (best : AuthorHit) (authors : list AuthorHit) : AuthorHit :=
  match authors with
  | [] => best
  | a :: rest =>
      if default 0 (hit_citationCount best) <? default 0 (hit_citationCount a)
      then best_author a rest else best_author best rest
  end.

Definition out_of_fuel : Exception := OtherError "loop bound exceeded".

(** The [while True] loop of [_search_by_author]; [fuel] bounds the number
    of iterations. *)
Fixpoint author_pages (self : ProviderState) (author_id : string)
    (fuel : nat) (offset : Z) : Gen Paper unit :=
  match fuel with
  | O => GenM.raise out_of_fuel
  | S fuel' =>
      let papers_url :=
        "https://api.semanticscholar.org/graph/v1/author/" +:+ author_id
        +:+ "/papers?offset=" +:+ pretty offset +:+ "&limit=100&fields="
        +:+ API_FIELDS in
      do response <- _fetch_with_retry self
           {| req_url := papers_url; req_params := [];
              req_headers := api_headers self |};
      match response with
      | None => GenM.ret tt
      | Some resp =>
          let papers := body_records resp in
          match papers with
          | [] => GenM.ret tt
          | _ :: _ =>
              yield_parsed papers;;
              if Z.of_nat (length papers) <? 100 then GenM.ret tt
              else
                let offset' := offset + 100 in
                if offset' >=? MAX_TOTAL_RESULTS then GenM.ret tt
                else author_pages self author_id fuel' offset'
          end
      end
  end.

(** [_search_by_author]. *)
Definition _search_by_author (self : ProviderState) (author_name : string)
  : Gen Paper unit :=
  match _client self with
  | None => GenM.raise not_initialized
  | Some _ =>
      let author_url :=
        "https://api.semanticscholar.org/graph/v1/author/search?query="
        +:+ author_name
        +:+ "&limit=10&fields=authorId,name,paperCount,citationCount" in
      do response <- _fetch_with_retry self
           {| req_url := author_url; req_params := [];
              req_headers := api_headers self |};
      match response with
      | None => GenM.ret tt
      | Some resp =>
          match body_authors resp with
          | [] => GenM.ret tt
          | a :: rest =>
              match authorId (best_author a rest) with
              | Some (String c s) =>
                  author_pages self (String c s)
                    (Z.to_nat (MAX_TOTAL_RESULTS / 100)) 0
              | _ => GenM.ret tt
              end
          end
      end
  end.

(** The request of one page of [fetch_pages]: the [params] dict in its
    insertion order. *)
Definition page_request (self : ProviderState) (query_str : string)
    (citation_filter : option (option Z * option Z))
    (year_start year_end : option Z) (offset : Z) : Request :=
  let min_citations :=
    match citation_filter with
    | Some (Some mn, _) => [("minCitationCount", pretty mn)]
    | _ => []
    end in
  let year_param :=
    if truthy_int year_start then
      if negb (truthy_int year_end)
      then [("year", pretty (default 0 year_start) +:+ "-")]
      else [("year", pretty (default 0 year_start) +:+ "-"
                     +:+ pretty (default 0 year_end))]
    else if truthy_int year_end
    then [("year", "-" +:+ pretty (default 0 year_end))]
    else [] in
  {| req_url := BASE_URL;
     req_params :=
       [("query", query_str); ("limit", pretty PAGE_SIZE); ("fields", API_FIELDS)]
       ++ min_citations ++ year_param ++ [("offset", pretty offset)];
     req_headers := api_headers self |}.

(** The test that ends the page loop after a page: [offset] is the offset
    already advanced past that page. *)
Definition last_page (offset : Z) (data : Response) : bool :=
  (offset >=? MAX_TOTAL_RESULTS)
  || (offset >=? default 0 (body_total data))
  || (Z.of_nat (length (body_records data)) <? PAGE_SIZE).

(** The [while offset < self.MAX_TOTAL_RESULTS] loop of [fetch_pages].
    The generator is lazy: at [yield data] it hands the page to its
    consumer, and it is resumed (to look at the total and to ask for the
    next page) only when the consumer is done with the page; [consume] is
    what the consumer does with a page, and an exception there ends the
    iteration. [fuel] bounds the number of iterations and is looked at only
    after the loop's own test. *)
Fixpoint fetch_pages_loop {Y} (self : ProviderState) (mk : Z -> Request)
    (consume : Response -> Gen Y unit) (fuel : nat) (offset : Z)
  : Gen Y unit :=
  if offset <? MAX_TOTAL_RESULTS then
    match fuel with
    | O => GenM.raise out_of_fuel
    | S fuel' =>
        do response <- _fetch_with_retry self (mk offset);
        match response with
        | None => GenM.ret tt
        | Some data =>
            consume data;;
            let offset' := offset + PAGE_SIZE in
            if last_page offset' data then GenM.ret tt
            else fetch_pages_loop self mk consume fuel' offset'
        end
    end
  else GenM.ret tt.

Definition page_fuel : nat := Z.to_nat (MAX_TOTAL_RESULTS / PAGE_SIZE).

(** [fetch_pages], the inner generator of [_search_api], with what its
    consumer does with each page. *)
Definition fetch_pages {Y} (self : ProviderState) (query_str : string)
    (citation_filter : option (option Z * option Z))
    (year_start year_end : option Z) (consume : Response -> Gen Y unit)
  : Gen Y unit :=
  fetch_pages_loop self
    (page_request self query_str citation_filter year_start year_end)
    consume page_fuel 0.

Definition passes_max_citations
    (citation_filter : option (option Z * option Z)) (paper : Paper) : bool :=
  match citation_filter with
  | Some (_, Some mx) =>
      match citations_count paper with
      | Some c => c <=? mx
      | None => false
      end
  | _ => true
  end.

(** What the stream pipeline ([flat_map], [map], [filter]) and the final
    loop of [_search_api] do with one page: its records are parsed in turn,
    and the papers that pass the citation bound are yielded. *)
Definition stream_page (citation_filter : option (option Z * option Z))
    (data : Response) : Gen Paper unit :=
  GenM.for_each (body_records data)
    (fun paper_data =>
       match _parse_paper paper_data with
       | inl e => GenM.raise e
       | inr (Some paper) =>
           if passes_max_citations citation_filter paper
           then GenM.yield paper else GenM.ret tt
       | inr None => GenM.ret tt
       end).

(** [_search_api]: the stream pipeline over [fetch_pages]. *)
Definition _search_api (self : ProviderState) (query : Query) : Gen Paper unit :=
  match _client self with
  | None => GenM.raise not_initialized
  | Some _ =>
      let citation_filter := extract_citation_range query in
      match remove_citation_range query with
      | None => GenM.ret tt
      | Some query_without_citations =>
          let '(query_str, year_start, year_end) :=
            _translate_query query_without_citations in
          if negb (nonempty query_str) then GenM.ret tt
          else
            fetch_pages self query_str citation_filter year_start year_end
              (stream_page citation_filter)
      end
  end.

(** The filter in the last loop of [search]. *)
Definition client_side_filter (author_filter title_filter : option string)
    (paper : Paper) : bool :=
  (if truthy_str author_filter then
     let author_names := lower (join " " (map a_name (authors paper))) in
     contains (lower (default "" author_filter)) author_names
   else true)
  && (if truthy_str title_filter
      then contains (lower (default "" title_filter)) (lower (title paper))
      else true).

(** [search]. It takes the query only. The fulltext branch calls the
    mixin's [_search_with_fulltext_filter(query)] without the
    [max_results] that method requires, which Python rejects with a
    [TypeError] at the call. *)
Definition search (self : ProviderState) (query : Query) : Gen Paper unit :=
  match _client self with
  | None => GenM.raise not_initialized
  | Some _ =>
      if has_fulltext query then
        GenM.raise
          (TypeError "_search_with_fulltext_filter() missing 1 required positional argument: 'max_results'")
      else
        let author_only := _extract_author_only query in
        if truthy_str author_only
        then _search_by_author self (default "" author_only)
        else
          let author_filter := _extract_author_filter query in
          let title_filter := _extract_title_filter query in
          GenM.flat_map
            (fun paper : Paper =>
               if client_side_filter author_filter title_filter paper
               then [paper] else [])
            (_search_api self query)
  end.

(** The prefixes [_normalize_paper_id] leaves alone. *)
Definition has_id_prefix (paper_id : string) : bool :=
  String.prefix "DOI:" paper_id || String.prefix "ARXIV:" paper_id
  || String.prefix "PMID:" paper_id || String.prefix "CorpusId:" paper_id.

(** [_normalize_paper_id]. *)
Definition _normalize_paper_id (paper_id : string) : string :=
  if String.prefix "10.48550/arXiv." paper_id
  then "ARXIV:" +:+ replace "10.48550/arXiv." "" paper_id
  else if contains "/" paper_id && negb (has_id_prefix paper_id)
  then "DOI:" +:+ paper_id
  else paper_id.

End SemanticScholar.

(** ** scimesh/search.py *)

Module Search.

Inductive OnError := fail | ignore | warn.

(** The [async for item in aiter] loop of [take] over the items the source
    has to give. The flag says whether the loop ran off the end of the
    source, so that the source's own end is reached, or left it by
    [break]. *)
Fixpoint take_loop {T} (n count : Z) (source : list T) : list T * bool :=
  match source with
  | [] => ([], true)
  | item :: rest =>
      if count >=? n then ([], false)
      else
        let '(out, drained) := take_loop n (count + 1) rest in
        (item :: out, drained)
  end.

(** [take]. The source is given drained: the items it yields and how it
    ends after them. *)
Definition take {T A} (n : Z) (aiter : list T * (Exception + A))
  : list T * (Exception + unit) :=
  let '(out, drained) := take_loop n 0 aiter.1 in
  (out, if drained
        then match aiter.2 with
             | inl e => inl e
             | inr _ => inr tt
             end
        else inr tt).

(** A provider object as the orchestrator uses it: its [name], its state,
    the client its [__aenter__] will open, and its [search] method. *)
Record Provider := mkProvider {
  name : string;
  state : ProviderState;
  fresh_client : Client;
  search_method : ProviderState -> Query -> Z -> Gen Paper unit
}.

Definition OpenAlexProvider (mailto : option string) (net : Client) : Provider :=
  {| name := OpenAlex.name;
     state := Provider___init__ None None;
     fresh_client := net;
     search_method := OpenAlex.search mailto |}.

Definition ScopusProvider (api_key env : option string) (net : Client) : Provider :=
  {| name := Scopus.name;
     state := Provider___init__ api_key env;
     fresh_client := net;
     search_method := Scopus.search |}.

(** [async with provider: ... provider.search(query, max_results) ...]
    drained: the papers yielded and the exception that ended the
    iteration, if any. Each provider has a client of its own. *)
Definition provider_run (provider : Provider) (query : Query) (max_results : Z)
  : list Paper * option Exception :=
  let self := Provider___aenter__ (fresh_client provider) (state provider) in
  match search_method provider self query max_results world0 with
  | (_, yielded, inl e) => (yielded, Some e)
  | (_, yielded, inr _) => (yielded, None)
  end.

Definition failure_message (name : string) (e : Exception) : string :=
  "Provider " +:+ name +:+ " failed: " +:+ exc_str e.

(** *** Batch mode *)

(** [fetch_one] of [_search_batch]: the list comprehension is lost when
    the search raises. *)
Definition fetch_one (query : Query) (max_results : Z) (provider : Provider)
  : string * list Paper * option Exception :=
  match provider_run provider query max_results with
  | (_, Some e) => (name provider, [], Some e)
  | (yielded, None) => (name provider, yielded, None)
  end.

Record Batch := mkBatch {
  all_papers : list Paper;
  b_errors : gmap string Exception;
  totals : gmap string Z;
  warned : list string
}.

(** The [for name, papers, error in results] loop. An exception object
    is truthy, so [if error:] tests for [None]. *)
Fixpoint batch_loop (on_error : OnError)
    (results : list (string * list Paper * option Exception)) (b : Batch)
  : Exception + Batch :=
  match results with
  | [] => inr b
  | (name, papers, Some error) :: rest =>
      match on_error with
      | fail => inl error
      | warn =>
          batch_loop on_error rest
            {| all_papers := all_papers b;
               b_errors := <[name := error]> (b_errors b);
               totals := totals b;
               warned := warned b ++ [failure_message name error] |}
      | ignore =>
          batch_loop on_error rest
            {| all_papers := all_papers b;
               b_errors := <[name := error]> (b_errors b);
               totals := totals b;
               warned := warned b |}
      end
  | (name, papers, None) :: rest =>
      batch_loop on_error rest
        {| all_papers := all_papers b ++ papers;
           b_errors := b_errors b;
           totals := <[name := Z.of_nat (length papers)]> (totals b);
           warned := warned b |}
  end.

(** [_search_batch]: the warnings emitted with [warnings.warn], and the
    exception raised or the [SearchResult] returned. [asyncio.gather]
    returns the results in the order of [providers]. *)
Definition _search_batch (query : Query) (providers : list Provider)
    (max_results : Z) (on_error : OnError) (dedupe_ : bool)
  : list string * (Exception + SearchResult) :=
  let results := map (fetch_one query max_results) providers in
  match batch_loop on_error results
          {| all_papers := []; b_errors := ∅; totals := ∅; warned := [] |} with
  | inl e => ([], inl e)
  | inr b =>
      let result := {| papers := all_papers b; errors := b_errors b;
                       total_by_provider := totals b |} in
      (warned b, inr (if dedupe_ then dedupe result else result))
  end.

(** *** Streaming mode *)

(** What travels on the [asyncio.Queue]. *)
Inductive QItem :=
| QPaper (p : Paper)
| QNone
| QExc (e : Exception).

(** A [fetch_one] task of [_search_stream]: the papers its provider has
    still to yield, the exception that will end the search (if any), and
    whether the task has run its [finally] block. *)
Record Task := mkTask {
  t_name : string;
  t_pending : list Paper;
  t_error : option Exception;
  t_done : bool
}.

(** The caller's [async for] over [_search_stream]. *)
Inductive Consumer :=
| Running
| Ended
| Raised (e : Exception).

Record StreamState := mkStreamState {
  queue : list QItem;
  active_tasks : Z;
  tasks : list Task;
  received : list Paper;
  consumer : Consumer;
  s_warned : list string
}.

Definition start_task (query : Query) (max_results : Z) (provider : Provider) : Task :=
  let '(yielded, error) := provider_run provider query max_results in
  {| t_name := name provider; t_pending := yielded; t_error := error;
     t_done := false |}.

(** The state when the generator is first advanced: the queue is empty,
    [active_tasks = len(providers)], one task created per provider. *)
Definition stream_init (query : Query) (providers : list Provider)
    (max_results : Z) : StreamState :=
  {| queue := []; active_tasks := Z.of_nat (length providers);
     tasks := map (start_task query max_results) providers;
     received := []; consumer := Running; s_warned := [] |}.

(** The event loop resumes one task, or the consumer. *)
Inductive Action :=
| TaskStep (i : nat)
| ConsumerStep.

(** Task [i] runs to its next suspension point: it puts the next paper
    of its provider on the queue, or, the search over, runs the
    [except] and [finally] blocks. A put on the unbounded queue does not
    suspend. *)
Definition task_step (on_error : OnError) (i : nat) (s : StreamState)
  : option StreamState :=
  match tasks s !! i with
  | None => None
  | Some t =>
      if t_done t then None
      else
        match t_pending t with
        | paper :: rest =>
            Some {| queue := queue s ++ [QPaper paper];
                    active_tasks := active_tasks s;
                    tasks := <[i := {| t_name := t_name t; t_pending := rest;
                                       t_error := t_error t; t_done := false |}]>
                               (tasks s);
                    received := received s; consumer := consumer s;
                    s_warned := s_warned s |}
        | [] =>
            let queue1 :=
              match t_error t, on_error with
              | Some e, fail => queue s ++ [QExc e]
              | _, _ => queue s
              end in
            let warned1 :=
              match t_error t, on_error with
              | Some e, warn => s_warned s ++ [failure_message (t_name t) e]
              | _, _ => s_warned s
              end in
            let active := active_tasks s - 1 in
            Some {| queue := if active =? 0 then queue1 ++ [QNone] else queue1;
                    active_tasks := active;
                    tasks := <[i := {| t_name := t_name t; t_pending := [];
                                       t_error := t_error t; t_done := true |}]>
                               (tasks s);
                    received := received s; consumer := consumer s;
                    s_warned := warned1 |}
        end
  end.

(** One pass of the [while True] loop of [_search_stream]: [queue.get()]
    needs an item on the queue. *)
Definition consumer_step (s : StreamState) : option StreamState :=
  match consumer s, queue s with
  | Running, item :: rest =>
      Some {| queue := rest; active_tasks := active_tasks s; tasks := tasks s;
              received := match item with
                          | QPaper p => received s ++ [p]
                          | _ => received s
                          end;
              consumer := match item with
                          | QPaper _ => Running
                          | QNone => Ended
                          | QExc e => Raised e
                          end;
              s_warned := s_warned s |}
  | _, _ => None
  end.

Definition step (on_error : OnError) (a : Action) (s : StreamState)
  : option StreamState :=
  match a with
  | TaskStep i => task_step on_error i s
  | ConsumerStep => consumer_step s
  end.

(** A schedule is the order in which the event loop resumes the tasks
    and the consumer. *)
Fixpoint run_schedule (on_error : OnError) (schedule : list Action)
    (s : StreamState) : option StreamState :=
  match schedule with
  | [] => Some s
  | a :: rest =>
      match step on_error a s with
      | Some s' => run_schedule on_error rest s'
      | None => None
      end
  end.

End Search.

(** ** Identity by key, and first occurrences *)

(** Two papers are the same by key when both have a DOI and the DOIs are
    equal, or neither has one and their titles are equal case-insensitively
    and their years are equal; a record with a DOI and one without are
    never the same (where [Paper.__eq__] compares their titles and
    years). *)
Definition same_key (p q : Paper) : bool :=
  if truthy_str (doi p)
  then truthy_str (doi q) && bool_decide (doi p = doi q)
  else negb (truthy_str (doi q))
       && bool_decide (lower (title p) = lower (title q))
       && bool_decide (year p = year q).

(** "Exactly those papers that are not the same logical paper as any
    earlier paper, preserving first-occurrence order": the papers of
    [later] that are not [same] as any paper before them, [earlier] being
    the papers that precede [later]. *)
Fixpoint first_occurrences (same : Paper -> Paper -> bool)
    (earlier later : list Paper) : list Paper :=
  match later with
  | [] => []
  | p :: rest =>
      if existsb (fun e => same e p) earlier
      then first_occurrences same (earlier ++ [p]) rest
      else p :: first_occurrences same (earlier ++ [p]) rest
  end.

(** No DOI in the list is, as a string, the "title:year" key of a DOI-less
    paper of the list. *)
Definition no_key_clash (ps : list Paper) : bool :=
  forallb (fun p =>
    forallb (fun q =>
      negb (truthy_str (doi p) && negb (truthy_str (doi q))
            && String.eqb (dedupe_key p) (dedupe_key q))) ps) ps.

(** ** Definitions for the statements *)

Fixpoint has_char (c : ascii) (s : string) : bool :=
  match s with
  | EmptyString => false
  | String c' rest => bool_decide (c = c') || has_char c rest
  end.

(** The values a request gives for the parameter [key]. *)
Definition param (key : string) (r : Request) : list string :=
  omap (fun kv => if String.eqb kv.1 key then Some kv.2 else None)
       (req_params r).

(** The exception of the first record on which the parser raises, if there
    is one, and the papers of the records before it. *)
Fixpoint first_error (parse : RawRecord -> Exception + option Paper)
    (records : list RawRecord) : option Exception :=
  match records with
  | [] => None
  | r :: rest =>
      match parse r with
      | inl e => Some e
      | inr _ => first_error parse rest
      end
  end.

Fixpoint parsed_before_error (parse : RawRecord -> Exception + option Paper)
    (records : list RawRecord) : list Paper :=
  match records with
  | [] => []
  | r :: rest =>
      match parse r with
      | inl _ => []
      | inr (Some paper) => paper :: parsed_before_error parse rest
      | inr None => parsed_before_error parse rest
      end
  end.

(** How a loop over the parsed records ends. *)
Definition ending_of (error : option Exception) : Exception + unit :=
  match error with
  | Some e => inl e
  | None => inr tt
  end.

(** A query with one leaf taken out. *)
Inductive Ctx :=
| Hole
| CAndL (c : Ctx) (right : Query)
| CAndR (left : Query) (c : Ctx)
| COrL (c : Ctx) (right : Query)
| COrR (left : Query) (c : Ctx)
| CNot (c : Ctx).

Fixpoint plug (c : Ctx) (q : Query) : Query :=
  match c with
  | Hole => q
  | CAndL c r => And (plug c q) r
  | CAndR l c => And l (plug c q)
  | COrL c r => Or (plug c q) r
  | COrR l c => Or l (plug c q)
  | CNot c => Not (plug c q)
  end.

(** The hole lies under a Not node. *)
Fixpoint under_not (c : Ctx) : bool :=
  match c with
  | Hole => false
  | CAndL c _ | CAndR _ c | COrL c _ | COrR _ c => under_not c
  | CNot _ => true
  end.

(** A node without any contribution to the translation. *)
Definition no_clause : Query := YearRange None None.

Definition warned_world (w : World) : World :=
  {| sent := sent w; log := log w ++ [FulltextFallbackMixin.fulltext_warning] |}.

(** The stopping rule as the specification words it: the page has fewer
    items than the page size, or the cap on total results is reached, or
    the caller's [max_results] is satisfied; [fetched] counts the results
    asked for so far. *)
Definition claimed_last_page (max_results fetched : Z) (data : Response) : bool :=
  (Z.of_nat (length (body_records data)) <? SemanticScholar.PAGE_SIZE)
  || (fetched >=? SemanticScholar.MAX_TOTAL_RESULTS)
  || (fetched >=? max_results).

(** The stopping rule of the code, after page number [j] (from 0). *)
Definition page_ends_search (j : nat) (data : Response) : Prop :=
  1000 <= 100 * (Z.of_nat j + 1)
  \/ default 0 (body_total data) <= 100 * (Z.of_nat j + 1)
  \/ Z.of_nat (length (body_records data)) < 100.

(** Every reply of the client is a response with a 2xx status. *)
Definition always_ok (client : Client) : Prop :=
  forall n req, exists resp,
    client n req = inr resp /\ 200 <= status_code resp < 300.

Definition reply (client : Client) (n : nat) (req : Request) : Response :=
  match client n req with
  | inr resp => resp
  | inl _ => {| status_code := 0; body_total := None; body_records := [];
                body_authors := [] |}
  end.

(** The request of page [j] and the page the client replies with, [w0]
    being the world in which the search starts. *)
Definition page_req (mk : Z -> Request) (j : nat) : Request :=
  mk (100 * Z.of_nat j).
Definition page (client : Client) (mk : Z -> Request) (w0 : World) (j : nat)
  : Response :=
  reply client (length (sent w0) + j) (page_req mk j).

(** The requests of the paged search for [query], [rest] being the query
    without its citation ranges. *)
Definition search_page_request (self : ProviderState) (query rest : Query)
  : Z -> Request :=
  SemanticScholar.page_request self
    (SemanticScholar._translate_query rest).1.1
    (extract_citation_range query)
    (SemanticScholar._translate_query rest).1.2
    (SemanticScholar._translate_query rest).2.

(** The request of page [j] of an author's papers, and the stopping rule
    of [_search_by_author] after that page: an empty or short page, or the
    cap. *)
Definition author_page_req (self : ProviderState) (author_id : string) (j : nat)
  : Request :=
  {| req_url :=
       "https://api.semanticscholar.org/graph/v1/author/" +:+ author_id
       +:+ "/papers?offset=" +:+ pretty (100 * Z.of_nat j)
       +:+ "&limit=100&fields=" +:+ SemanticScholar.API_FIELDS;
     req_params := [];
     req_headers := SemanticScholar.api_headers self |}.

Definition author_page_ends (j : nat) (data : Response) : Prop :=
  Z.of_nat (length (body_records data)) < 100
  \/ 1000 <= 100 * (Z.of_nat j + 1).

(** A provider whose search raises. *)
Definition raises (query : Query) (max_results : Z)
    (P : Search.Provider) (e : Exception) : Prop :=
  (Search.provider_run P query max_results).2 = Some e.

(** A provider whose search ends normally after yielding [ps]. *)
Definition succeeds (query : Query) (max_results : Z)
    (P : Search.Provider) (ps : list Paper) : Prop :=
  Search.provider_run P query max_results = (ps, None).

(** [l] interleaves the lists [ls]: it is built from left to right, each
    time by the next element of one of the lists. *)
Inductive Interleaves {A} : list (list A) -> list A -> Prop :=
| Interleaves_nil n : Interleaves (replicate n []) []
| Interleaves_snoc ls l i xs x :
    Interleaves ls l -> ls !! i = Some xs ->
    Interleaves (<[i := xs ++ [x]]> ls) (l ++ [x]).

Module StreamInv.

Import Search.

(** A task that has not yet run its [finally] block counts as one. *)
Definition live (t : Task) : nat := if t_done t then 0 else 1.
Definition live_count (ts : list Task) : nat := sum_list_with live ts.

(** What holds of every state of a stream whose providers do not fail:
    [T0] are the papers the providers will yield, [pushed] those already
    put on the queue, [qs] those on the queue. *)
Definition stream_inv (T0 : list (list Paper)) (s : StreamState) : Prop :=
  exists (pushed : list (list Paper)) (qs : list Paper),
    length pushed = length T0
    /\ length (tasks s) = length T0
    /\ (forall i t, tasks s !! i = Some t ->
          exists pu, pushed !! i = Some pu
                     /\ T0 !! i = Some (pu ++ t_pending t)
                     /\ t_error t = None
                     /\ (t_done t = true -> t_pending t = []))
    /\ active_tasks s = Z.of_nat (live_count (tasks s))
    /\ Interleaves pushed (received s ++ qs)
    /\ ((0 < live_count (tasks s))%nat
        /\ queue s = map QPaper qs /\ consumer s = Running
        \/ live_count (tasks s) = 0%nat
           /\ queue s = map QPaper qs ++ [QNone] /\ consumer s = Running
        \/ live_count (tasks s) = 0%nat
           /\ queue s = [] /\ qs = [] /\ consumer s = Ended).

(** The number of steps a stream can still take is bounded by this. *)
Definition task_steps (t : Task) : nat :=
  if t_done t then 0 else S (length (t_pending t)).
Definition steps_left (s : StreamState) : nat :=
  3 * sum_list_with task_steps (tasks s) + length (queue s).

End StreamInv.

(** ** Sample data *)

Module Samples.

Definition paper (t : string) (y : Z) (d : option string) (src : string) : Paper :=
  {| title := t; authors := []; year := y; source := src; abstract := None;
     doi := d; url := None; topics := []; citations_count := None;
     publication_date := None; journal := None; extras := ∅ |}.

Definition attention_arxiv : Paper :=
  paper "Attention Is All You Need" 2017 (Some "10.48550/arXiv.1706.03762") "arxiv".
Definition attention_openalex : Paper :=
  paper "Attention is all you need" 2017 None "openalex".
Definition attention_other_title : Paper :=
  paper "Transformers" 2018 (Some "10.48550/arXiv.1706.03762") "scopus".
Definition attention_lowercase_doi : Paper :=
  paper "Attention Is All You Need" 2017 (Some "10.48550/arxiv.1706.03762") "scopus".
Definition bert : Paper :=
  paper "BERT" 2019 None "openalex".
Definition bert_upper : Paper :=
  paper "Bert" 2019 (Some "") "scopus".

End Samples.

Definition negated_query : Query :=
  And (Not (And (Combinators.author "Google") (Combinators.title "deprecated")))
      (Combinators.title "BERT").

(** The same paper from a provider that gives its DOI and from one that
    does not. *)
Definition mixed_result : SearchResult :=
  {| papers := [Samples.attention_arxiv; Samples.attention_openalex];
     errors := ∅; total_by_provider := ∅ |}.

Definition sample_result : SearchResult :=
  {| papers := [Samples.attention_arxiv; Samples.bert;
                Samples.attention_other_title; Samples.bert_upper;
                Samples.attention_openalex];
     errors := {[ "scopus" := HTTPStatusError 401 ]};
     total_by_provider := {[ "arxiv" := 1; "openalex" := 4 ]} |}.

Definition silent_api : Query -> Z -> Gen Paper unit := fun _ _ => GenM.ret tt.
Definition empty_index : string -> Z -> list string := fun _ _ => [].
Definition echo_client : Client :=
  fun _ _ => inr {| status_code := 200; body_total := Some 2;
                    body_records := [Titled Samples.bert; Untitled;
                                     Titled Samples.attention_openalex];
                    body_authors := [] |}.

(** A provider that was entered and has been exited again. *)
Definition exited : ProviderState :=
  Provider___aexit__
    (Provider___aenter__ echo_client (Provider___init__ (Some "key") None)).

Definition entered (client : Client) : ProviderState :=
  Provider___aenter__ client (Provider___init__ None None).

(** A page that is full (100 records, none of them with a title) and
    reports [total] results in all, and the client whose every reply is
    that page. *)
Definition full_page (total : Z) : Response :=
  {| status_code := 200; body_total := Some total;
     body_records := replicate 100 Untitled; body_authors := [] |}.
Definition full_page_client (total : Z) : Client :=
  fun _ _ => inr (full_page total).

Definition three_papers : list Paper :=
  [Samples.attention_arxiv; Samples.bert; Samples.attention_other_title].
Definition two_papers : list Paper :=
  [Samples.attention_openalex; Samples.bert_upper].

Definition papers_client (ps : list Paper) : Client :=
  fun _ _ => inr {| status_code := 200; body_total := None;
                    body_records := map Titled ps; body_authors := [] |}.

Definition provider_of_three : Search.Provider :=
  Search.OpenAlexProvider None (papers_client three_papers).
Definition provider_of_two : Search.Provider :=
  Search.OpenAlexProvider (Some "me@example.org") (papers_client two_papers).

Definition sample_schedule : list Search.Action :=
  [Search.TaskStep 0; Search.TaskStep 1; Search.ConsumerStep;
   Search.TaskStep 0; Search.ConsumerStep; Search.ConsumerStep;
   Search.TaskStep 1; Search.TaskStep 0; Search.TaskStep 1;
   Search.ConsumerStep; Search.ConsumerStep; Search.TaskStep 0;
   Search.ConsumerStep].

(** Scopus without an API key: its search raises [ValueError]. *)
Definition scopus_without_key : Search.Provider :=
  Search.ScopusProvider None None echo_client.

Definition missing_key : Exception :=
  ValueError "Scopus requires an API key. Set SCOPUS_API_KEY or pass api_key=".

(** ** scimesh/download/__init__.py *)

Module Download.

(** The characters of the class [invalid_chars]: backslash, colon,
    asterisk, question mark, double quote, angle brackets and bar. *)
Definition invalid_chars : list ascii :=
  ["092"; ":"; "*"; "?"; "034"; "<"; ">"; "|"]%char.

(** [re.sub(invalid_chars, "_", filename)]: every character of the class
    is replaced by an underscore. *)
Fixpoint sub_invalid (filename : string) : string :=
  match filename with
  | EmptyString => EmptyString
  | String c rest =>
      String (if bool_decide (c ∈ invalid_chars) then "_"%char else c)
             (sub_invalid rest)
  end.

(** [make_filename]. *)
Definition make_filename (doi : string) : string :=
  sub_invalid (replace "/" "_" doi).

End Download.

(** The characters [make_filename] takes out of a DOI. *)
Definition unsafe_chars : list ascii := "/"%char :: Download.invalid_chars.

(** ** Definitions for the further properties *)

(** What the providers contribute to a batch: the papers of those whose
    search succeeds, in the order of [providers]; the names and errors of
    those whose search raises; the names and counts of those that
    succeed. *)
Definition batch_papers (query : Query) (max_results : Z)
    (providers : list Search.Provider) : list Paper :=
  concat (map (fun P => match Search.provider_run P query max_results with
                        | (ys, None) => ys
                        | (_, Some _) => []
                        end) providers).

Definition batch_failures (query : Query) (max_results : Z)
    (providers : list Search.Provider) : list (string * Exception) :=
  omap (fun P => match Search.provider_run P query max_results with
                 | (_, Some e) => Some (Search.name P, e)
                 | (_, None) => None
                 end) providers.

Definition batch_counts (query : Query) (max_results : Z)
    (providers : list Search.Provider) : list (string * Z) :=
  omap (fun P => match Search.provider_run P query max_results with
                 | (ys, None) => Some (Search.name P, Z.of_nat (length ys))
                 | (_, Some _) => None
                 end) providers.

(** A dict filled by [d[k] = v] for the pairs of [kvs] in turn: a later
    pair overwrites an earlier one with the same key. *)
Definition dict_of {V} (kvs : list (string * V)) : gmap string V :=
  list_to_map (reverse kvs).

Module StreamGInv.

Import Search StreamInv.

(** The papers among the items of the queue. *)
Definition queue_papers (q : list QItem) : list Paper :=
  omap (fun item => match item with QPaper p => Some p | _ => None end) q.

(** What holds of every state of a stream, whatever the providers do and
    whatever the policy: [T0] are the papers the providers yield before
    they end, [E0] the exceptions they end with, [pushed] the papers
    already put on the queue. *)
Definition stream_ginv (on_error : OnError) (T0 : list (list Paper))
    (E0 : list (option Exception)) (s : StreamState) : Prop :=
  exists pushed : list (list Paper),
    length pushed = length T0
    /\ length (tasks s) = length T0
    /\ (forall i t, tasks s !! i = Some t ->
          exists pu, pushed !! i = Some pu
                     /\ T0 !! i = Some (pu ++ t_pending t)
                     /\ E0 !! i = Some (t_error t)
                     /\ (t_done t = true -> t_pending t = []))
    /\ active_tasks s = Z.of_nat (live_count (tasks s))
    /\ Interleaves pushed (received s ++ queue_papers (queue s))
    /\ (QNone ∈ queue s ->
        live_count (tasks s) = 0%nat
        /\ exists q', queue s = q' ++ [QNone] /\ QNone ∉ q')
    /\ (consumer s = Running -> live_count (tasks s) = 0%nat ->
        QNone ∈ queue s)
    /\ (forall e, QExc e ∈ queue s -> on_error = fail /\ Some e ∈ E0)
    /\ (forall e, consumer s = Raised e -> on_error = fail /\ Some e ∈ E0)
    /\ (consumer s = Running -> on_error = fail ->
        forall i t e, tasks s !! i = Some t -> t_done t = true ->
                      t_error t = Some e -> QExc e ∈ queue s)
    /\ (consumer s = Ended ->
        queue s = [] /\ live_count (tasks s) = 0%nat
        /\ (on_error = fail -> forall t, t ∈ tasks s -> t_error t = None)).

End StreamGInv.

(** A schedule for a failing provider followed by one that yields two
    papers. *)
Definition failing_first_schedule : list Search.Action :=
  [Search.TaskStep 0; Search.TaskStep 1; Search.ConsumerStep;
   Search.TaskStep 1; Search.TaskStep 1; Search.ConsumerStep;
   Search.ConsumerStep].

(** Every reply of the client is a response with the status [status]. *)
Definition always_status (client : Client) (status : Z) : Prop :=
  forall n req, exists resp,
    client n req = inr resp /\ status_code resp = status.

Definition is_http_status_error (e : Exception) : bool :=
  match e with
  | HTTPStatusError _ => true
  | _ => false
  end.

(** A client that answers every request with the status 429. *)
Definition rate_limited_client : Client :=
  fun _ _ => inr {| status_code := 429; body_total := None;
                    body_records := []; body_authors := [] |}.

(** A client that answers every request with the status 500. *)
Definition broken_client : Client :=
  fun _ _ => inr {| status_code := 500; body_total := None;
                    body_records := []; body_authors := [] |}.

(** A client whose connection fails. *)
Definition unreachable_client : Client :=
  fun _ _ => inl (OtherError "connection refused").

Definition sample_request : Request :=
  {| req_url := SemanticScholar.BASE_URL; req_params := [("query", "bert")];
     req_headers := [] |}.

(** What every request of Semantic Scholar's paged search looks like: the
    search endpoint, a non-empty query string, a page of 100 and an offset
    that is a multiple of 100 below the cap. *)
Definition well_formed_page_request (r : Request) : Prop :=
  req_url r = SemanticScholar.BASE_URL
  /\ ("limit", "100") ∈ req_params r
  /\ (exists query_str,
        ("query", query_str) ∈ req_params r /\ nonempty query_str = true)
  /\ (exists j : nat,
        (j < 10)%nat /\ ("offset", pretty (100 * Z.of_nat j)) ∈ req_params r).

(** The request of the author search of [_search_by_author]. *)
Definition author_search_req (self : ProviderState) (author_name : string)
  : Request :=
  {| req_url :=
       "https://api.semanticscholar.org/graph/v1/author/search?query="
       +:+ author_name
       +:+ "&limit=10&fields=authorId,name,paperCount,citationCount";
     req_params := [];
     req_headers := SemanticScholar.api_headers self |}.

(** A paper of the Semantic Scholar API. *)
Definition little_cited : Paper :=
  {| title := "BERT: Pre-training of Deep Bidirectional Transformers";
     authors := [ {| a_name := "Jacob Devlin"; a_affiliation := None;
                     a_orcid := None |} ];
     year := 2019; source := "semantic_scholar"; abstract := None;
     doi := None; url := None; topics := []; citations_count := Some 5;
     publication_date := None; journal := None; extras := ∅ |}.

(** A reply whose second work has a [primary_location] that is [null]:
    [_parse_work] reads [landing_page_url] from it and raises. *)
Definition null_location : Exception :=
  OtherError "AttributeError: 'NoneType' object has no attribute 'get'".
Definition null_location_client : Client :=
  fun _ _ => inr {| status_code := 200; body_total := None;
                    body_records := [Titled Samples.bert;
                                     Malformed null_location;
                                     Titled Samples.attention_openalex];
                    body_authors := [] |}.

(** A client for the author endpoints: the author search finds two
    authors, and every page of papers is short. *)
Definition author_client : Client :=
  fun _ _ => inr {| status_code := 200; body_total := None;
                    body_records := [Untitled; Titled little_cited];
                    body_authors :=
                      [ {| authorId := Some "1"; hit_citationCount := Some 10 |};
                        {| authorId := Some "2"; hit_citationCount := Some 90 |} ] |}.

(** A paper the local index knows: its DOI, or else its [paper_id], is
    not empty and among [ids]. *)
Definition in_index (ids : list string) (paper : Paper) : bool :=
  match or_str (doi paper) (extras paper !! "paper_id") with
  | Some id => nonempty id && bool_decide (id ∈ ids)
  | None => false
  end.

(** A search API that yields the three sample papers, an index that knows
    the DOI of the first, and a query with a fulltext leaf. *)
Definition three_papers_api : Query -> Z -> Gen Paper unit :=
  fun _ _ w => (w, three_papers, inr tt).
Definition attention_index : string -> Z -> list string :=
  fun _ _ => ["10.48550/arXiv.1706.03762"].
Definition fulltext_query : Query :=
  And (Combinators.fulltext "self-attention") (Combinators.title "attention").

(** The queries [Scopus._translate_query] has a [case] for. *)
Definition scopus_field (f : string) : bool :=
  String.eqb f "title" || String.eqb f "author" || String.eqb f "abstract"
  || String.eqb f "keyword" || String.eqb f "fulltext" || String.eqb f "doi".

Fixpoint scopus_supported (query : Query) : bool :=
  match query with
  | Field f _ => scopus_field f
  | And l r | Or l r => scopus_supported l && scopus_supported r
  | Not o => scopus_supported o
  | YearRange _ _ => true
  | CitationRange _ _ => false
  end.

(** An inverted index of "to be or not to be", with its items out of
    order. *)
Definition hamlet_index : list (string * list Z) :=
  [("be", [1; 5]); ("not", [3]); ("to", [0; 4]); ("or", [2])].
Definition hamlet_words : list string :=
  ["to"; "be"; "or"; "not"; "to"; "be"].

(** The order a list of pairs [(pos, word)] is sorted in. *)
Definition by_pos (x y : Z * string) : Prop := x.1 <= y.1.

(** The pairs [(i, word)] of a list of words. *)
Definition numbered (ws : list string) : list (Z * string) :=
  imap (fun i w => (Z.of_nat i, w)) ws.

(** The query has a leaf that [SemanticScholar._collect_terms] turns into
    a search term. *)
Fixpoint has_term_leaf (query : Query) : bool :=
  match query with
  | Field f _ => String.eqb f "title" || SemanticScholar.is_plain_field f
  | And l r | Or l r => has_term_leaf l || has_term_leaf r
  | Not o => has_term_leaf o
  | YearRange _ _ | CitationRange _ _ => false
  end.

(** A query of ranges only. *)
Definition ranges_only : Query :=
  And (YearRange (Some 2019) (Some 2021)) (Not (CitationRange (Some 10) None)).

(** * Properties *)

(** ** Strings *)

Lemma has_char_app c s t : has_char c (s +:+ t) = has_char c s || has_char c t.
Proof.
  induction s as [|c' s IH]; simpl; [done|].
  rewrite IH. by rewrite orb_assoc.
Qed.

Lemma pretty_N_char_not_colon x : pretty_N_char x ≠ ":"%char.
Proof. unfold pretty_N_char. by repeat case_match. Qed.

Lemma pretty_N_go_colon x s :
  has_char ":" (pretty_N_go x s) = has_char ":" s.
Proof.
  revert s. induction (N.lt_wf_0 x) as [x _ IH]; intros s.
  destruct (decide (x = 0)%N) as [->|Hx].
  - by rewrite pretty_N_go_0.
  - rewrite pretty_N_go_step by lia.
    rewrite IH by (apply N.div_lt; lia). simpl.
    rewrite bool_decide_eq_false_2; [done|].
    intros Heq. by apply (pretty_N_char_not_colon (x `mod` 10)%N).
Qed.

Lemma pretty_N_colon (x : N) : has_char ":" (pretty x) = false.
Proof.
  unfold pretty, pretty_N. case_decide; [done|]. by rewrite pretty_N_go_colon.
Qed.

(** [str(n)] has no colon. *)
Lemma pretty_Z_colon (z : Z) : has_char ":" (pretty z) = false.
Proof.
  destruct z as [|p|p]; [done|..].
  - apply (pretty_N_colon (N.pos p)).
  - change (pretty (Z.neg p)) with ("-" +:+ pretty (N.pos p)).
    rewrite has_char_app, (pretty_N_colon (N.pos p)). done.
Qed.

(** Splitting at the last colon is unambiguous. *)
Lemma colon_split_inj a b s t :
  has_char ":" s = false -> has_char ":" t = false ->
  a +:+ ":" +:+ s = b +:+ ":" +:+ t -> a = b /\ s = t.
Proof.
  intros Hs Ht. revert b.
  assert (Hcolon : forall u v, has_char ":" (u +:+ ":" +:+ v) = true).
  { intros u v. rewrite has_char_app. simpl. by rewrite orb_true_r. }
  induction a as [|c a IH]; intros [|d b] Heq; simpl in Heq.
  - by simplify_eq.
  - injection Heq as <- Heq. change (s = b +:+ ":" +:+ t) in Heq.
    rewrite Heq, Hcolon in Hs. done.
  - injection Heq as -> Heq. change (a +:+ ":" +:+ s = t) in Heq.
    rewrite <- Heq, Hcolon in Ht. done.
  - injection Heq as -> Heq. destruct (IH b) as [-> ->]; done.
Qed.

(** The "title:year" key determines the lowercased title and the year. *)
Lemma title_year_key_inj (t1 : string) (y1 : Z) (t2 : string) (y2 : Z) :
  t1 +:+ ":" +:+ pretty y1 = t2 +:+ ":" +:+ pretty y2 -> t1 = t2 /\ y1 = y2.
Proof.
  intros Heq.
  apply colon_split_inj in Heq as [-> Hy]; auto using pretty_Z_colon.
  split; [done|]. by apply (inj pretty).
Qed.

(** ** Paper identity *)

Lemma truthy_str_Some o : truthy_str o = true -> exists c s, o = Some (String c s).
Proof. destruct o as [[|c s]|]; simpl; intros; simplify_eq; eauto. Qed.

(** C1. For every pair of Paper records [p] and [q]: if both have a
    non-empty DOI then [p == q] iff their DOIs are equal (an exact,
    case-sensitive comparison, whatever the titles and years are); and if
    both DOIs are absent or empty then [p == q] iff their lowercased titles
    are equal and their years are equal. *)
Theorem Paper_eq_identity (p q : Paper) :
  (truthy_str (doi p) = true -> truthy_str (doi q) = true ->
   (Paper___eq__ p q = true <-> doi p = doi q))
  /\ (truthy_str (doi p) = false -> truthy_str (doi q) = false ->
      (Paper___eq__ p q = true <->
       lower (title p) = lower (title q) /\ year p = year q)).
Proof.
  unfold Paper___eq__. split; intros Hp Hq; rewrite Hp, Hq; simpl.
  - apply bool_decide_eq_true.
  - rewrite andb_true_iff, !bool_decide_eq_true. done.
Qed.

Lemma Paper_eq_identity_witness :
  Paper___eq__ Samples.attention_arxiv Samples.attention_other_title = true
  /\ Paper___eq__ Samples.attention_arxiv Samples.attention_lowercase_doi = false
  /\ Paper___eq__ Samples.bert Samples.bert_upper = true.
Proof.
  split; [|split].
  - apply (proj1 (Paper_eq_identity Samples.attention_arxiv
                    Samples.attention_other_title)); reflexivity.
  - destruct (Paper___eq__ Samples.attention_arxiv
                Samples.attention_lowercase_doi) eqn:Heq; [|reflexivity].
    apply (proj1 (Paper_eq_identity Samples.attention_arxiv
                    Samples.attention_lowercase_doi)) in Heq;
      [discriminate Heq | reflexivity | reflexivity].
  - apply (proj2 (Paper_eq_identity Samples.bert Samples.bert_upper));
      [reflexivity | reflexivity | split; reflexivity].
Defined.

(** Where both records have a DOI, or neither has, equal records hash
    alike, whatever the built-in [hash] is. *)
Lemma Paper_hash_same_kind (hash : Hashable -> Z) (p q : Paper) :
  truthy_str (doi p) = truthy_str (doi q) ->
  Paper___eq__ p q = true -> Paper___hash__ hash p = Paper___hash__ hash q.
Proof.
  unfold Paper___eq__, Paper___hash__, Paper_hash_key. intros Hk.
  rewrite <- Hk. destruct (truthy_str (doi p)); simpl.
  - intros Heq%bool_decide_eq_true. by rewrite Heq.
  - rewrite andb_true_iff, !bool_decide_eq_true. by intros [-> ->].
Qed.

(** C2. Hashing is meant to agree with equality: [p == q] should give
    [hash(p) == hash(q)]. It does not where exactly one of the two records
    has a DOI: the two sample records below are equal (same lowercased
    title and year), yet one is hashed through its DOI string and the other
    through its (title, year) tuple, two different objects, so that their
    hashes agree only if the built-in [hash] collides on these. *)
Theorem Paper_hash_eq_mixed_doi :
  Paper___eq__ Samples.attention_arxiv Samples.attention_openalex = true
  /\ Paper_hash_key Samples.attention_arxiv = HStr "10.48550/arXiv.1706.03762"
  /\ Paper_hash_key Samples.attention_openalex
     = HTuple "attention is all you need" 2017
  /\ (exists hash : Hashable -> Z,
        Paper___hash__ hash Samples.attention_arxiv
        <> Paper___hash__ hash Samples.attention_openalex).
Proof.
  repeat split.
  exists (fun k => match k with HStr _ => 0 | HTuple _ _ => 1 end).
  unfold Paper___hash__. simpl. discriminate.
Qed.

(** ** Deduplication *)

Lemma no_key_clash_spec ps p q :
  no_key_clash ps = true -> p ∈ ps -> q ∈ ps ->
  truthy_str (doi p) = true -> truthy_str (doi q) = false ->
  dedupe_key p <> dedupe_key q.
Proof.
  unfold no_key_clash. rewrite forallb_forall. intros Hall Hp Hq Hdp Hdq Hk.
  apply list_elem_of_In in Hp, Hq.
  specialize (Hall p Hp). rewrite forallb_forall in Hall.
  specialize (Hall q Hq). rewrite Hdp, Hdq, Hk in Hall. simpl in Hall.
  by rewrite String.eqb_refl in Hall.
Qed.

(** Without a clash, two papers have the same [dedupe] key exactly when
    they are the same by [same_key]. *)
Lemma dedupe_key_same_key ps p q :
  no_key_clash ps = true -> p ∈ ps -> q ∈ ps ->
  dedupe_key p = dedupe_key q <-> same_key p q = true.
Proof.
  intros Hclash Hp Hq. unfold same_key.
  destruct (truthy_str (doi p)) eqn:Hdp, (truthy_str (doi q)) eqn:Hdq; simpl.
  - unfold dedupe_key. rewrite Hdp, Hdq, bool_decide_eq_true.
    apply truthy_str_Some in Hdp as (c & s & ->).
    apply truthy_str_Some in Hdq as (c' & s' & ->). simpl.
    split; [by intros -> | by intros [= -> ->]].
  - split; [|done]. intros Hk.
    by destruct (no_key_clash_spec ps p q).
  - split; [|done]. intros Hk.
    by destruct (no_key_clash_spec ps q p).
  - unfold dedupe_key. rewrite Hdp, Hdq, andb_true_iff, !bool_decide_eq_true.
    split; [apply title_year_key_inj | by intros [-> ->]].
Qed.

Lemma dedupe_loop_first_occurrences ps earlier later seen unique :
  no_key_clash ps = true ->
  (forall p, p ∈ earlier ++ later -> p ∈ ps) ->
  (forall k, k ∈ seen <-> exists e, e ∈ earlier /\ dedupe_key e = k) ->
  (foldl dedupe_step (seen, unique) later).2
  = unique ++ first_occurrences same_key earlier later.
Proof.
  intros Hclash. revert earlier seen unique.
  induction later as [|p later IH]; intros earlier seen unique Hin Hseen; simpl.
  { by rewrite app_nil_r. }
  assert (Hp : p ∈ ps) by (apply Hin, elem_of_app; right; left).
  assert (Hearlier : forall e, e ∈ earlier -> e ∈ ps).
  { intros e He. apply Hin, elem_of_app. by left. }
  assert (Hlater : forall e, e ∈ (earlier ++ [p]) ++ later -> e ∈ ps).
  { intros e He. apply Hin. rewrite <- app_assoc in He. done. }
  assert (Hdup : dedupe_key p ∈ seen <->
                 existsb (fun e => same_key e p) earlier = true).
  { rewrite Hseen, existsb_exists. split.
    - intros (e & He & Hk). exists e. split; [by apply list_elem_of_In|].
      apply (dedupe_key_same_key ps); auto.
    - intros (e & He%list_elem_of_In & Hs). exists e. split; [done|].
      apply (dedupe_key_same_key ps); auto. }
  unfold dedupe_step at 2. simpl.
  destruct (decide (dedupe_key p ∈ seen)) as [Hk|Hk].
  - rewrite (proj1 Hdup Hk). apply IH; [done|].
    intros k. rewrite Hseen. split.
    + intros (e & He & <-). exists e. split; [|done].
      apply elem_of_app. by left.
    + intros (e & He & <-).
      apply elem_of_app in He as [He|He%list_elem_of_singleton].
      * by exists e.
      * subst e. by apply Hseen.
  - destruct (existsb _ earlier) eqn:Hex; [by destruct Hk; apply Hdup|].
    rewrite (IH (earlier ++ [p])); [by rewrite <- app_assoc|done|].
    intros k. rewrite elem_of_union, elem_of_singleton, Hseen. split.
    + intros [->|(e & He & <-)]; [exists p|exists e]; split; try done.
      * apply elem_of_app. right. by apply list_elem_of_singleton.
      * apply elem_of_app. by left.
    + intros (e & He & <-).
      apply elem_of_app in He as [He|He%list_elem_of_singleton]; [|left; by subst].
      right. by exists e.
Qed.

(** What [dedupe] does, by key. For every SearchResult [r] in which no
    DOI is, as a string, the "title:year" key of a DOI-less paper,
    [r.dedupe()] keeps exactly the papers of [r] that are not the same as
    any earlier paper of [r.papers], in their order, where two papers are
    the same when both have a DOI and the DOIs are equal, or neither has
    one and their lowercased titles and their years are equal; a paper with
    a DOI and one without are never found the same. [errors] and
    [total_by_provider] are those of [r]. *)
Theorem dedupe_first_occurrences (r : SearchResult) :
  no_key_clash (papers r) = true ->
  papers (dedupe r) = first_occurrences same_key [] (papers r)
  /\ errors (dedupe r) = errors r
  /\ total_by_provider (dedupe r) = total_by_provider r.
Proof.
  intros Hclash. split; [|done]. simpl. unfold dedupe_loop.
  rewrite (dedupe_loop_first_occurrences (papers r) [] (papers r)); try done.
  intros k. split; [by intros ?%not_elem_of_empty|].
  by intros (e & ?%not_elem_of_nil & _).
Qed.

Lemma dedupe_first_occurrences_witness :
  papers (dedupe sample_result)
  = [Samples.attention_arxiv; Samples.bert; Samples.attention_openalex]
  /\ errors (dedupe sample_result) = errors sample_result
  /\ total_by_provider (dedupe sample_result) = total_by_provider sample_result.
Proof.
  destruct (dedupe_first_occurrences sample_result) as (Hp & He & Ht);
    [vm_compute; reflexivity|].
  split; [|by split]. rewrite Hp. vm_compute. reflexivity.
Defined.

(** C3. [dedupe] is to keep, of the papers of a result, those that are
    not the same logical paper as an earlier one, by the identity rule of
    [Paper.__eq__]. It misses the case in which exactly one of two equal
    records has a DOI: in the sample result the second record equals the
    first (same lowercased title and year, one DOI only), so that the
    first occurrences by [Paper.__eq__] are the first record alone, yet
    [dedupe] keeps both, because it compares the DOI of the one with the
    "title:year" key of the other. It is the case in which [__hash__] and
    [__eq__] disagree as well. *)
Lemma dedupe_not_eq_first_occurrences :
  Paper___eq__ Samples.attention_arxiv Samples.attention_openalex = true
  /\ papers (dedupe mixed_result)
     = [Samples.attention_arxiv; Samples.attention_openalex]
  /\ first_occurrences Paper___eq__ [] (papers mixed_result)
     = [Samples.attention_arxiv]
  /\ papers (dedupe mixed_result)
     <> first_occurrences Paper___eq__ [] (papers mixed_result).
Proof.
  assert (Hd : papers (dedupe mixed_result)
               = [Samples.attention_arxiv; Samples.attention_openalex])
    by (vm_compute; reflexivity).
  rewrite Hd.
  split; [reflexivity|]. split; [reflexivity|]. split; [reflexivity|].
  vm_compute. discriminate.
Qed.

Lemma dedupe_step_subset st p q :
  q ∈ (dedupe_step st p).2 -> q ∈ st.2 \/ q = p.
Proof.
  unfold dedupe_step. case_decide; simpl; [by left|].
  intros [?|?%list_elem_of_singleton]%elem_of_app; auto.
Qed.

(** [dedupe] only keeps papers of the list it is given. *)
Lemma dedupe_loop_subset ps q : q ∈ (dedupe_loop ps).2 -> q ∈ ps.
Proof.
  unfold dedupe_loop.
  assert (H : forall st, q ∈ (foldl dedupe_step st ps).2 -> q ∈ st.2 \/ q ∈ ps).
  { induction ps as [|p ps IH]; intros st; simpl; [by left|].
    intros [[?| ->]%dedupe_step_subset|?]%IH.
    - by left.
    - right. by left.
    - right. by right. }
  intros [?%not_elem_of_nil|?]%H; done.
Qed.

(** ** Batch mode *)

Section Batch.

Import Search.

Variable query : Query.
Variable max_results : Z.

Lemma fetch_one_raises P e :
  raises query max_results P e -> fetch_one query max_results P = (name P, [], Some e).
Proof.
  unfold raises, fetch_one. destruct (provider_run _ _ _) as [ys [e'|]]; simpl.
  - by intros [= ->].
  - done.
Qed.

Lemma fetch_one_succeeds P ps :
  succeeds query max_results P ps -> fetch_one query max_results P = (name P, ps, None).
Proof. unfold succeeds, fetch_one. by intros ->. Qed.

(** C4. Batch mode with [on_error="warn"] and providers [A, B], where the
    search of [A] raises and that of [B] succeeds: no exception reaches
    the caller, one warning is emitted, the result's [errors] maps the
    name of [A] to its error, its [papers] are papers of [B] only (all of
    them, deduplicated if asked for), and [total_by_provider] has one
    entry, for [B]. *)
Theorem batch_warn_records_failure (A B : Provider) (dedupe_ : bool)
    (eA : Exception) (psB : list Paper) :
  raises query max_results A eA -> succeeds query max_results B psB ->
  exists result,
    _search_batch query [A; B] max_results warn dedupe_
    = ([failure_message (name A) eA], inr result)
    /\ errors result = {[ name A := eA ]}
    /\ papers result = (if dedupe_ then (dedupe_loop psB).2 else psB)
    /\ (forall p, p ∈ papers result -> p ∈ psB)
    /\ total_by_provider result = {[ name B := Z.of_nat (length psB) ]}.
Proof.
  intros HA HB. unfold _search_batch. simpl.
  rewrite (fetch_one_raises A eA HA), (fetch_one_succeeds B psB HB). simpl.
  eexists. split; [reflexivity|].
  destruct dedupe_; simpl; repeat split; try done.
  apply dedupe_loop_subset.
Qed.

Lemma batch_loop_fail_prefix before rest b :
  Forall (fun P => (provider_run P query max_results).2 = None) before ->
  exists b',
    batch_loop fail (map (fetch_one query max_results) before ++ rest) b
    = batch_loop fail rest b'.
Proof.
  intros Hok. revert b. induction Hok as [|P before HP _ IH]; intros b; simpl.
  - by exists b.
  - unfold fetch_one at 1.
    destruct (provider_run P query max_results) as [ys [e|]]; [done|].
    apply IH.
Qed.

(** The providers fall apart at the first one that raises. *)
Lemma first_failure providers :
  (exists P e, P ∈ providers /\ raises query max_results P e) ->
  exists before A after eA,
    providers = before ++ A :: after
    /\ Forall (fun P => (provider_run P query max_results).2 = None) before
    /\ raises query max_results A eA.
Proof.
  induction providers as [|P providers IH]; intros (Q & e & HQ & He).
  { by apply not_elem_of_nil in HQ. }
  destruct ((provider_run P query max_results).2) as [eP|] eqn:HP.
  - exists [], P, providers, eP. by repeat split.
  - destruct IH as (before & A & after & eA & -> & Hok & HA).
    + apply elem_of_cons in HQ as [->|HQ]; [|by exists Q, e].
      unfold raises in He. congruence.
    + exists (P :: before), A, after, eA. repeat split; [|done].
      by constructor.
Qed.

(** C5. Batch mode with [on_error="fail"]: if the search of any provider
    raises, the call raises the exception of the first provider (in the
    order of the list) whose search raised; no warning is emitted and no
    SearchResult is returned, whatever the other providers yielded. *)
Theorem batch_fail_raises_first (providers : list Provider) (dedupe_ : bool) :
  (exists P e, P ∈ providers /\ raises query max_results P e) ->
  exists before A after eA,
    providers = before ++ A :: after
    /\ Forall (fun P => (provider_run P query max_results).2 = None) before
    /\ raises query max_results A eA
    /\ _search_batch query providers max_results fail dedupe_ = ([], inl eA).
Proof.
  intros (before & A & after & eA & -> & Hok & HA)%first_failure.
  exists before, A, after, eA. repeat split; try done.
  unfold _search_batch. rewrite map_app. simpl.
  destruct (batch_loop_fail_prefix before
              (fetch_one query max_results A
               :: map (fetch_one query max_results) after)
              {| all_papers := []; b_errors := ∅; totals := ∅; warned := [] |}
              Hok) as [b' ->].
  simpl. by rewrite (fetch_one_raises A eA HA).
Qed.

End Batch.

(** ** The OpenAlex translator *)

Module OpenAlexFacts.

Import OpenAlex.

(** [_collect_params] only appends to the two lists it is given. *)
Lemma collect_params_app query acc :
  _collect_params query acc
  = (acc.1 ++ (_collect_params query ([], [])).1,
     acc.2 ++ (_collect_params query ([], [])).2).
Proof.
  revert acc. induction query as [f v|l IHl r IHr|l IHl r IHr|o IHo|s e|mn mx];
    intros [st fl]; simpl.
  - repeat case_match; simpl; by rewrite ?app_nil_r.
  - rewrite (IHr (_collect_params l (st, fl))),
            (IHr (_collect_params l ([], []))), (IHl (st, fl)). simpl.
    by rewrite !app_assoc.
  - rewrite (IHr (_collect_params l (st, fl))),
            (IHr (_collect_params l ([], []))), (IHl (st, fl)). simpl.
    by rewrite !app_assoc.
  - by rewrite app_nil_r.
  - repeat case_match; simpl; by rewrite ?app_nil_r.
  - by rewrite !app_nil_r.
Qed.

(** A Not node leaves the search terms alone and adds the negations of
    the filter clauses of its operand. *)
Lemma collect_params_Not o acc :
  _collect_params (Not o) acc
  = (acc.1, acc.2 ++ map (fun f => "!" +:+ f) (_collect_params o ([], [])).2).
Proof. done. Qed.

(** A search-term leaf has no part in the filters, wherever it is. *)
Lemma search_term_no_filter c f v acc :
  is_search_field f = true ->
  (_collect_params (plug c (Field f v)) acc).2
  = (_collect_params (plug c no_clause) acc).2.
Proof.
  intros Hf. revert acc.
  induction c as [|c IH r|l c IH|c IH r|l c IH|c IH]; intros acc; simpl.
  - by rewrite Hf.
  - rewrite collect_params_app, (collect_params_app r (_collect_params _ acc)).
    simpl. by rewrite IH.
  - apply IH.
  - rewrite collect_params_app, (collect_params_app r (_collect_params _ acc)).
    simpl. by rewrite IH.
  - apply IH.
  - by rewrite IH.
Qed.

Lemma negated_search_term_dropped c f v acc :
  is_search_field f = true -> under_not c = true ->
  _collect_params (plug c (Field f v)) acc
  = _collect_params (plug c no_clause) acc.
Proof.
  intros Hf. revert acc.
  induction c as [|c IH r|l c IH|c IH r|l c IH|c IH]; intros acc Hc; simpl in *.
  - done.
  - by rewrite IH.
  - by apply IH.
  - by rewrite IH.
  - by apply IH.
  - by rewrite search_term_no_filter.
Qed.

End OpenAlexFacts.

(** C7. In the OpenAlex translator a search-term leaf (title, abstract,
    keyword, fulltext) under a Not node contributes nothing, neither to the
    search string nor to the filter string: the translation is that of the
    query with the leaf replaced by a node without any clause. A Not node
    itself leaves the search terms as they are and adds the negation of
    each filter clause of its operand. The translator is total: no query
    makes it raise. *)
Theorem openalex_negated_search_term_dropped (c : Ctx) (f v : string) :
  OpenAlex.is_search_field f = true -> under_not c = true ->
  OpenAlex._build_params (plug c (Field f v))
  = OpenAlex._build_params (plug c no_clause)
  /\ (forall o acc,
        OpenAlex._collect_params (Not o) acc
        = (acc.1, acc.2 ++ map (fun g => "!" +:+ g)
                               (OpenAlex._collect_params o ([], [])).2))
  /\ OpenAlex._build_params (Not (Field f v)) = ("", "").
Proof.
  intros Hf Hc. split; [|split].
  - unfold OpenAlex._build_params.
    by rewrite OpenAlexFacts.negated_search_term_dropped.
  - intros o acc. apply OpenAlexFacts.collect_params_Not.
  - unfold OpenAlex._build_params. simpl. by rewrite Hf.
Qed.

Lemma openalex_negated_search_term_dropped_witness :
  OpenAlex._build_params negated_query
  = ("BERT", "!raw_author_name.search:Google").
Proof.
  destruct (openalex_negated_search_term_dropped
              (CAndL (CNot (CAndR (Combinators.author "Google") Hole))
                     (Combinators.title "BERT"))
              "title" "deprecated") as [H _]; [reflexivity|reflexivity|].
  etransitivity; [exact H|]. vm_compute. reflexivity.
Defined.

(** ** Queries that collapse *)

(** C8 (as amended). When removing the locally handled filter kind leaves
    no query, the provider yields nothing and sends no request, whatever its
    API search would do: [_search_with_fulltext_filter] returns at once,
    logging its warning if the extracted fulltext term is non-empty (with an
    empty term it has already returned, silently, before the removal), and
    Semantic Scholar's [_search_api] returns at once when
    [remove_citation_range] gives none, as it does when what is left
    translates to an empty query string. *)
Theorem collapsed_query_sends_nothing :
  (forall _search_api index_search query max_results w,
     remove_fulltext query = None ->
     FulltextFallbackMixin._search_with_fulltext_filter
       _search_api index_search query max_results w
     = (if truthy_str (extract_fulltext_term query) then warned_world w else w,
        [], inr tt))
  /\ (forall self client query w,
        _client self = Some client ->
        remove_citation_range query = None ->
        SemanticScholar._search_api self query w = (w, [], inr tt))
  /\ (forall self client query rest w,
        _client self = Some client ->
        remove_citation_range query = Some rest ->
        (SemanticScholar._translate_query rest).1.1 = "" ->
        SemanticScholar._search_api self query w = (w, [], inr tt)).
Proof.
  split; [|split].
  - intros api idx query n w Hrm.
    unfold FulltextFallbackMixin._search_with_fulltext_filter.
    destruct (truthy_str (extract_fulltext_term query)); simpl; [|done].
    by rewrite Hrm.
  - intros self client query w Hc Hrm.
    unfold SemanticScholar._search_api. by rewrite Hc, Hrm.
  - intros self client query rest w Hc Hrm Hq.
    unfold SemanticScholar._search_api. rewrite Hc, Hrm.
    destruct (SemanticScholar._translate_query rest) as [[qs ys] ye].
    simpl in Hq. by subst qs.
Qed.

Lemma collapsed_query_sends_nothing_witness :
  FulltextFallbackMixin._search_with_fulltext_filter silent_api empty_index
    (Not (Combinators.fulltext "graph neural networks")) 10 world0
  = (warned_world world0, [], inr tt)
  /\ SemanticScholar._search_api
       {| _api_key := None; _client := Some echo_client |}
       (And (CitationRange (Some 10) None) (CitationRange None (Some 50))) world0
     = (world0, [], inr tt)
  /\ SemanticScholar._search_api
       {| _api_key := None; _client := Some echo_client |}
       (And (CitationRange (Some 10) None) (YearRange (Some 2020) None)) world0
     = (world0, [], inr tt).
Proof.
  destruct collapsed_query_sends_nothing as (Hmixin & Hcit & Hempty).
  split; [|split].
  - apply (Hmixin silent_api empty_index
             (Not (Combinators.fulltext "graph neural networks")) 10 world0).
    reflexivity.
  - apply (Hcit _ echo_client); reflexivity.
  - apply (Hempty _ echo_client _ (YearRange (Some 2020) None)); reflexivity.
Defined.

(** C8 as the specification states it fails on the warning: for a query
    whose only fulltext leaf has an empty value the removal leaves no query,
    yet nothing is logged. *)
Lemma empty_fulltext_term_logs_nothing :
  remove_fulltext (Combinators.fulltext "") = None
  /\ FulltextFallbackMixin._search_with_fulltext_filter silent_api empty_index
       (Combinators.fulltext "") 10 world0
     = (world0, [], inr tt)
  /\ log world0 = [].
Proof. repeat split. Qed.

(** ** Searching without an open client *)

(** A provider has no client when constructed, nor after [__aexit__]. *)
Lemma no_client_outside_context :
  (forall api_key env, _client (Provider___init__ api_key env) = None)
  /\ (forall self, _client (Provider___aexit__ self) = None).
Proof.
  split; [done|]. intros self. unfold Provider___aexit__.
  by destruct (_client self) eqn:Hc.
Qed.

(** C10. Outside the [async with] block a provider has no client: none
    when it is constructed, none once [__aexit__] has run. With no client
    the [search] of each adapter raises [RuntimeError] without having sent
    a request or yielded a paper, for every query and every
    [max_results]. *)
Theorem search_without_client_raises :
  (forall api_key env, _client (Provider___init__ api_key env) = None)
  /\ (forall self, _client (Provider___aexit__ self) = None)
  /\ (forall self, _client self = None ->
        (forall mailto query max_results w,
           OpenAlex.search mailto self query max_results w
           = (w, [], inl not_initialized))
        /\ (forall query max_results w,
              Scopus.search self query max_results w
              = (w, [], inl not_initialized))
        /\ (forall query w,
              SemanticScholar.search self query w
              = (w, [], inl not_initialized))).
Proof.
  split; [apply no_client_outside_context|].
  split; [apply no_client_outside_context|].
  intros self Hc. repeat split; intros.
  - unfold OpenAlex.search. by rewrite Hc.
  - unfold Scopus.search. by rewrite Hc.
  - unfold SemanticScholar.search. by rewrite Hc.
Qed.

Lemma search_without_client_raises_witness :
  OpenAlex.search None exited (Combinators.title "transformer") 10 world0
  = (world0, [], inl not_initialized)
  /\ Scopus.search exited (Combinators.title "transformer") 10 world0
     = (world0, [], inl not_initialized)
  /\ SemanticScholar.search exited (Combinators.title "transformer") world0
     = (world0, [], inl not_initialized).
Proof.
  destruct search_without_client_raises as (_ & Hexit & Hraise).
  destruct (Hraise exited) as (Ho & Hs & Hss).
  { apply Hexit. }
  split; [apply Ho | split; [apply Hs | apply Hss]].
Defined.

(** ** Semantic Scholar pagination *)

Module SemanticScholarFacts.

Import SemanticScholar.

Lemma last_page_spec (j : nat) data :
  last_page (100 * (Z.of_nat j + 1)) data = true <-> page_ends_search j data.
Proof.
  unfold last_page, page_ends_search, MAX_TOTAL_RESULTS, PAGE_SIZE.
  rewrite !orb_true_iff, !Z.geb_le, Z.ltb_lt. tauto.
Qed.

(** The Semantic Scholar parser never returns a paper: a loop over the
    parsed records yields nothing, and ends with the exception of the
    first record on which the parser raises. *)
Lemma yield_parsed_run records w :
  yield_parsed records w
  = (w, [], ending_of (first_error _parse_paper records)).
Proof.
  unfold yield_parsed. revert w.
  induction records as [|[|e|p] records IH]; intros w; simpl; [done|..];
    unfold GenM.bind; simpl; try done.
  by rewrite IH.
Qed.

Lemma stream_page_run cf data w :
  stream_page cf data w
  = (w, [], ending_of (first_error _parse_paper (body_records data))).
Proof.
  unfold stream_page. revert w.
  induction (body_records data) as [|[|e|p] records IH]; intros w; simpl;
    [done|..]; unfold GenM.bind; simpl; try done.
  by rewrite IH.
Qed.

Section Pages.

Variable self : ProviderState.
Variable client : Client.
Hypothesis Hclient : _client self = Some client.
Hypothesis Hok : always_ok client.

(** With a client that always succeeds, [_fetch_with_retry] sends the
    request once and returns the reply. *)
Lemma fetch_with_retry_ok {Y} req w :
  _fetch_with_retry (Y:=Y) self req w
  = ({| sent := sent w ++ [req]; log := log w |}, [],
     inr (Some (reply client (length (sent w)) req))).
Proof.
  unfold _fetch_with_retry. rewrite Hclient.
  change (seqZ 0 max_retries) with [0; 1; 2]. simpl.
  unfold attempt_body, GenM.bind, GenM.get, reply.
  destruct (Hok (length (sent w)) req) as (resp & -> & Hs).
  destruct (status_code resp =? 429) eqn:H429; [lia|].
  unfold raise_for_status.
  destruct (decide (200 <= status_code resp)) as [?|?]; [|lia].
  rewrite (proj2 (Z.leb_le _ _)), (proj2 (Z.ltb_lt _ _)) by lia.
  done.
Qed.

Variable mk : Z -> Request.
Variable w0 : World.

(** The page loop of the paged search under the stream pipeline: the
    pages are requested in turn up to the first on which the parser raises
    or which ends the search. *)
Lemma fetch_pages_loop_pages cf (fuel i : nat) (w : World) :
  (i + fuel = 10)%nat -> (i < 10)%nat ->
  sent w = sent w0 ++ map (page_req mk) (seq 0 i) ->
  exists k : nat,
    (i < k <= 10)%nat
    /\ fetch_pages_loop self mk (stream_page cf) fuel (100 * Z.of_nat i) w
       = ({| sent := sent w0 ++ map (page_req mk) (seq 0 k); log := log w |},
          [],
          ending_of (first_error _parse_paper
                       (body_records (page client mk w0 (k - 1)))))
    /\ (first_error _parse_paper (body_records (page client mk w0 (k - 1)))
        = None -> page_ends_search (k - 1) (page client mk w0 (k - 1)))
    /\ (forall j, (i <= j < k - 1)%nat ->
          first_error _parse_paper (body_records (page client mk w0 j)) = None
          /\ ~ page_ends_search j (page client mk w0 j)).
Proof.
  revert i w. induction fuel as [|fuel IH]; intros i w Hfuel Hi Hsent.
  { lia. }
  simpl. unfold MAX_TOTAL_RESULTS at 1.
  rewrite (proj2 (Z.ltb_lt _ _)) by lia.
  unfold GenM.bind at 1. rewrite fetch_with_retry_ok.
  assert (Hlen : length (sent w) = (length (sent w0) + i)%nat).
  { rewrite Hsent, length_app, length_map, length_seq. done. }
  rewrite Hlen. fold (page_req mk i). fold (page client mk w0 i).
  assert (Hnext : sent w ++ [page_req mk i]
                  = sent w0 ++ map (page_req mk) (seq 0 (S i))).
  { by rewrite Hsent, <- app_assoc, seq_S, map_app. }
  unfold GenM.bind. rewrite stream_page_run.
  destruct (first_error _parse_paper (body_records (page client mk w0 i)))
    as [e|] eqn:Herr.
  { exists (S i). replace (S i - 1)%nat with i by lia.
    rewrite Herr. cbn [ending_of sent log]. rewrite Hnext.
    split; [lia|]. split; [done|]. split; [done|]. intros j Hj. lia. }
  cbn [ending_of].
  replace (100 * Z.of_nat i + PAGE_SIZE) with (100 * (Z.of_nat i + 1))
    by (unfold PAGE_SIZE; lia).
  destruct (last_page (100 * (Z.of_nat i + 1)) (page client mk w0 i)) eqn:Hlast.
  - exists (S i). replace (S i - 1)%nat with i by lia.
    rewrite Herr. unfold GenM.ret. cbn [ending_of sent log app]. rewrite Hnext.
    split; [lia|]. split; [done|]. split.
    + intros _. by apply last_page_spec.
    + intros j Hj. lia.
  - assert (Hnot : ~ page_ends_search i (page client mk w0 i)).
    { rewrite <- last_page_spec. by rewrite Hlast. }
    assert (Hi' : (S i < 10)%nat).
    { unfold page_ends_search in Hnot. lia. }
    destruct (IH (S i) {| sent := sent w ++ [page_req mk i]; log := log w |})
      as (k & Hk & Hrun & Hend & Hbefore); [lia|done|done|].
    exists k. split; [lia|]. split; [|split; [done|]].
    + replace (100 * (Z.of_nat i + 1)) with (100 * Z.of_nat (S i)) by lia.
      rewrite Hrun. done.
    + intros j Hj. destruct (decide (j = i)) as [->|Hne]; [done|].
      apply Hbefore. lia.
Qed.

(** The author-papers loop asks for the pages in turn and stops after the
    first on which the parser raises, or that is empty or short, or at the
    cap; it has no test on a reported total. *)
Lemma author_pages_pages author_id (fuel i : nat) (w : World) :
  (i + fuel = 10)%nat -> (i < 10)%nat ->
  sent w = sent w0 ++ map (author_page_req self author_id) (seq 0 i) ->
  exists k : nat,
    (i < k <= 10)%nat
    /\ author_pages self author_id fuel (100 * Z.of_nat i) w
       = ({| sent := sent w0
                     ++ map (author_page_req self author_id) (seq 0 k);
             log := log w |},
          [],
          ending_of (first_error _parse_paper
                       (body_records
                          (reply client (length (sent w0) + (k - 1))
                             (author_page_req self author_id (k - 1))))))
    /\ (first_error _parse_paper
          (body_records (reply client (length (sent w0) + (k - 1))
                           (author_page_req self author_id (k - 1)))) = None ->
        author_page_ends (k - 1)
          (reply client (length (sent w0) + (k - 1))
             (author_page_req self author_id (k - 1))))
    /\ (forall j, (i <= j < k - 1)%nat ->
          first_error _parse_paper
            (body_records (reply client (length (sent w0) + j)
                             (author_page_req self author_id j))) = None
          /\ ~ author_page_ends j
                 (reply client (length (sent w0) + j)
                    (author_page_req self author_id j))).
Proof.
  revert i w. induction fuel as [|fuel IH]; intros i w Hfuel Hi Hsent.
  { lia. }
  assert (Hlen : length (sent w) = (length (sent w0) + i)%nat).
  { rewrite Hsent, length_app, length_map, length_seq. done. }
  assert (Hnext : sent w ++ [author_page_req self author_id i]
                  = sent w0 ++ map (author_page_req self author_id) (seq 0 (S i))).
  { by rewrite Hsent, <- app_assoc, seq_S, map_app. }
  cbn [author_pages]. unfold GenM.bind at 1.
  fold (author_page_req self author_id i). rewrite fetch_with_retry_ok.
  rewrite Hlen.
  set (data := reply client (length (sent w0) + i)
                 (author_page_req self author_id i)).
  assert (Hstop : forall res,
    res = ending_of (first_error _parse_paper (body_records data)) ->
    (first_error _parse_paper (body_records data) = None ->
     author_page_ends i data) ->
    exists k : nat,
      (i < k <= 10)%nat
      /\ ({| sent := sent w ++ [author_page_req self author_id i];
             log := log w |}, @nil Paper, res)
         = ({| sent := sent w0
                       ++ map (author_page_req self author_id) (seq 0 k);
               log := log w |},
            [],
            ending_of (first_error _parse_paper
                         (body_records
                            (reply client (length (sent w0) + (k - 1))
                               (author_page_req self author_id (k - 1))))))
      /\ (first_error _parse_paper
            (body_records (reply client (length (sent w0) + (k - 1))
                             (author_page_req self author_id (k - 1)))) = None ->
          author_page_ends (k - 1)
            (reply client (length (sent w0) + (k - 1))
               (author_page_req self author_id (k - 1))))
      /\ (forall j, (i <= j < k - 1)%nat ->
            first_error _parse_paper
              (body_records (reply client (length (sent w0) + j)
                               (author_page_req self author_id j))) = None
            /\ ~ author_page_ends j
                   (reply client (length (sent w0) + j)
                      (author_page_req self author_id j)))).
  { intros res -> Hends. exists (S i). replace (S i - 1)%nat with i by lia.
    fold data. rewrite Hnext.
    split; [lia|]. split; [done|]. split; [done|]. intros j Hj. lia. }
  cbv zeta. destruct (body_records data) as [|r0 rs] eqn:Hrec.
  { apply Hstop; [done|]. intros _. left. rewrite Hrec. simpl. lia. }
  rewrite <- Hrec. unfold GenM.bind. rewrite yield_parsed_run.
  destruct (first_error _parse_paper (body_records data)) as [e|] eqn:Herr.
  { apply Hstop; [by rewrite <- Hrec, Herr|].
    intros Hnone. by rewrite <- Hrec, Herr in Hnone. }
  cbn [ending_of].
  destruct (Z.of_nat (length (body_records data)) <? 100) eqn:Hshort.
  { unfold GenM.ret. cbn [app]. apply Hstop; [by rewrite <- Hrec, Herr|].
    intros _. left. by apply Z.ltb_lt. }
  destruct (100 * Z.of_nat i + 100 >=? MAX_TOTAL_RESULTS) eqn:Hcap.
  { unfold GenM.ret. cbn [app]. apply Hstop; [by rewrite <- Hrec, Herr|].
    intros _. right. unfold MAX_TOTAL_RESULTS in Hcap.
    rewrite Z.geb_leb in Hcap. apply Z.leb_le in Hcap. lia. }
  unfold MAX_TOTAL_RESULTS in Hcap. rewrite Z.geb_leb in Hcap.
  apply Z.leb_gt in Hcap. apply Z.ltb_ge in Hshort.
  replace (100 * Z.of_nat i + 100) with (100 * Z.of_nat (S i)) by lia.
  destruct (IH (S i) {| sent := sent w ++ [author_page_req self author_id i];
                        log := log w |})
    as (k & Hk & Hrun & Hend & Hbefore); [lia|lia|done|].
  rewrite Hrun. cbn [app log].
  exists k. split; [lia|]. split; [done|]. split; [done|].
  intros j Hj. destruct (decide (j = i)) as [->|Hne]; [|apply Hbefore; lia].
  fold data. split; [done|]. unfold author_page_ends. lia.
Qed.

End Pages.

End SemanticScholarFacts.

(** The bound on the iterations of the page loop is never met: more fuel
    changes nothing. *)
Lemma fetch_pages_loop_fuel {Y} self mk (consume : Response -> Gen Y unit)
    (fuel extra i : nat) w :
  (10 <= i + fuel)%nat ->
  SemanticScholar.fetch_pages_loop self mk consume (fuel + extra)
    (100 * Z.of_nat i) w
  = SemanticScholar.fetch_pages_loop self mk consume fuel (100 * Z.of_nat i) w.
Proof.
  revert i w. induction fuel as [|fuel IH]; intros i w Hi.
  - destruct extra; simpl; [done|].
    unfold SemanticScholar.MAX_TOTAL_RESULTS.
    by rewrite (proj2 (Z.ltb_ge _ _)) by lia.
  - simpl. destruct (_ <? _); [|done].
    unfold GenM.bind.
    destruct (SemanticScholar._fetch_with_retry self _ w)
      as [[w1 ys] [e|[data|]]]; try done.
    destruct (consume data w1) as [[w2 ys2] [e|[]]]; [done|].
    destruct (SemanticScholar.last_page _ data); [done|].
    replace (100 * Z.of_nat i + SemanticScholar.PAGE_SIZE)
      with (100 * Z.of_nat (S i)) by (unfold SemanticScholar.PAGE_SIZE; lia).
    rewrite IH by lia. done.
Qed.

(** Nor is the bound on the iterations of the author-papers loop. *)
Lemma author_pages_fuel self author_id (fuel extra i : nat) w :
  (i < 10)%nat -> (10 <= i + fuel)%nat ->
  SemanticScholar.author_pages self author_id (fuel + extra) (100 * Z.of_nat i) w
  = SemanticScholar.author_pages self author_id fuel (100 * Z.of_nat i) w.
Proof.
  revert i w. induction fuel as [|fuel IH]; intros i w Hi Hfuel; [lia|].
  simpl. unfold GenM.bind.
  destruct (SemanticScholar._fetch_with_retry self _ w)
    as [[w1 ys] [e|[resp|]]]; try done.
  destruct (body_records resp) as [|r rs]; [done|].
  destruct (SemanticScholar.yield_parsed (r :: rs) w1) as [[w2 ys2] [e|[]]];
    [done|].
  destruct (_ <? 100); [done|].
  destruct (100 * Z.of_nat i + 100 >=? SemanticScholar.MAX_TOTAL_RESULTS)
    eqn:Hcap; [done|].
  unfold SemanticScholar.MAX_TOTAL_RESULTS in Hcap.
  rewrite Z.geb_leb in Hcap. apply Z.leb_gt in Hcap.
  replace (100 * Z.of_nat i + 100) with (100 * Z.of_nat (S i)) by lia.
  rewrite IH by lia. done.
Qed.

(** The parameters of a page request that say which page it asks for. *)
Lemma page_request_params self query_str cf year_start year_end offset :
  req_url (SemanticScholar.page_request self query_str cf year_start
             year_end offset) = SemanticScholar.BASE_URL
  /\ param "limit" (SemanticScholar.page_request self query_str cf year_start
                      year_end offset) = ["100"]
  /\ param "offset" (SemanticScholar.page_request self query_str cf year_start
                       year_end offset) = [pretty offset].
Proof.
  unfold SemanticScholar.page_request, param. cbn [req_url req_params].
  split; [done|].
  destruct cf as [[[mn|] mx]|]; destruct (truthy_int year_start);
    destruct (truthy_int year_end); split; reflexivity.
Qed.

(** C6 (as amended). A Semantic Scholar search that reaches the paged API
    (no fulltext leaf, not a lone author field, a query string left once the
    citation ranges are removed), all of its requests succeeding, requests
    pages of 100 at the offsets 0, 100, 200, ... in turn, at least one and
    at most ten. It stops at the first page one of whose records makes the
    record parser raise, and then ends with that exception; otherwise
    after the first page that has fewer than 100 records, or after which
    the next offset has reached the total the API reports or the cap of
    1000. [search] has no [max_results]: no stopping rule depends on
    one. *)
Theorem semantic_scholar_search_pages
    (self : ProviderState) (client : Client) (query rest : Query) (w : World) :
  _client self = Some client -> always_ok client ->
  has_fulltext query = false ->
  truthy_str (SemanticScholar._extract_author_only query) = false ->
  remove_citation_range query = Some rest ->
  nonempty (SemanticScholar._translate_query rest).1.1 = true ->
  exists (k : nat) (reqs : list Request),
    (1 <= k <= 10)%nat /\ length reqs = k
    /\ sent (SemanticScholar.search self query w).1.1 = sent w ++ reqs
    /\ (forall j r, reqs !! j = Some r ->
          req_url r = SemanticScholar.BASE_URL
          /\ param "limit" r = ["100"]
          /\ param "offset" r = [pretty (100 * Z.of_nat j)])
    /\ (forall j r, reqs !! j = Some r -> (j < k - 1)%nat ->
          first_error SemanticScholar._parse_paper
            (body_records (reply client (length (sent w) + j) r)) = None
          /\ ~ page_ends_search j (reply client (length (sent w) + j) r))
    /\ (forall r, reqs !! (k - 1)%nat = Some r ->
          (SemanticScholar.search self query w).2
          = ending_of (first_error SemanticScholar._parse_paper
                         (body_records
                            (reply client (length (sent w) + (k - 1)) r)))
          /\ (first_error SemanticScholar._parse_paper
                (body_records (reply client (length (sent w) + (k - 1)) r))
              = None ->
              page_ends_search (k - 1)
                (reply client (length (sent w) + (k - 1)) r))).
Proof.
  intros Hc Hok Hft Hauthor Hrm Hqs.
  set (mk := search_page_request self query rest).
  destruct (SemanticScholarFacts.fetch_pages_loop_pages self client Hc Hok
              mk w (extract_citation_range query) 10 0 w)
    as (k & Hk & Hrun & Hend & Hbefore); [done|lia|by rewrite app_nil_r|].
  assert (Hsearch : SemanticScholar.search self query w
            = ({| sent := sent w ++ map (page_req mk) (seq 0 k);
                  log := log w |}, [],
               ending_of (first_error SemanticScholar._parse_paper
                            (body_records (page client mk w (k - 1)))))).
  { unfold SemanticScholar.search. rewrite Hc, Hft, Hauthor.
    unfold GenM.flat_map, SemanticScholar._search_api. rewrite Hc, Hrm.
    unfold mk, search_page_request in *.
    destruct (SemanticScholar._translate_query rest) as [[qs ys] ye].
    cbn [fst snd] in Hqs, Hrun |- *. rewrite Hqs. cbn [negb].
    unfold SemanticScholar.fetch_pages.
    change SemanticScholar.page_fuel with 10%nat.
    change (100 * Z.of_nat 0) with 0 in Hrun. rewrite Hrun. done. }
  assert (Hlookup : forall j r, map (page_req mk) (seq 0 k) !! j = Some r ->
                      (j < k)%nat /\ r = page_req mk j).
  { intros j r Hj. rewrite list_lookup_fmap in Hj.
    destruct (seq 0 k !! j) as [j'|] eqn:Hseq; [|done].
    apply lookup_seq in Hseq as [-> ?]. injection Hj as <-. done. }
  exists k, (map (page_req mk) (seq 0 k)).
  rewrite Hsearch. cbn [fst snd sent].
  split; [lia|]. split; [by rewrite length_map, length_seq|].
  split; [done|]. split; [|split].
  - intros j r [_ ->]%Hlookup. unfold page_req, mk, search_page_request.
    apply page_request_params.
  - intros j r [_ ->]%Hlookup Hj. apply Hbefore. lia.
  - intros r [_ ->]%Hlookup. done.
Qed.

Lemma full_page_client_ok total : always_ok (full_page_client total).
Proof. intros n req. eexists. split; [reflexivity|]. simpl. lia. Qed.

Lemma semantic_scholar_search_pages_witness :
  exists (k : nat) (reqs : list Request),
    (1 <= k <= 10)%nat /\ length reqs = k
    /\ sent (SemanticScholar.search (entered (full_page_client 250))
               (And (Combinators.title "transformer")
                    (CitationRange (Some 5) None)) world0).1.1
       = sent world0 ++ reqs
    /\ (forall j r, reqs !! j = Some r ->
          req_url r = SemanticScholar.BASE_URL
          /\ param "limit" r = ["100"]
          /\ param "offset" r = [pretty (100 * Z.of_nat j)])
    /\ (forall j r, reqs !! j = Some r -> (j < k - 1)%nat ->
          first_error SemanticScholar._parse_paper
            (body_records
               (reply (full_page_client 250)
                  (length (sent world0) + j) r)) = None
          /\ ~ page_ends_search j
                 (reply (full_page_client 250)
                    (length (sent world0) + j) r))
    /\ (forall r, reqs !! (k - 1)%nat = Some r ->
          (SemanticScholar.search (entered (full_page_client 250))
             (And (Combinators.title "transformer")
                  (CitationRange (Some 5) None)) world0).2
          = ending_of (first_error SemanticScholar._parse_paper
                         (body_records
                            (reply (full_page_client 250)
                               (length (sent world0) + (k - 1)) r)))
          /\ (first_error SemanticScholar._parse_paper
                (body_records
                   (reply (full_page_client 250)
                      (length (sent world0) + (k - 1)) r)) = None ->
              page_ends_search (k - 1)
                (reply (full_page_client 250)
                   (length (sent world0) + (k - 1)) r))).
Proof.
  apply (semantic_scholar_search_pages (entered (full_page_client 250))
           (full_page_client 250)
           (And (Combinators.title "transformer") (CitationRange (Some 5) None))
           (Combinators.title "transformer") world0); try reflexivity.
  exact (full_page_client_ok 250).
Defined.

(** C6 as the specification states it fails: the search stops after a
    first, full page when the API reports 100 results in all, although the
    page is not short, the cap is not reached, and a caller asking for
    1000 results is not satisfied. *)
Lemma search_stops_at_reported_total :
  length (sent (SemanticScholar.search (entered (full_page_client 100))
                  (Combinators.keyword "transformer") world0).1.1) = 1%nat
  /\ (SemanticScholar.search (entered (full_page_client 100))
        (Combinators.keyword "transformer") world0).2 = inr tt
  /\ length (body_records (full_page 100)) = 100%nat
  /\ claimed_last_page 1000 100 (full_page 100) = false.
Proof. vm_compute. repeat split. Qed.

(** ** Streaming mode *)

Lemma sum_list_with_insert {A} (f : A -> nat) (l : list A) i x y :
  l !! i = Some x ->
  (sum_list_with f (<[i := y]> l) + f x = sum_list_with f l + f y)%nat.
Proof.
  revert i. induction l as [|a l IH]; intros [|i] Hi; simplify_eq/=; [lia|].
  specialize (IH i Hi). lia.
Qed.

Lemma Interleaves_length {A} (ls : list (list A)) l :
  Interleaves ls l -> length l = sum_list_with length ls.
Proof.
  induction 1 as [n|ls l i xs x _ IH Hi].
  - induction n; simpl; auto.
  - pose proof (sum_list_with_insert length ls i xs (xs ++ [x]) Hi) as Hs.
    rewrite !length_app in *. simpl in *. lia.
Qed.

Lemma concat_insert_snoc {A} (ls : list (list A)) i xs x :
  ls !! i = Some xs -> concat (<[i := xs ++ [x]]> ls) ≡ₚ concat ls ++ [x].
Proof.
  revert i. induction ls as [|l ls IH]; intros [|i] Hi; simplify_eq/=.
  - rewrite <- !app_assoc. apply Permutation_app_head, Permutation_app_comm.
  - rewrite (IH i Hi). by rewrite app_assoc.
Qed.

(** An interleaving has the elements of the lists, as often as they. *)
Lemma Interleaves_perm {A} (ls : list (list A)) l :
  Interleaves ls l -> l ≡ₚ concat ls.
Proof.
  induction 1 as [n|ls l i xs x _ IH Hi].
  - induction n; simpl; auto.
  - rewrite (concat_insert_snoc ls i xs x Hi). by rewrite IH.
Qed.

Module StreamFacts.

Import Search StreamInv.

Lemma live_pos ts i t :
  ts !! i = Some t -> t_done t = false -> (0 < live_count ts)%nat.
Proof.
  intros Hi Hd. revert i Hi. unfold live_count.
  induction ts as [|a ts IH]; intros [|i] Hi; simplify_eq/=.
  - unfold live. rewrite Hd. lia.
  - specialize (IH i Hi). lia.
Qed.

Lemma live_zero ts i t :
  live_count ts = 0%nat -> ts !! i = Some t -> t_done t = true.
Proof.
  intros Hz Hi. destruct (t_done t) eqn:Hd; [done|].
  pose proof (live_pos ts i t Hi Hd). lia.
Qed.

Lemma live_exists ts :
  (0 < live_count ts)%nat -> exists i t, ts !! i = Some t /\ t_done t = false.
Proof.
  unfold live_count. induction ts as [|a ts IH]; simpl; [lia|].
  destruct (t_done a) eqn:Hd.
  - unfold live at 1. rewrite Hd. simpl. intros (i & t & ? & ?)%IH.
    by exists (S i), t.
  - intros _. by exists 0%nat, a.
Qed.

Lemma stream_inv_task_step T0 on_error i s s' :
  stream_inv T0 s -> task_step on_error i s = Some s' -> stream_inv T0 s'.
Proof.
  intros (pushed & qs & Hlp & Hlt & Htasks & Hactive & Hil & Hq) Hstep.
  unfold task_step in Hstep.
  destruct (tasks s !! i) as [t|] eqn:Hi; [|done].
  destruct (t_done t) eqn:Hdone; [done|].
  destruct (Htasks i t Hi) as (pu & Hpu & HT0 & Herr & _).
  pose proof (live_pos _ _ _ Hi Hdone) as Hlive.
  destruct Hq as [(_ & Hqueue & Hcons)|[(? & _)|(? & _)]]; [|lia..].
  destruct (t_pending t) as [|paper rest] eqn:Hpending; simplify_eq/=.
  - (* the search is over: [finally] *)
    rewrite Herr in *.
    set (t' := {| t_name := t_name t; t_pending := []; t_error := None;
                  t_done := true |}).
    assert (Hcount : (live_count (<[i := t']> (tasks s)) + 1
                      = live_count (tasks s))%nat).
    { pose proof (sum_list_with_insert live (tasks s) i t t' Hi) as Hs.
      assert (live t = 1%nat) by (unfold live; by rewrite Hdone).
      assert (live t' = 0%nat) by done.
      unfold live_count. lia. }
    exists pushed, qs. simpl. rewrite length_insert.
    split; [done|]. split; [done|]. split; [|split; [lia|split; [done|]]].
    + intros j tj Hj. destruct (decide (i = j)) as [<-|Hne].
      * rewrite list_lookup_insert_eq in Hj by (by eapply lookup_lt_Some).
        simplify_eq. exists pu. by rewrite app_nil_r in *.
      * rewrite list_lookup_insert_ne in Hj by done. by apply Htasks.
    + destruct (active_tasks s - 1 =? 0) eqn:Hz.
      * right. left. split; [lia|]. by rewrite Hqueue.
      * left. split; [lia|]. by rewrite Hqueue.
  - (* the next paper *)
    set (t' := {| t_name := t_name t; t_pending := rest; t_error := t_error t;
                  t_done := false |}).
    assert (Hcount : live_count (<[i := t']> (tasks s)) = live_count (tasks s)).
    { pose proof (sum_list_with_insert live (tasks s) i t t' Hi) as Hs.
      assert (live t = 1%nat) by (unfold live; by rewrite Hdone).
      assert (live t' = 1%nat) by done.
      unfold live_count. lia. }
    exists (<[i := pu ++ [paper]]> pushed), (qs ++ [paper]). simpl.
    rewrite !length_insert, Hcount.
    split; [done|]. split; [done|]. split; [|split; [done|split]].
    + intros j tj Hj. destruct (decide (i = j)) as [<-|Hne].
      * rewrite list_lookup_insert_eq in Hj by (by eapply lookup_lt_Some).
        simplify_eq. exists (pu ++ [paper]).
        rewrite list_lookup_insert_eq by (by eapply lookup_lt_Some).
        simpl. by rewrite <- app_assoc.
      * rewrite list_lookup_insert_ne in Hj by done.
        rewrite list_lookup_insert_ne by done. by apply Htasks.
    + rewrite app_assoc. by apply Interleaves_snoc.
    + left. split; [lia|]. by rewrite Hqueue, map_app.
Qed.

Lemma stream_inv_consumer_step T0 s s' :
  stream_inv T0 s -> consumer_step s = Some s' -> stream_inv T0 s'.
Proof.
  intros (pushed & qs & Hlp & Hlt & Htasks & Hactive & Hil & Hq) Hstep.
  unfold consumer_step in Hstep.
  destruct Hq as [(Hlive & Hqueue & Hcons)|[(Hlive & Hqueue & Hcons)
                                           |(_ & _ & _ & Hcons)]];
    rewrite Hcons, ?Hqueue in Hstep; [| |done].
  - destruct qs as [|p qs]; simplify_eq/=.
    exists pushed, qs. simpl. repeat (split; [done|]).
    split; [by rewrite <- app_assoc|]. by left.
  - destruct qs as [|p qs]; simplify_eq/=.
    + exists pushed, []. simpl. repeat (split; [done|]). right. right. done.
    + exists pushed, qs. simpl. repeat (split; [done|]).
      split; [by rewrite <- app_assoc|]. right. by left.
Qed.

Lemma stream_inv_run T0 on_error schedule s s' :
  stream_inv T0 s -> run_schedule on_error schedule s = Some s' ->
  stream_inv T0 s'.
Proof.
  revert s. induction schedule as [|a schedule IH]; intros s Hinv Hrun;
    simpl in Hrun.
  - by simplify_eq.
  - destruct (step on_error a s) as [s1|] eqn:Hstep; [|done].
    apply (IH s1); [|done]. destruct a as [i|]; simpl in Hstep.
    + by eapply stream_inv_task_step.
    + by eapply stream_inv_consumer_step.
Qed.

End StreamFacts.

Module StreamRuns.

Import Search StreamInv StreamFacts.

(** Every step uses up the measure: no schedule runs forever. *)
Lemma step_decreases on_error a s s' :
  step on_error a s = Some s' -> (steps_left s' < steps_left s)%nat.
Proof.
  destruct a as [i|]; simpl.
  - unfold task_step. destruct (tasks s !! i) as [t|] eqn:Hi; [|done].
    destruct (t_done t) eqn:Hdone; [done|].
    destruct (t_pending t) as [|paper rest] eqn:Hpending; intros [= <-];
      unfold steps_left; simpl.
    + match goal with |- context [<[i := ?u]> (tasks s)] => set (t' := u) end.
      pose proof (sum_list_with_insert task_steps (tasks s) i t t' Hi) as Hs.
      assert (task_steps t = 1%nat)
        by (unfold task_steps; by rewrite Hdone, Hpending).
      assert (task_steps t' = 0%nat) by done.
      match goal with
      | |- context [length (if ?c then ?a else ?b)] =>
          assert (length (if c then a else b) <= length (queue s) + 2)%nat
      end.
      { repeat case_match; rewrite ?length_app; simpl; lia. }
      lia.
    + match goal with |- context [<[i := ?u]> (tasks s)] => set (t' := u) end.
      pose proof (sum_list_with_insert task_steps (tasks s) i t t' Hi) as Hs.
      assert (task_steps t = S (S (length rest)))
        by (unfold task_steps; by rewrite Hdone, Hpending).
      assert (task_steps t' = S (length rest)) by done.
      rewrite length_app. simpl. lia.
  - unfold consumer_step. destruct (consumer s); [|done..].
    destruct (queue s) as [|item rest] eqn:Hq; intros [= <-].
    unfold steps_left. simpl. rewrite Hq. simpl. lia.
Qed.

Lemma stream_inv_consumer T0 s :
  stream_inv T0 s -> consumer s = Running \/ consumer s = Ended.
Proof.
  intros (pushed & qs & _ & _ & _ & _ & _ & Hq).
  destruct Hq as [(_ & _ & ?)|[(_ & _ & ?)|(_ & _ & _ & ?)]]; auto.
Qed.

(** No deadlock: while the caller is still reading, some task can run or
    the caller can take an item. *)
Lemma stream_inv_progress T0 on_error s :
  stream_inv T0 s -> consumer s = Running ->
  exists a s', step on_error a s = Some s'.
Proof.
  intros (pushed & qs & _ & _ & _ & _ & _ & Hq) Hrun.
  destruct Hq as [(Hlive & _)|[(_ & Hqueue & _)|(_ & _ & _ & ?)]];
    [| |congruence].
  - apply live_exists in Hlive as (i & t & Hi & Hdone).
    exists (TaskStep i). simpl. unfold task_step. rewrite Hi, Hdone.
    destruct (t_pending t); eauto.
  - exists ConsumerStep. simpl. unfold consumer_step. rewrite Hrun, Hqueue.
    destruct qs; simpl; eauto.
Qed.

(** The stream can always be run to its end. *)
Lemma stream_inv_finishes T0 on_error s :
  stream_inv T0 s ->
  exists schedule s',
    run_schedule on_error schedule s = Some s' /\ consumer s' = Ended.
Proof.
  remember (steps_left s) as m eqn:Hm. revert s Hm.
  induction (lt_wf m) as [m _ IH]; intros s -> Hinv.
  destruct (stream_inv_consumer T0 s Hinv) as [Hrun|Hend].
  - destruct (stream_inv_progress T0 on_error s Hinv Hrun) as (a & s1 & Hstep).
    destruct (IH (steps_left s1) (step_decreases _ _ _ _ Hstep) s1 eq_refl)
      as (schedule & s' & Hsched & Hs').
    { destruct a; simpl in Hstep.
      - by eapply stream_inv_task_step.
      - by eapply stream_inv_consumer_step. }
    exists (a :: schedule), s'. simpl. by rewrite Hstep.
  - exists [], s. done.
Qed.

(** When the caller has seen the end of the stream, it has received an
    interleaving of all the papers, the queue is empty, and every task
    has finished. *)
Lemma stream_inv_ended T0 s :
  stream_inv T0 s -> consumer s = Ended ->
  Interleaves T0 (received s) /\ queue s = []
  /\ Forall (fun t => t_done t = true) (tasks s).
Proof.
  intros (pushed & qs & Hlp & Hlt & Htasks & _ & Hil & Hq) Hend.
  destruct Hq as [(_ & _ & ?)|[(_ & _ & ?)|(Hlive & Hqueue & -> & _)]];
    [congruence..|].
  rewrite app_nil_r in Hil.
  assert (pushed = T0) as <-.
  { apply list_eq. intros i.
    destruct (tasks s !! i) as [t|] eqn:Hi.
    - destruct (Htasks i t Hi) as (pu & -> & -> & _ & Hdone).
      rewrite (Hdone (live_zero _ _ _ Hlive Hi)). by rewrite app_nil_r.
    - apply lookup_ge_None in Hi.
      rewrite !(proj2 (lookup_ge_None _ _)) by lia. done. }
  repeat split; [done..|].
  apply Forall_lookup. intros i t Hi. by eapply live_zero.
Qed.

(** The end-of-stream mark is on the queue only once every task has
    finished. *)
Lemma stream_inv_sentinel T0 s :
  stream_inv T0 s -> QNone ∈ queue s ->
  Forall (fun t => t_done t = true) (tasks s).
Proof.
  intros (pushed & qs & _ & _ & _ & _ & _ & Hq) Hin.
  destruct Hq as [(_ & Hqueue & _)|[(Hlive & _)|(_ & Hqueue & _)]].
  - rewrite Hqueue in Hin. apply list_elem_of_fmap in Hin as (p & ? & _). done.
  - apply Forall_lookup. intros i t Hi. by eapply live_zero.
  - rewrite Hqueue in Hin. by apply not_elem_of_nil in Hin.
Qed.

(** The invariant holds when the stream starts, if no provider fails and
    there is a provider at all. *)
Lemma stream_inv_init query providers max_results :
  providers <> [] ->
  Forall (fun P => (provider_run P query max_results).2 = None) providers ->
  stream_inv (map (fun P => (provider_run P query max_results).1) providers)
             (stream_init query providers max_results).
Proof.
  intros Hne Hok.
  exists (replicate (length providers) []), []. simpl.
  rewrite length_replicate, !length_map.
  split; [done|]. split; [done|].
  assert (Hlive : live_count (map (start_task query max_results) providers)
                  = length providers).
  { unfold live_count. clear. induction providers as [|P ps IH]; [done|].
    simpl. rewrite IH. unfold start_task.
    by destruct (provider_run P query max_results). }
  split; [|split; [by rewrite Hlive|split; [constructor|]]].
  - intros i t Hi. rewrite list_lookup_fmap in Hi.
    destruct (providers !! i) as [P|] eqn:HP; simplify_eq/=.
    exists []. rewrite lookup_replicate_2 by (by eapply lookup_lt_Some).
    rewrite list_lookup_fmap, HP. simpl.
    rewrite Forall_lookup in Hok. specialize (Hok i P HP).
    unfold start_task. destruct (provider_run P query max_results) as [ys e].
    simpl in *. by subst e.
  - left. rewrite Hlive. destruct providers; [done|]. simpl. split; [lia|done].
Qed.

End StreamRuns.

(** C9. Streaming over two providers that yield 3 and 2 papers and do not
    fail, under any schedule of the event loop: when the caller sees the
    end of the stream it has received exactly 5 papers, an interleaving of
    the papers of the two providers, and nothing is left on the queue; the
    caller never sees an exception; the end-of-stream mark is on the queue
    only once every provider task has finished; the stream can always be
    run to its end, every step brings it closer to it, and it stops only
    there. *)
Theorem stream_two_providers (query : Query) (max_results : Z)
    (on_error : Search.OnError) (A B : Search.Provider)
    (psA psB : list Paper) (schedule : list Search.Action)
    (s : Search.StreamState) :
  Search.provider_run A query max_results = (psA, None) ->
  Search.provider_run B query max_results = (psB, None) ->
  length psA = 3%nat -> length psB = 2%nat ->
  Search.run_schedule on_error schedule
    (Search.stream_init query [A; B] max_results) = Some s ->
  (Search.consumer s = Search.Ended ->
     Interleaves [psA; psB] (Search.received s)
     /\ Search.received s ≡ₚ psA ++ psB
     /\ length (Search.received s) = 5%nat
     /\ Search.queue s = []
     /\ Forall (fun t => Search.t_done t = true) (Search.tasks s))
  /\ (forall e, Search.consumer s <> Search.Raised e)
  /\ (Search.QNone ∈ Search.queue s ->
      Forall (fun t => Search.t_done t = true) (Search.tasks s))
  /\ (exists schedule' s',
        Search.run_schedule on_error schedule' s = Some s'
        /\ Search.consumer s' = Search.Ended)
  /\ (forall a s', Search.step on_error a s = Some s' ->
        (StreamInv.steps_left s' < StreamInv.steps_left s)%nat)
  /\ ((forall a, Search.step on_error a s = None) ->
      Search.consumer s = Search.Ended).
Proof.
  intros HA HB HlA HlB Hrun.
  assert (Hinv : StreamInv.stream_inv [psA; psB] s).
  { eapply StreamFacts.stream_inv_run; [|exact Hrun].
    pose proof (StreamRuns.stream_inv_init query [A; B] max_results) as Hinit.
    simpl in Hinit. rewrite HA, HB in Hinit. apply Hinit; [done|].
    apply Forall_cons. split; [by rewrite HA|].
    apply Forall_cons. split; [by rewrite HB|]. apply Forall_nil_2. }
  split; [|split; [|split; [|split; [|split]]]].
  - intros Hend.
    destruct (StreamRuns.stream_inv_ended _ _ Hinv Hend) as (Hil & Hq & Hdone).
    split; [done|]. split; [|split; [|done]].
    + rewrite (Interleaves_perm _ _ Hil). simpl. by rewrite app_nil_r.
    + rewrite (Interleaves_length _ _ Hil). simpl. lia.
  - intros e He.
    destruct (StreamRuns.stream_inv_consumer _ _ Hinv); congruence.
  - by apply StreamRuns.stream_inv_sentinel with [psA; psB].
  - by apply StreamRuns.stream_inv_finishes with [psA; psB].
  - intros a s'. apply StreamRuns.step_decreases.
  - intros Hstuck.
    destruct (StreamRuns.stream_inv_consumer _ _ Hinv) as [Hr|]; [|done].
    destruct (StreamRuns.stream_inv_progress _ on_error _ Hinv Hr)
      as (a & s' & Hstep).
    by rewrite Hstuck in Hstep.
Qed.

Lemma stream_two_providers_witness :
  exists s,
    Search.run_schedule Search.warn sample_schedule
      (Search.stream_init (Combinators.title "attention")
         [provider_of_three; provider_of_two] 10) = Some s
    /\ Search.consumer s = Search.Ended
    /\ length (Search.received s) = 5%nat.
Proof.
  destruct (Search.run_schedule Search.warn sample_schedule
              (Search.stream_init (Combinators.title "attention")
                 [provider_of_three; provider_of_two] 10))
    as [s|] eqn:Hrun; [|vm_compute in Hrun; discriminate].
  exists s. split; [reflexivity|].
  assert (Hend : Search.consumer s = Search.Ended).
  { vm_compute in Hrun. injection Hrun as <-. reflexivity. }
  split; [exact Hend|].
  destruct (stream_two_providers (Combinators.title "attention") 10 Search.warn
              provider_of_three provider_of_two three_papers two_papers
              sample_schedule s) as (Hfinal & _);
    [vm_compute; reflexivity | vm_compute; reflexivity
    | reflexivity | reflexivity | exact Hrun |].
  apply (Hfinal Hend).
Defined.

(** ** Sample runs of the batch mode *)

Lemma batch_warn_records_failure_witness :
  exists result,
    Search._search_batch (Combinators.title "attention")
      [scopus_without_key; provider_of_two] 10 Search.warn true
    = (["Provider scopus failed: Scopus requires an API key. Set SCOPUS_API_KEY or pass api_key="],
       inr result)
    /\ errors result = {[ "scopus" := missing_key ]}
    /\ papers result = two_papers
    /\ total_by_provider result = {[ "openalex" := 2 ]}.
Proof.
  destruct (batch_warn_records_failure (Combinators.title "attention") 10
              scopus_without_key provider_of_two true missing_key two_papers)
    as (result & Hrun & Herr & Hpapers & _ & Htotal);
    [vm_compute; reflexivity | vm_compute; reflexivity |].
  exists result. split; [exact Hrun|]. split; [exact Herr|].
  split; [|exact Htotal]. rewrite Hpapers. vm_compute. reflexivity.
Defined.

Lemma batch_fail_raises_first_witness :
  exists e,
    Search._search_batch (Combinators.title "attention")
      [provider_of_three; scopus_without_key; provider_of_two] 10
      Search.fail true
    = ([], inl e).
Proof.
  destruct (batch_fail_raises_first (Combinators.title "attention") 10
              [provider_of_three; scopus_without_key; provider_of_two] true)
    as (before & A & after & eA & _ & _ & _ & Hrun).
  - exists scopus_without_key, missing_key. split.
    + apply elem_of_cons. right. apply elem_of_cons. by left.
    + vm_compute. reflexivity.
  - exists eA. exact Hrun.
Defined.

(** * Further properties of the code *)

(** ** [SearchResult.dedupe] *)

(** What the loop of [dedupe] computes from any state [(seen, unique)]:
    the keys seen grow by those of the papers read, and the papers kept
    are a subsequence of the papers read, with keys that are new and
    pairwise distinct, one for every key that came up. *)
Lemma dedupe_fold_spec ps seen unique :
  exists kept,
    foldl dedupe_step (seen, unique) ps
    = (seen ∪ list_to_set (map dedupe_key ps), unique ++ kept)
    /\ kept `sublist_of` ps
    /\ NoDup (map dedupe_key kept)
    /\ (forall p, p ∈ kept -> dedupe_key p ∉ seen)
    /\ (forall p, p ∈ ps ->
          dedupe_key p ∈ seen \/ dedupe_key p ∈ map dedupe_key kept).
Proof.
  revert seen unique. induction ps as [|p ps IH]; intros seen unique.
  { exists []. simpl. rewrite app_nil_r, union_empty_r_L.
    repeat split; [constructor|constructor|by intros ? ?%not_elem_of_nil..]. }
  simpl. unfold dedupe_step at 2. simpl.
  destruct (decide (dedupe_key p ∈ seen)) as [Hin|Hnotin].
  - destruct (IH seen unique) as (kept & -> & Hsub & Hnd & Hnew & Hall).
    exists kept. split; [f_equal; set_solver|].
    split; [by apply sublist_cons|]. split; [done|]. split; [done|].
    intros q [->|Hq]%elem_of_cons; [by left|by apply Hall].
  - destruct (IH ({[dedupe_key p]} ∪ seen) (unique ++ [p]))
      as (kept & -> & Hsub & Hnd & Hnew & Hall).
    exists (p :: kept). split; [|split; [|split; [|split]]].
    + rewrite <- app_assoc. f_equal. set_solver.
    + by apply sublist_skip.
    + simpl. apply NoDup_cons. split; [|done].
      intros (q & Hk & Hq)%list_elem_of_fmap. apply (Hnew q Hq).
      rewrite <- Hk. set_solver.
    + intros q [->|Hq]%elem_of_cons; [done|].
      specialize (Hnew q Hq). set_solver.
    + intros q [->|Hq]%elem_of_cons; [right; simpl; by left|].
      destruct (Hall q Hq) as [[Heq%elem_of_singleton|?]%elem_of_union|?].
      * right. simpl. rewrite Heq. by left.
      * by left.
      * right. simpl. by right.
Qed.

(** On papers whose keys are new and pairwise distinct the loop keeps
    everything. *)
Lemma dedupe_fold_distinct ps seen unique :
  NoDup (map dedupe_key ps) ->
  (forall p, p ∈ ps -> dedupe_key p ∉ seen) ->
  (foldl dedupe_step (seen, unique) ps).2 = unique ++ ps.
Proof.
  revert seen unique. induction ps as [|p ps IH]; intros seen unique Hnd Hnew.
  { simpl. by rewrite app_nil_r. }
  simpl in *. apply NoDup_cons in Hnd as [Hp Hnd].
  unfold dedupe_step at 2. simpl.
  destruct (decide (dedupe_key p ∈ seen)) as [Hin|_].
  { destruct (Hnew p); [by left|done]. }
  rewrite IH; [by rewrite <- app_assoc|done|].
  intros q Hq [Heq%elem_of_singleton|Hs]%elem_of_union.
  - apply Hp. rewrite <- Heq. by apply list_elem_of_fmap_2.
  - apply (Hnew q); [by right|done].
Qed.

(** X1. The papers [dedupe] keeps are a subsequence of the papers given
    (their order is kept), no two of them have the same key, and every
    paper given has the key of one that is kept. *)
Theorem dedupe_keeps_one_per_key (r : SearchResult) :
  papers (dedupe r) `sublist_of` papers r
  /\ NoDup (map dedupe_key (papers (dedupe r)))
  /\ (forall p, p ∈ papers r ->
        exists q, q ∈ papers (dedupe r) /\ dedupe_key q = dedupe_key p).
Proof.
  simpl. unfold dedupe_loop.
  destruct (dedupe_fold_spec (papers r) ∅ [])
    as (kept & -> & Hsub & Hnd & _ & Hall). simpl.
  split; [done|]. split; [done|]. intros p Hp.
  destruct (Hall p Hp) as [?%not_elem_of_empty|Hk]; [done|].
  apply list_elem_of_fmap in Hk as (q & Hk & Hq). by exists q.
Qed.

(** X2. Deduplicating twice is deduplicating once. *)
Theorem dedupe_idempotent (r : SearchResult) : dedupe (dedupe r) = dedupe r.
Proof.
  unfold dedupe at 1 3. f_equal. simpl. unfold dedupe_loop.
  destruct (dedupe_fold_spec (papers r) ∅ [])
    as (kept & Hrun & _ & Hnd & _ & _).
  rewrite Hrun. simpl.
  rewrite dedupe_fold_distinct; [done|done|].
  by intros p _ ?%not_elem_of_empty.
Qed.

(** ** [_search_batch] without a raise *)

Lemma dict_of_snoc {V} (kvs : list (string * V)) k v :
  dict_of (kvs ++ [(k, v)]) = <[k := v]> (dict_of kvs).
Proof. unfold dict_of. by rewrite reverse_app. Qed.

(** The loop of [_search_batch], when it does not raise. *)
Lemma batch_loop_run query max_results on_error providers done_ :
  on_error <> Search.fail \/ batch_failures query max_results providers = [] ->
  Search.batch_loop on_error
    (map (Search.fetch_one query max_results) providers)
    {| Search.all_papers := batch_papers query max_results done_;
       Search.b_errors := dict_of (batch_failures query max_results done_);
       Search.totals := dict_of (batch_counts query max_results done_);
       Search.warned :=
         match on_error with
         | Search.warn =>
             map (fun ne => Search.failure_message ne.1 ne.2)
                 (batch_failures query max_results done_)
         | _ => []
         end |}
  = inr {| Search.all_papers :=
             batch_papers query max_results (done_ ++ providers);
           Search.b_errors :=
             dict_of (batch_failures query max_results (done_ ++ providers));
           Search.totals :=
             dict_of (batch_counts query max_results (done_ ++ providers));
           Search.warned :=
             match on_error with
             | Search.warn =>
                 map (fun ne => Search.failure_message ne.1 ne.2)
                     (batch_failures query max_results (done_ ++ providers))
             | _ => []
             end |}.
Proof.
  revert done_. induction providers as [|P providers IH]; intros done_ Hok.
  { simpl. by rewrite app_nil_r. }
  assert (Hsnoc : done_ ++ P :: providers = (done_ ++ [P]) ++ providers)
    by (by rewrite <- app_assoc).
  rewrite Hsnoc, <- IH; clear Hsnoc.
  2:{ destruct Hok as [?|Hnone]; [by left|right].
      unfold batch_failures in *. simpl in Hnone.
      by destruct (Search.provider_run P query max_results) as [ys [e|]]. }
  simpl. unfold Search.fetch_one at 1.
  unfold batch_papers, batch_failures, batch_counts.
  rewrite !map_app, !concat_app, !omap_app. simpl.
  destruct (Search.provider_run P query max_results) as [ys [e|]] eqn:HP; simpl.
  - rewrite !app_nil_r.
    destruct on_error.
    + destruct Hok as [?|Hnone]; [done|].
      unfold batch_failures in Hnone. simpl in Hnone. by rewrite HP in Hnone.
    + by rewrite dict_of_snoc.
    + by rewrite dict_of_snoc, map_app.
  - rewrite !app_nil_r, dict_of_snoc. done.
Qed.

(** A batch search that does not raise, in full. *)
Lemma batch_search_run (query : Query) (max_results : Z)
    (on_error : Search.OnError) (providers : list Search.Provider)
    (dedupe_ : bool) :
  on_error <> Search.fail \/ batch_failures query max_results providers = [] ->
  exists result,
    Search._search_batch query providers max_results on_error dedupe_
    = (match on_error with
       | Search.warn =>
           map (fun ne => Search.failure_message ne.1 ne.2)
               (batch_failures query max_results providers)
       | _ => []
       end, inr result)
    /\ papers result
       = (if dedupe_
          then (dedupe_loop (batch_papers query max_results providers)).2
          else batch_papers query max_results providers)
    /\ errors result = dict_of (batch_failures query max_results providers)
    /\ total_by_provider result
       = dict_of (batch_counts query max_results providers).
Proof.
  intros Hok. unfold Search._search_batch.
  pose proof (batch_loop_run query max_results on_error providers [] Hok) as Hrun.
  simpl in Hrun.
  replace (match on_error with
           | Search.warn => [] | _ => []
           end) with (@nil string) in Hrun by (by destruct on_error).
  change (dict_of []) with (∅ : gmap string Exception) in Hrun at 1.
  change (dict_of []) with (∅ : gmap string Z) in Hrun at 1.
  unfold batch_papers at 1 in Hrun. simpl in Hrun. rewrite Hrun.
  eexists. split; [reflexivity|]. by destruct dedupe_.
Qed.

(** X3. Under [warn] or [ignore], or when no provider fails, a batch
    search does not raise: its papers are those of the successful
    providers in provider order (deduplicated if asked for), [errors] and
    [total_by_provider] are the dicts filled provider by provider (a later
    provider of the same name overwrites an earlier one), and the warnings
    are one per failed provider under [warn], none otherwise. *)
Theorem batch_result (query : Query) (max_results : Z)
    (on_error : Search.OnError) (providers : list Search.Provider)
    (dedupe_ : bool) :
  on_error <> Search.fail \/ batch_failures query max_results providers = [] ->
  exists result,
    Search._search_batch query providers max_results on_error dedupe_
    = (match on_error with
       | Search.warn =>
           map (fun ne => Search.failure_message ne.1 ne.2)
               (batch_failures query max_results providers)
       | _ => []
       end, inr result)
    /\ papers result
       = (if dedupe_
          then (dedupe_loop (batch_papers query max_results providers)).2
          else batch_papers query max_results providers)
    /\ errors result = dict_of (batch_failures query max_results providers)
    /\ total_by_provider result
       = dict_of (batch_counts query max_results providers).
Proof. apply batch_search_run. Qed.

Lemma batch_result_witness :
  exists result,
    Search._search_batch (Combinators.title "attention")
      [scopus_without_key; provider_of_two; provider_of_three] 10
      Search.ignore false
    = ([], inr result)
    /\ papers result = two_papers ++ three_papers
    /\ errors result = {[ "scopus" := missing_key ]}
    /\ total_by_provider result = {[ "openalex" := 3 ]}.
Proof.
  destruct (batch_result (Combinators.title "attention") 10 Search.ignore
              [scopus_without_key; provider_of_two; provider_of_three] false)
    as (result & Hrun & Hpapers & Herrors & Htotals); [by left|].
  exists result. split; [exact Hrun|].
  split; [rewrite Hpapers; vm_compute; reflexivity|].
  split; [rewrite Herrors|rewrite Htotals]; vm_compute; reflexivity.
Defined.

Lemma NoDup_fmap_eq {A B} (f : A -> B) (l : list A) x y :
  NoDup (map f l) -> x ∈ l -> y ∈ l -> f x = f y -> x = y.
Proof.
  induction l as [|a l IH]; simpl; intros Hnd Hx Hy Hf.
  { by apply not_elem_of_nil in Hx. }
  apply NoDup_cons in Hnd as [Ha Hnd].
  apply elem_of_cons in Hx as [->|Hx]; apply elem_of_cons in Hy as [->|Hy].
  - done.
  - destruct Ha. rewrite Hf. by apply list_elem_of_fmap_2.
  - destruct Ha. rewrite <- Hf. by apply list_elem_of_fmap_2.
  - by apply IH.
Qed.

Lemma batch_failures_elem query max_results providers n e :
  (n, e) ∈ batch_failures query max_results providers <->
  exists P, P ∈ providers /\ Search.name P = n
            /\ raises query max_results P e.
Proof.
  unfold batch_failures, raises. rewrite list_elem_of_omap. split.
  - intros (P & HP & Hrun). exists P. split; [done|].
    destruct (Search.provider_run P query max_results) as [ys [e'|]];
      simplify_eq/=; done.
  - intros (P & HP & <- & Hrun). exists P. split; [done|].
    destruct (Search.provider_run P query max_results) as [ys [e'|]];
      simplify_eq/=; done.
Qed.

Lemma batch_counts_elem query max_results providers n c :
  (n, c) ∈ batch_counts query max_results providers <->
  exists P ps, P ∈ providers /\ Search.name P = n
               /\ succeeds query max_results P ps
               /\ c = Z.of_nat (length ps).
Proof.
  unfold batch_counts, succeeds. rewrite list_elem_of_omap. split.
  - intros (P & HP & Hrun).
    destruct (Search.provider_run P query max_results) as [ys [e'|]] eqn:Hr;
      simplify_eq/=. by exists P, ys.
  - intros (P & ps & HP & <- & Hrun & ->). exists P. split; [done|].
    by rewrite Hrun.
Qed.

Lemma batch_failures_names query max_results providers :
  (batch_failures query max_results providers).*1
  `sublist_of` map Search.name providers.
Proof.
  unfold batch_failures. induction providers as [|P providers IH]; simpl.
  { constructor. }
  destruct (Search.provider_run P query max_results) as [ys [e|]]; simpl.
  - by apply sublist_skip.
  - by apply sublist_cons.
Qed.

Lemma batch_counts_names query max_results providers :
  (batch_counts query max_results providers).*1
  `sublist_of` map Search.name providers.
Proof.
  unfold batch_counts. induction providers as [|P providers IH]; simpl.
  { constructor. }
  destruct (Search.provider_run P query max_results) as [ys [e|]]; simpl.
  - by apply sublist_cons.
  - by apply sublist_skip.
Qed.

Lemma dict_of_lookup {V} (kvs : list (string * V)) k v :
  NoDup kvs.*1 -> (k, v) ∈ kvs -> dict_of kvs !! k = Some v.
Proof.
  intros Hnd Hin. unfold dict_of. apply elem_of_list_to_map_1.
  - rewrite fmap_reverse. by rewrite reverse_Permutation.
  - by apply elem_of_reverse.
Qed.

Lemma dict_of_lookup_None {V} (kvs : list (string * V)) k :
  (forall v, (k, v) ∉ kvs) -> dict_of kvs !! k = None.
Proof.
  intros Hnot. unfold dict_of. apply not_elem_of_list_to_map_1.
  intros ([k' v] & Hk & Hin)%list_elem_of_fmap.
  rewrite elem_of_reverse in Hin. simpl in Hk. subst k'. by apply (Hnot v).
Qed.

(** X4. With providers of pairwise distinct names and a policy other than
    [fail], every provider is accounted for once in the result of a batch
    search: one whose search raised has its error in [errors] under its
    name and no entry in [total_by_provider]; one whose search succeeded
    has the number of papers it yielded in [total_by_provider] and no
    entry in [errors]. *)
Theorem batch_accounts_for_each_provider (query : Query) (max_results : Z)
    (on_error : Search.OnError) (providers : list Search.Provider)
    (dedupe_ : bool) (P : Search.Provider) :
  NoDup (map Search.name providers) -> on_error <> Search.fail ->
  P ∈ providers ->
  exists warnings result,
    Search._search_batch query providers max_results on_error dedupe_
    = (warnings, inr result)
    /\ (forall e, raises query max_results P e ->
          errors result !! Search.name P = Some e
          /\ total_by_provider result !! Search.name P = None)
    /\ (forall ps, succeeds query max_results P ps ->
          total_by_provider result !! Search.name P
          = Some (Z.of_nat (length ps))
          /\ errors result !! Search.name P = None).
Proof.
  intros Hnd Hpolicy HP.
  destruct (batch_search_run query max_results on_error providers dedupe_)
    as (result & Hrun & _ & Herr & Htot); [by left|].
  eexists _, result. split; [exact Hrun|]. rewrite Herr, Htot.
  assert (Hf : NoDup (batch_failures query max_results providers).*1).
  { exact (sublist_NoDup _ _ Hnd (batch_failures_names _ _ _)). }
  assert (Hc : NoDup (batch_counts query max_results providers).*1).
  { exact (sublist_NoDup _ _ Hnd (batch_counts_names _ _ _)). }
  split.
  - intros e He. split.
    + apply dict_of_lookup; [done|]. apply batch_failures_elem. by exists P.
    + apply dict_of_lookup_None.
      intros c (Q & ps & HQ & Hname & Hs & _)%batch_counts_elem.
      assert (Q = P) as -> by (by eapply NoDup_fmap_eq).
      unfold raises, succeeds in *. rewrite Hs in He. done.
  - intros ps Hs. split.
    + apply dict_of_lookup; [done|]. apply batch_counts_elem. by exists P, ps.
    + apply dict_of_lookup_None.
      intros e (Q & HQ & Hname & He)%batch_failures_elem.
      assert (Q = P) as -> by (by eapply NoDup_fmap_eq).
      unfold raises, succeeds in *. rewrite Hs in He. done.
Qed.

Lemma batch_accounts_for_each_provider_witness :
  exists warnings result,
    Search._search_batch (Combinators.title "attention")
      [scopus_without_key; provider_of_two] 10 Search.warn true
    = (warnings, inr result)
    /\ errors result !! "scopus" = Some missing_key
    /\ total_by_provider result !! "scopus" = None.
Proof.
  destruct (batch_accounts_for_each_provider (Combinators.title "attention")
              10 Search.warn [scopus_without_key; provider_of_two] true
              scopus_without_key)
    as (warnings & result & Hrun & Hfail & _).
  - vm_compute. repeat constructor; set_solver.
  - discriminate.
  - by left.
  - exists warnings, result. split; [exact Hrun|].
    apply (Hfail missing_key). vm_compute. reflexivity.
Defined.

(** ** [_search_stream], whatever the providers do *)

Module StreamGeneral.

Import Search StreamInv StreamGInv StreamFacts.

Lemma queue_papers_app q1 q2 :
  queue_papers (q1 ++ q2) = queue_papers q1 ++ queue_papers q2.
Proof. unfold queue_papers. by rewrite omap_app. Qed.

Lemma live_count_insert ts i t t' :
  ts !! i = Some t ->
  (live_count (<[i := t']> ts) + live t = live_count ts + live t')%nat.
Proof. apply sum_list_with_insert. Qed.

Lemma stream_ginv_task_step on_error T0 E0 i s s' :
  stream_ginv on_error T0 E0 s -> task_step on_error i s = Some s' ->
  stream_ginv on_error T0 E0 s'.
Proof.
  intros (pushed & Hlp & Hlt & Htasks & Hactive & Hil & Hsent & Hlast
          & Hexc & Hraised & Hfailq & Hended) Hstep.
  unfold task_step in Hstep.
  destruct (tasks s !! i) as [t|] eqn:Hi; [|done].
  destruct (t_done t) eqn:Hdone; [done|].
  destruct (Htasks i t Hi) as (pu & Hpu & HT0 & HE0 & _).
  pose proof (live_pos _ _ _ Hi Hdone) as Hlive.
  assert (Hlt_i : (i < length (tasks s))%nat) by (by eapply lookup_lt_Some).
  assert (Hnone : QNone ∉ queue s).
  { intros [Hz _]%Hsent. lia. }
  assert (Hcons : consumer s <> Ended).
  { intros (_ & Hz & _)%Hended. lia. }
  assert (Hlive_t : live t = 1%nat) by (unfold live; by rewrite Hdone).
  destruct (t_pending t) as [|paper rest] eqn:Hpending; simplify_eq/=.
  - (* the search is over: [except] and [finally] *)
    set (t' := {| t_name := t_name t; t_pending := []; t_error := t_error t;
                  t_done := true |}).
    set (queue1 := match t_error t, on_error with
                   | Some e, fail => queue s ++ [QExc e]
                   | _, _ => queue s
                   end).
    pose proof (live_count_insert (tasks s) i t t' Hi) as Hcount.
    assert (live t' = 0%nat) by done.
    assert (Hq1 : queue_papers queue1 = queue_papers (queue s)).
    { unfold queue1. destruct (t_error t), on_error; try done.
      rewrite queue_papers_app. simpl. by rewrite app_nil_r. }
    assert (Hq1none : QNone ∉ queue1).
    { unfold queue1. destruct (t_error t), on_error; try done.
      rewrite elem_of_app, list_elem_of_singleton. by intros [?|?]. }
    assert (Hq1in : forall item, item ∈ queue s -> item ∈ queue1).
    { intros item Hin. unfold queue1. destruct (t_error t), on_error; try done.
      apply elem_of_app. by left. }
    assert (Hq1exc : forall e, QExc e ∈ queue1 ->
                               on_error = fail /\ Some e ∈ E0).
    { intros e. unfold queue1.
      destruct (t_error t) as [e'|] eqn:Herr, on_error; try apply Hexc.
      rewrite elem_of_app, list_elem_of_singleton.
      intros [?|[= ->]]; [by apply Hexc|]. split; [done|].
      apply list_elem_of_lookup. by exists i. }
    assert (Hq1own : on_error = fail -> forall e, t_error t = Some e ->
                                                  QExc e ∈ queue1).
    { intros -> e He. unfold queue1. rewrite He. apply elem_of_app. right.
      by apply list_elem_of_singleton. }
    exists pushed. simpl. rewrite length_insert. fold t' queue1.
    split; [done|]. split; [done|]. split; [|split; [lia|]].
    { intros j tj Hj. destruct (decide (i = j)) as [<-|Hne].
      - rewrite list_lookup_insert_eq in Hj by done. simplify_eq.
        exists pu. by rewrite app_nil_r in *.
      - rewrite list_lookup_insert_ne in Hj by done. by apply Htasks. }
    destruct (active_tasks s - 1 =? 0) eqn:Hz.
    + assert (Hzero : live_count (<[i:=t']> (tasks s)) = 0%nat) by lia.
      split; [by rewrite queue_papers_app, Hq1, app_nil_r|].
      split; [intros _; split; [done|]; by exists queue1|].
      split; [intros _ _; apply elem_of_app; right;
              by apply list_elem_of_singleton|].
      split.
      { intros e [?|[=]%list_elem_of_singleton]%elem_of_app. by apply Hq1exc. }
      split; [done|]. split; [|by intros ?].
      intros Hrun Hfail j tj e Hj Hdj Hej. apply elem_of_app. left.
      destruct (decide (i = j)) as [<-|Hne].
      * rewrite list_lookup_insert_eq in Hj by done. simplify_eq.
        by apply Hq1own.
      * rewrite list_lookup_insert_ne in Hj by done.
        apply Hq1in. by eapply Hfailq.
    + split; [by rewrite Hq1|].
      split; [by intros ?%Hq1none|]. split; [intros _ ?; lia|].
      split; [done|]. split; [done|]. split; [|by intros ?].
      intros Hrun Hfail j tj e Hj Hdj Hej.
      destruct (decide (i = j)) as [<-|Hne].
      * rewrite list_lookup_insert_eq in Hj by done. simplify_eq.
        by apply Hq1own.
      * rewrite list_lookup_insert_ne in Hj by done.
        apply Hq1in. by eapply Hfailq.
  - (* the next paper *)
    set (t' := {| t_name := t_name t; t_pending := rest; t_error := t_error t;
                  t_done := false |}).
    pose proof (live_count_insert (tasks s) i t t' Hi) as Hcount.
    assert (live t' = 1%nat) by done.
    exists (<[i := pu ++ [paper]]> pushed). simpl.
    rewrite !length_insert. fold t'.
    split; [done|]. split; [done|]. split; [|split; [lia|]].
    { intros j tj Hj. destruct (decide (i = j)) as [<-|Hne].
      - rewrite list_lookup_insert_eq in Hj by done. simplify_eq.
        exists (pu ++ [paper]).
        rewrite list_lookup_insert_eq by lia. simpl. by rewrite <- app_assoc.
      - rewrite list_lookup_insert_ne in Hj by done.
        rewrite list_lookup_insert_ne by done. by apply Htasks. }
    split.
    { rewrite queue_papers_app, app_assoc. simpl. by apply Interleaves_snoc. }
    split.
    { intros [?|[=]%list_elem_of_singleton]%elem_of_app. done. }
    split; [intros _ ?; lia|].
    split.
    { intros e [?|[=]%list_elem_of_singleton]%elem_of_app. by apply Hexc. }
    split; [done|]. split; [|by intros ?].
    intros Hrun Hfail j tj e Hj Hdj Hej. apply elem_of_app. left.
    destruct (decide (i = j)) as [<-|Hne].
    + rewrite list_lookup_insert_eq in Hj by done. by simplify_eq.
    + rewrite list_lookup_insert_ne in Hj by done. by eapply Hfailq.
Qed.

Lemma sentinel_tail item rest :
  (exists q', item :: rest = q' ++ [QNone] /\ QNone ∉ q') ->
  item <> QNone -> exists q'', rest = q'' ++ [QNone] /\ QNone ∉ q''.
Proof.
  intros ([|x q'] & Heq & Hnot) Hne; simplify_eq/=.
  exists q'. split; [done|]. intros ?. apply Hnot. by right.
Qed.

Lemma stream_ginv_consumer_step on_error T0 E0 s s' :
  stream_ginv on_error T0 E0 s -> consumer_step s = Some s' ->
  stream_ginv on_error T0 E0 s'.
Proof.
  intros (pushed & Hlp & Hlt & Htasks & Hactive & Hil & Hsent & Hlast
          & Hexc & Hraised & Hfailq & Hended) Hstep.
  unfold consumer_step in Hstep.
  destruct (consumer s) eqn:Hcons; [|done..].
  destruct (queue s) as [|item rest] eqn:Hqueue; [done|].
  injection Hstep as <-. exists pushed. simpl.
  split; [done|]. split; [done|]. split; [done|]. split; [done|].
  assert (Hrest : forall x, x ∈ rest -> x ∈ item :: rest) by (by right).
  destruct item as [p| |e].
  - split; [by rewrite <- app_assoc|].
    split.
    { intros Hin. destruct (Hsent (Hrest _ Hin)) as [Hz Htail].
      split; [done|]. by apply (sentinel_tail (QPaper p)). }
    split.
    { intros _ Hz. specialize (Hlast eq_refl Hz).
      by apply elem_of_cons in Hlast as [?|?]. }
    split; [intros e ?; by apply Hexc, Hrest|].
    split; [done|]. split; [|done].
    intros _ Hfail i t e Hi Hd He.
    specialize (Hfailq eq_refl Hfail i t e Hi Hd He).
    by apply elem_of_cons in Hfailq as [?|?].
  - destruct (Hsent ltac:(by left)) as [Hz ([|x q'] & Heq & Hnot)];
      simplify_eq/=.
    2:{ destruct Hnot. by left. }
    split; [done|]. split; [by intros ?%not_elem_of_nil|].
    split; [done|]. split; [by intros e ?%not_elem_of_nil|].
    split; [done|]. split; [done|]. intros _.
    split; [done|]. split; [done|]. intros Hfail t Ht.
    apply list_elem_of_lookup in Ht as [i Hi].
    destruct (t_error t) as [e|] eqn:He; [|done].
    specialize (Hfailq eq_refl Hfail i t e Hi
                  (live_zero _ _ _ Hz Hi) He).
    apply elem_of_cons in Hfailq as [?|?%not_elem_of_nil]; done.
  - split; [done|].
    split.
    { intros Hin. destruct (Hsent (Hrest _ Hin)) as [Hz Htail].
      split; [done|]. by apply (sentinel_tail (QExc e)). }
    split; [done|].
    split; [intros e' ?; by apply Hexc, Hrest|].
    split; [|done].
    intros e' [= <-]. apply Hexc. by left.
Qed.

Lemma stream_ginv_run on_error T0 E0 schedule s s' :
  stream_ginv on_error T0 E0 s ->
  run_schedule on_error schedule s = Some s' ->
  stream_ginv on_error T0 E0 s'.
Proof.
  revert s. induction schedule as [|a schedule IH]; intros s Hinv Hrun;
    simpl in Hrun.
  - by simplify_eq.
  - destruct (step on_error a s) as [s1|] eqn:Hstep; [|done].
    apply (IH s1); [|done]. destruct a as [i|]; simpl in Hstep.
    + by eapply stream_ginv_task_step.
    + by eapply stream_ginv_consumer_step.
Qed.

(** The invariant holds when the stream starts, if there is a provider. *)
Lemma stream_ginv_init on_error query providers max_results :
  providers <> [] ->
  stream_ginv on_error
    (map (fun P => (provider_run P query max_results).1) providers)
    (map (fun P => (provider_run P query max_results).2) providers)
    (stream_init query providers max_results).
Proof.
  intros Hne.
  exists (replicate (length providers) []). simpl.
  rewrite length_replicate, !length_map.
  assert (Hlive : live_count (map (start_task query max_results) providers)
                  = length providers).
  { unfold live_count. clear. induction providers as [|P ps IH]; [done|].
    simpl. rewrite IH. unfold start_task.
    by destruct (provider_run P query max_results). }
  assert (Hpos : (0 < length providers)%nat) by (destruct providers; simpl; [done|lia]).
  split; [done|]. split; [done|].
  split.
  { intros i t Hi. rewrite list_lookup_fmap in Hi.
    destruct (providers !! i) as [P|] eqn:HP; simplify_eq/=.
    exists []. rewrite lookup_replicate_2 by (by eapply lookup_lt_Some).
    rewrite !list_lookup_fmap, HP. simpl.
    unfold start_task. by destruct (provider_run P query max_results). }
  split; [by rewrite Hlive|]. split; [constructor|].
  split; [by intros ?%not_elem_of_nil|].
  split; [intros _ ?; lia|].
  split; [by intros e ?%not_elem_of_nil|].
  split; [done|]. split; [|done].
  intros _ _ i t e Hi Hd. rewrite list_lookup_fmap in Hi.
  destruct (providers !! i) as [P|]; simplify_eq/=.
  unfold start_task in Hd. by destruct (provider_run P query max_results).
Qed.

(** While the caller is reading, something can run. *)
Lemma stream_ginv_progress on_error T0 E0 s :
  stream_ginv on_error T0 E0 s -> consumer s = Running ->
  exists a s', step on_error a s = Some s'.
Proof.
  intros (pushed & _ & _ & _ & _ & _ & _ & Hlast & _) Hrun.
  destruct (decide (live_count (tasks s) = 0%nat)) as [Hz|Hnz].
  - specialize (Hlast Hrun Hz). exists ConsumerStep. simpl.
    unfold consumer_step. rewrite Hrun.
    destruct (queue s); [by apply not_elem_of_nil in Hlast|eauto].
  - destruct (live_exists (tasks s)) as (i & t & Hi & Hdone); [lia|].
    exists (TaskStep i). simpl. unfold task_step. rewrite Hi, Hdone.
    destruct (t_pending t); eauto.
Qed.

(** The caller's loop can always be brought to its end, be it the end of
    the stream or an exception. *)
Lemma stream_ginv_finishes on_error T0 E0 s :
  stream_ginv on_error T0 E0 s ->
  exists schedule s',
    run_schedule on_error schedule s = Some s' /\ consumer s' <> Running.
Proof.
  remember (steps_left s) as m eqn:Hm. revert s Hm.
  induction (lt_wf m) as [m _ IH]; intros s -> Hinv.
  destruct (consumer s) eqn:Hcons.
  - destruct (stream_ginv_progress _ _ _ s Hinv Hcons) as (a & s1 & Hstep).
    destruct (IH (steps_left s1)
                (StreamRuns.step_decreases _ _ _ _ Hstep) s1 eq_refl)
      as (schedule & s' & Hsched & Hs').
    { destruct a; simpl in Hstep.
      - by eapply stream_ginv_task_step.
      - by eapply stream_ginv_consumer_step. }
    exists (a :: schedule), s'. simpl. by rewrite Hstep.
  - exists [], s. split; [done|]. by rewrite Hcons.
  - exists [], s. split; [done|]. by rewrite Hcons.
Qed.

(** At the end of the stream every paper that was yielded has arrived. *)
Lemma stream_ginv_ended on_error T0 E0 s :
  stream_ginv on_error T0 E0 s -> consumer s = Ended ->
  Interleaves T0 (received s)
  /\ (on_error = fail ->
      forall i e, (i < length T0)%nat -> E0 !! i = Some e -> e = None).
Proof.
  intros (pushed & Hlp & Hlt & Htasks & _ & Hil & _ & _ & _ & _ & _ & Hended)
         Hend.
  destruct (Hended Hend) as (Hq & Hz & Hnoerr).
  rewrite Hq in Hil. simpl in Hil. rewrite app_nil_r in Hil.
  assert (pushed = T0) as <-.
  { apply list_eq. intros i.
    destruct (tasks s !! i) as [t|] eqn:Hi.
    - destruct (Htasks i t Hi) as (pu & -> & -> & _ & Hdone).
      rewrite (Hdone (live_zero _ _ _ Hz Hi)). by rewrite app_nil_r.
    - apply lookup_ge_None in Hi.
      rewrite !(proj2 (lookup_ge_None _ _)) by lia. done. }
  split; [done|]. intros Hfail i e Hlt_i Hi.
  destruct (lookup_lt_is_Some_2 (tasks s) i) as [t Ht]; [lia|].
  destruct (Htasks i t Ht) as (pu & _ & _ & HE & _).
  rewrite Hi in HE. injection HE as ->.
  apply (Hnoerr Hfail). apply list_elem_of_lookup. by exists i.
Qed.

End StreamGeneral.

Lemma provider_lookup {A} (f : Search.Provider -> A) providers i x :
  map f providers !! i = Some x ->
  exists P, P ∈ providers /\ f P = x.
Proof.
  rewrite list_lookup_fmap. destruct (providers !! i) as [P|] eqn:HP; [|done].
  intros [= <-]. exists P. split; [|done]. apply list_elem_of_lookup. eauto.
Qed.

(** X5. Whatever the providers do and whatever the policy, when the caller
    of a streaming search sees the end of the stream it has received
    exactly the papers the providers yielded (up to the failure of those
    that failed), in an interleaving that keeps each provider's order; and
    under [fail] the stream ends normally only if no provider failed. *)
Theorem stream_end_complete (query : Query) (max_results : Z)
    (on_error : Search.OnError) (providers : list Search.Provider)
    (schedule : list Search.Action) (s : Search.StreamState) :
  providers <> [] ->
  Search.run_schedule on_error schedule
    (Search.stream_init query providers max_results) = Some s ->
  Search.consumer s = Search.Ended ->
  Interleaves
    (map (fun P => (Search.provider_run P query max_results).1) providers)
    (Search.received s)
  /\ Search.received s
     ≡ₚ concat (map (fun P => (Search.provider_run P query max_results).1)
                    providers)
  /\ (on_error = Search.fail ->
      forall P, P ∈ providers ->
                (Search.provider_run P query max_results).2 = None).
Proof.
  intros Hne Hrun Hend.
  pose proof (StreamGeneral.stream_ginv_run _ _ _ _ _ _
                (StreamGeneral.stream_ginv_init on_error query providers
                   max_results Hne) Hrun) as Hinv.
  destruct (StreamGeneral.stream_ginv_ended _ _ _ _ Hinv Hend) as [Hil Hnone].
  split; [done|]. split; [by apply Interleaves_perm|].
  intros Hfail P [i HP]%list_elem_of_lookup.
  apply (Hnone Hfail i).
  - rewrite length_map. by eapply lookup_lt_Some.
  - by rewrite list_lookup_fmap, HP.
Qed.

Lemma stream_end_complete_witness :
  exists s,
    Search.run_schedule Search.warn failing_first_schedule
      (Search.stream_init (Combinators.title "attention")
         [scopus_without_key; provider_of_two] 10) = Some s
    /\ Search.received s ≡ₚ two_papers.
Proof.
  destruct (Search.run_schedule Search.warn failing_first_schedule
              (Search.stream_init (Combinators.title "attention")
                 [scopus_without_key; provider_of_two] 10))
    as [s|] eqn:Hrun; [|vm_compute in Hrun; discriminate].
  exists s. split; [reflexivity|].
  assert (Hend : Search.consumer s = Search.Ended).
  { vm_compute in Hrun. injection Hrun as <-. reflexivity. }
  destruct (stream_end_complete (Combinators.title "attention") 10
              Search.warn [scopus_without_key; provider_of_two]
              failing_first_schedule s) as (_ & Hperm & _);
    [discriminate | exact Hrun | exact Hend |].
  exact Hperm.
Defined.

(** X6. The caller of a streaming search is raised an exception only
    under [fail], and then it is the exception that ended the search of
    one of the providers: under [warn] and [ignore] no failure of a
    provider reaches the caller. *)
Theorem stream_raises_only_under_fail (query : Query) (max_results : Z)
    (on_error : Search.OnError) (providers : list Search.Provider)
    (schedule : list Search.Action) (s : Search.StreamState) (e : Exception) :
  providers <> [] ->
  Search.run_schedule on_error schedule
    (Search.stream_init query providers max_results) = Some s ->
  Search.consumer s = Search.Raised e ->
  on_error = Search.fail
  /\ exists P, P ∈ providers
               /\ (Search.provider_run P query max_results).2 = Some e.
Proof.
  intros Hne Hrun Hraised.
  pose proof (StreamGeneral.stream_ginv_run _ _ _ _ _ _
                (StreamGeneral.stream_ginv_init on_error query providers
                   max_results Hne) Hrun) as Hinv.
  destruct Hinv as (pushed & _ & _ & _ & _ & _ & _ & _ & _ & Hr & _).
  destruct (Hr e Hraised) as [Hfail [i Hi]%list_elem_of_lookup].
  split; [done|]. by apply provider_lookup in Hi.
Qed.

Lemma stream_raises_only_under_fail_witness :
  exists s,
    Search.run_schedule Search.fail [Search.TaskStep 0; Search.ConsumerStep]
      (Search.stream_init (Combinators.title "attention")
         [scopus_without_key; provider_of_two] 10) = Some s
    /\ Search.consumer s = Search.Raised missing_key
    /\ exists P, P ∈ [scopus_without_key; provider_of_two]
                 /\ (Search.provider_run P (Combinators.title "attention") 10).2
                    = Some missing_key.
Proof.
  destruct (Search.run_schedule Search.fail
              [Search.TaskStep 0; Search.ConsumerStep]
              (Search.stream_init (Combinators.title "attention")
                 [scopus_without_key; provider_of_two] 10))
    as [s|] eqn:Hrun; [|vm_compute in Hrun; discriminate].
  exists s. split; [reflexivity|].
  assert (Hraised : Search.consumer s = Search.Raised missing_key).
  { vm_compute in Hrun. injection Hrun as <-. reflexivity. }
  split; [exact Hraised|].
  destruct (stream_raises_only_under_fail (Combinators.title "attention") 10
              Search.fail [scopus_without_key; provider_of_two]
              [Search.TaskStep 0; Search.ConsumerStep] s missing_key)
    as (_ & HP); [discriminate | exact Hrun | exact Hraised |].
  exact HP.
Defined.

(** X7. With at least one provider a streaming search cannot hang nor run
    forever, whatever the providers do and whatever the policy: from every
    state it can reach, the caller's loop can be brought to its end (the
    end of the stream or an exception); while the caller is still reading
    some task or the caller itself can run; and every step uses up a
    bounded budget. *)
Theorem stream_terminates (query : Query) (max_results : Z)
    (on_error : Search.OnError) (providers : list Search.Provider)
    (schedule : list Search.Action) (s : Search.StreamState) :
  providers <> [] ->
  Search.run_schedule on_error schedule
    (Search.stream_init query providers max_results) = Some s ->
  (exists schedule' s',
     Search.run_schedule on_error schedule' s = Some s'
     /\ Search.consumer s' <> Search.Running)
  /\ (Search.consumer s = Search.Running ->
      exists a s', Search.step on_error a s = Some s')
  /\ (forall a s', Search.step on_error a s = Some s' ->
        (StreamInv.steps_left s' < StreamInv.steps_left s)%nat).
Proof.
  intros Hne Hrun.
  pose proof (StreamGeneral.stream_ginv_run _ _ _ _ _ _
                (StreamGeneral.stream_ginv_init on_error query providers
                   max_results Hne) Hrun) as Hinv.
  split; [by eapply StreamGeneral.stream_ginv_finishes|].
  split; [by eapply StreamGeneral.stream_ginv_progress|].
  intros a s'. apply StreamRuns.step_decreases.
Qed.

Lemma stream_terminates_witness :
  exists schedule' s',
    Search.run_schedule Search.fail schedule'
      (Search.stream_init (Combinators.title "attention")
         [scopus_without_key; provider_of_two] 10) = Some s'
    /\ Search.consumer s' <> Search.Running.
Proof.
  destruct (stream_terminates (Combinators.title "attention") 10 Search.fail
              [scopus_without_key; provider_of_two] []
              (Search.stream_init (Combinators.title "attention")
                 [scopus_without_key; provider_of_two] 10))
    as (Hfin & _); [discriminate | reflexivity |].
  exact Hfin.
Defined.

(** X8. With an empty list of providers a streaming search hangs: no task
    exists to put the end-of-stream mark on the queue, so the caller's
    first [queue.get()] never returns. *)
Theorem stream_without_providers_blocks (query : Query) (max_results : Z)
    (on_error : Search.OnError) (schedule : list Search.Action)
    (s : Search.StreamState) :
  Search.run_schedule on_error schedule
    (Search.stream_init query [] max_results) = Some s ->
  schedule = [] /\ Search.consumer s = Search.Running
  /\ Search.received s = []
  /\ forall a, Search.step on_error a s = None.
Proof.
  destruct schedule as [|a schedule]; simpl.
  - intros [= <-]. repeat split. by intros [i|].
  - by destruct a as [i|].
Qed.

Lemma stream_without_providers_blocks_witness :
  Search.consumer (Search.stream_init (Combinators.title "attention") [] 10)
  = Search.Running
  /\ forall a, Search.step Search.warn a
                 (Search.stream_init (Combinators.title "attention") [] 10)
               = None.
Proof.
  destruct (stream_without_providers_blocks (Combinators.title "attention")
              10 Search.warn []
              (Search.stream_init (Combinators.title "attention") [] 10))
    as (_ & Hrun & _ & Hstuck); [reflexivity|].
  split; [exact Hrun | exact Hstuck].
Defined.

(** ** [SemanticScholar._fetch_with_retry] *)

Module RetryFacts.

Import SemanticScholar.

(** One attempt sends the request once; it asks for another attempt only
    before the last one. *)
Lemma attempt_body_run {Y} client req attempt delay w :
  exists w1 r,
    attempt_body (Y:=Y) client req attempt delay w = (w1, [], r)
    /\ sent w1 = sent w ++ [req]
    /\ (forall d, r = inr (Continue d) -> attempt < max_retries - 1).
Proof.
  unfold attempt_body, GenM.bind, GenM.get.
  destruct (client (length (sent w)) req) as [e|resp]; simpl.
  { eexists _, _. split; [reflexivity|]. split; [done|]. by intros d. }
  destruct (status_code resp =? 429).
  - destruct (attempt <? max_retries - 1) eqn:Hlt; simpl.
    + eexists _, _. split; [reflexivity|]. split; [done|].
      intros d _. by apply Z.ltb_lt.
    + unfold raise_for_status.
      destruct ((200 <=? status_code resp) && (status_code resp <? 300));
        simpl; eexists _, _; (split; [reflexivity|]); (split; [done|]);
        by intros d.
  - unfold raise_for_status.
    destruct ((200 <=? status_code resp) && (status_code resp <? 300));
      simpl; eexists _, _; (split; [reflexivity|]); (split; [done|]);
      by intros d.
Qed.

Lemma retry_loop_run {Y} client req attempts delay w :
  last attempts = Some (max_retries - 1) ->
  exists k : nat,
    (1 <= k <= length attempts)%nat
    /\ sent (retry_loop (Y:=Y) client req attempts delay w).1.1
       = sent w ++ replicate k req
    /\ (retry_loop (Y:=Y) client req attempts delay w).1.2 = []
    /\ (retry_loop (Y:=Y) client req attempts delay w).2 <> inr None.
Proof.
  revert delay w. induction attempts as [|attempt rest IH]; intros delay w Hlast.
  { done. }
  assert (Hrest : attempt <> max_retries - 1 ->
                  last rest = Some (max_retries - 1)).
  { intros Hne. destruct rest as [|a rest]; [|by rewrite last_cons_cons in Hlast].
    simpl in Hlast. congruence. }
  assert (Hnext : forall w1 d,
            sent w1 = sent w ++ [req] -> attempt <> max_retries - 1 ->
            exists k : nat,
              (1 <= k <= length (attempt :: rest))%nat
              /\ sent (retry_loop (Y:=Y) client req rest d w1).1.1
                 = sent w ++ replicate k req
              /\ (retry_loop (Y:=Y) client req rest d w1).1.2 = []
              /\ (retry_loop (Y:=Y) client req rest d w1).2 <> inr None).
  { intros w1 d Hw1 Hne.
    destruct (IH d w1 (Hrest Hne)) as (k & Hk & Hsent & Hys & Hres).
    exists (S k). simpl. split; [lia|].
    rewrite Hsent, Hw1, <- app_assoc. done. }
  simpl.
  destruct (attempt_body_run (Y:=Y) client req attempt delay w)
    as (w1 & r & -> & Hw1 & Hcont).
  destruct r as [e|[d|response]].
  - destruct e; try (exists 1%nat; simpl; split; [lia|]; by rewrite Hw1).
    destruct (attempt =? max_retries - 1) eqn:Hlastone.
    + exists 1%nat. simpl. split; [lia|]. by rewrite Hw1.
    + apply Hnext; [done|]. by apply Z.eqb_neq.
  - apply Hnext; [done|]. specialize (Hcont d eq_refl). lia.
  - exists 1%nat. simpl. split; [lia|]. by rewrite Hw1.
Qed.

End RetryFacts.

(** X9. With an open client [_fetch_with_retry] sends the request at
    least once and at most three times, nothing else, and it ends with a
    response or an exception, never with [None]; with no client it
    returns [None] without sending anything. *)
Theorem fetch_with_retry_bounded {Y} (self : ProviderState) (req : Request)
    (w : World) :
  (forall client, _client self = Some client ->
     exists k : nat,
       (1 <= k <= 3)%nat
       /\ sent (SemanticScholar._fetch_with_retry (Y:=Y) self req w).1.1
          = sent w ++ replicate k req
       /\ (SemanticScholar._fetch_with_retry (Y:=Y) self req w).1.2 = []
       /\ (SemanticScholar._fetch_with_retry (Y:=Y) self req w).2 <> inr None)
  /\ (_client self = None ->
      SemanticScholar._fetch_with_retry (Y:=Y) self req w = (w, [], inr None)).
Proof.
  unfold SemanticScholar._fetch_with_retry. split.
  - intros client ->.
    apply (RetryFacts.retry_loop_run client req [0; 1; 2] 1 w). done.
  - by intros ->.
Qed.

Lemma fetch_with_retry_bounded_witness :
  exists k : nat,
    (1 <= k <= 3)%nat
    /\ sent (SemanticScholar._fetch_with_retry (Y:=Paper)
               (entered broken_client) sample_request world0).1.1
       = replicate k sample_request.
Proof.
  destruct (fetch_with_retry_bounded (Y:=Paper) (entered broken_client)
              sample_request world0) as [Hopen _].
  destruct (Hopen broken_client) as (k & Hk & Hsent & _); [reflexivity|].
  exists k. split; [exact Hk | exact Hsent].
Defined.

(** X10. Rate limiting: when every reply has the status 429,
    [_fetch_with_retry] sends the request three times, sleeping 1 second
    after the first reply and 2 seconds after the second, and then raises
    the status error; it logs a warning before each sleep and an error at
    the end. *)
Theorem fetch_with_retry_rate_limited {Y} (self : ProviderState)
    (client : Client) (req : Request) (w : World) :
  _client self = Some client -> always_status client 429 ->
  SemanticScholar._fetch_with_retry (Y:=Y) self req w
  = ({| sent := sent w ++ [req; req; req];
        log := log w ++ [LogWarning "Rate limited (429), retrying"; Sleep 1;
                         LogWarning "Rate limited (429), retrying"; Sleep 2;
                         LogError "Rate limited after 3 attempts"] |},
     [], inl (HTTPStatusError 429)).
Proof.
  intros Hc Hrate. unfold SemanticScholar._fetch_with_retry. rewrite Hc.
  change (seqZ 0 SemanticScholar.max_retries) with [0; 1; 2].
  unfold SemanticScholar.retry_loop, SemanticScholar.attempt_body,
    GenM.bind, GenM.get, GenM.logging, GenM.ret, raise_for_status. simpl.
  destruct (Hrate (length (sent w)) req) as (r1 & -> & H1).
  rewrite H1. simpl. rewrite length_app. simpl.
  destruct (Hrate (length (sent w) + 1)%nat req) as (r2 & -> & H2).
  rewrite H2. simpl. rewrite !length_app. simpl.
  destruct (Hrate (length (sent w) + 1 + 1)%nat req) as (r3 & -> & H3).
  rewrite H3. simpl. by rewrite <- !app_assoc.
Qed.

Lemma fetch_with_retry_rate_limited_witness :
  (SemanticScholar._fetch_with_retry (Y:=Paper) (entered rate_limited_client)
     sample_request world0).2
  = inl (HTTPStatusError 429).
Proof.
  rewrite (fetch_with_retry_rate_limited (entered rate_limited_client)
             rate_limited_client sample_request world0); [reflexivity|reflexivity|].
  intros n req. eexists. split; reflexivity.
Defined.

(** X11. Other failures: when every reply has one and the same status that
    is neither 2xx nor 429, [_fetch_with_retry] also sends the request
    three times, at once (no sleep, nothing logged), before it raises the
    status error; an exception of the transport that is not a status error
    is not retried: it is raised after the first request. *)
Theorem fetch_with_retry_errors {Y} (self : ProviderState)
    (client : Client) (req : Request) (w : World) :
  _client self = Some client ->
  (forall status,
     always_status client status ->
     status <> 429 -> ~ (200 <= status < 300) ->
     SemanticScholar._fetch_with_retry (Y:=Y) self req w
     = ({| sent := sent w ++ [req; req; req]; log := log w |},
        [], inl (HTTPStatusError status)))
  /\ (forall e,
        client (length (sent w)) req = inl e ->
        is_http_status_error e = false ->
        SemanticScholar._fetch_with_retry (Y:=Y) self req w
        = ({| sent := sent w ++ [req]; log := log w |}, [], inl e)).
Proof.
  intros Hc. unfold SemanticScholar._fetch_with_retry. rewrite Hc.
  change (seqZ 0 SemanticScholar.max_retries) with [0; 1; 2].
  split.
  - intros status Hstatus H429 H2xx.
    assert (Hraise : (status =? 429) = false) by (by apply Z.eqb_neq).
    assert (Hbad : (200 <=? status) && (status <? 300) = false).
    { apply andb_false_iff.
      destruct (decide (200 <= status)); [right|left]; lia. }
    unfold SemanticScholar.retry_loop, SemanticScholar.attempt_body,
      GenM.bind, GenM.get, GenM.raise, raise_for_status. simpl.
    destruct (Hstatus (length (sent w)) req) as (r1 & -> & H1).
    rewrite H1, Hraise, Hbad. simpl. rewrite length_app. simpl.
    destruct (Hstatus (length (sent w) + 1)%nat req) as (r2 & -> & H2).
    rewrite H2, Hraise, Hbad. simpl. rewrite !length_app. simpl.
    destruct (Hstatus (length (sent w) + 1 + 1)%nat req) as (r3 & -> & H3).
    rewrite H3, Hraise, Hbad. simpl. by rewrite <- !app_assoc.
  - intros e He Hnot.
    unfold SemanticScholar.retry_loop, SemanticScholar.attempt_body,
      GenM.bind, GenM.get. simpl. rewrite He. by destruct e.
Qed.

Lemma fetch_with_retry_errors_witness :
  SemanticScholar._fetch_with_retry (Y:=Paper) (entered broken_client)
    sample_request world0
  = ({| sent := [sample_request; sample_request; sample_request]; log := [] |},
     [], inl (HTTPStatusError 500))
  /\ SemanticScholar._fetch_with_retry (Y:=Paper) (entered unreachable_client)
       sample_request world0
     = ({| sent := [sample_request]; log := [] |}, [],
        inl (OtherError "connection refused")).
Proof.
  split.
  - destruct (fetch_with_retry_errors (Y:=Paper) (entered broken_client)
                broken_client sample_request world0) as [Hstatus _];
      [reflexivity|].
    apply (Hstatus 500); [|lia|lia].
    intros n req. eexists. split; reflexivity.
  - destruct (fetch_with_retry_errors (Y:=Paper) (entered unreachable_client)
                unreachable_client sample_request world0) as [_ Htransport];
      [reflexivity|].
    apply (Htransport (OtherError "connection refused")); reflexivity.
Defined.

(** ** Semantic Scholar's paged search, whatever the network does *)

Module PagedSearchFacts.

Import SemanticScholar.

Lemma fetch_with_retry_sent {Y} self req w :
  exists k : nat,
    (k <= 3)%nat
    /\ sent (_fetch_with_retry (Y:=Y) self req w).1.1 = sent w ++ replicate k req
    /\ (_fetch_with_retry (Y:=Y) self req w).1.2 = [].
Proof.
  unfold _fetch_with_retry. destruct (_client self) as [client|].
  - destruct (RetryFacts.retry_loop_run (Y:=Y) client req [0; 1; 2] 1 w)
      as (k & Hk & Hsent & Hys & _); [done|].
    exists k. simpl in Hk. split; [lia|]. done.
  - exists 0%nat. simpl. split; [lia|]. by rewrite app_nil_r.
Qed.

(** The page loop sends page requests only, each at most three times, and
    under the stream pipeline it yields nothing. *)
Lemma fetch_pages_loop_sent self mk cf (fuel i : nat) w :
  (i + fuel = 10)%nat ->
  exists reqs,
    sent (fetch_pages_loop self mk (stream_page cf) fuel
            (100 * Z.of_nat i) w).1.1
    = sent w ++ reqs
    /\ (length reqs <= 3 * (10 - i))%nat
    /\ Forall (fun r => exists j : nat, (j < 10)%nat /\ r = mk (100 * Z.of_nat j))
              reqs
    /\ (fetch_pages_loop self mk (stream_page cf) fuel
          (100 * Z.of_nat i) w).1.2 = [].
Proof.
  revert i w. induction fuel as [|fuel IH]; intros i w Hfuel.
  { simpl. unfold MAX_TOTAL_RESULTS.
    rewrite (proj2 (Z.ltb_ge _ _)) by lia.
    exists []. simpl. rewrite app_nil_r. split; [done|]. split; [lia|]. by split. }
  simpl. destruct (100 * Z.of_nat i <? MAX_TOTAL_RESULTS) eqn:Hlt.
  2:{ exists []. simpl. rewrite app_nil_r. split; [done|]. split; [lia|]. by split. }
  unfold MAX_TOTAL_RESULTS in Hlt. apply Z.ltb_lt in Hlt.
  unfold GenM.bind.
  destruct (fetch_with_retry_sent (Y:=Paper) self (mk (100 * Z.of_nat i)) w)
    as (k & Hk & Hsent & Hys).
  assert (Hreqs : Forall (fun r => exists j : nat,
                            (j < 10)%nat /\ r = mk (100 * Z.of_nat j))
                         (replicate k (mk (100 * Z.of_nat i)))).
  { apply Forall_replicate. exists i. split; [lia|]. by split. }
  destruct (_fetch_with_retry self (mk (100 * Z.of_nat i)) w)
    as [[w1 ys] [e|[data|]]]; simpl in Hsent, Hys; subst ys.
  - exists (replicate k (mk (100 * Z.of_nat i))). simpl.
    rewrite length_replicate. split; [done|]. split; [lia|]. by split.
  - rewrite SemanticScholarFacts.stream_page_run.
    destruct (first_error _parse_paper (body_records data)) as [e|].
    { exists (replicate k (mk (100 * Z.of_nat i))). simpl.
      rewrite length_replicate. split; [done|]. split; [lia|]. by split. }
    cbn [ending_of].
    replace (100 * Z.of_nat i + PAGE_SIZE) with (100 * Z.of_nat (S i))
      by (unfold PAGE_SIZE; lia).
    destruct (last_page (100 * Z.of_nat (S i)) data).
    + exists (replicate k (mk (100 * Z.of_nat i))). simpl.
      rewrite length_replicate. split; [done|]. split; [lia|]. by split.
    + destruct (IH (S i) w1) as (reqs & Hrun & Hlen & Hall & Hnone); [lia|].
      destruct (fetch_pages_loop self mk (stream_page cf) fuel
                  (100 * Z.of_nat (S i)) w1) as [[w2 ys2] r2]. simpl in *.
      exists (replicate k (mk (100 * Z.of_nat i)) ++ reqs).
      rewrite Hrun, Hsent, <- app_assoc, length_app, length_replicate.
      split; [done|]. split; [lia|]. split; [by apply Forall_app|done].
  - exists (replicate k (mk (100 * Z.of_nat i))). simpl.
    rewrite length_replicate. split; [done|]. split; [lia|]. by split.
Qed.

(** Nor does the author-papers loop yield anything, whatever the network
    does. *)
Lemma author_pages_yields self author_id (fuel : nat) offset w :
  (author_pages self author_id fuel offset w).1.2 = [].
Proof.
  revert offset w. induction fuel as [|fuel IH]; intros offset w; [done|].
  cbn [author_pages]. unfold GenM.bind at 1.
  destruct (fetch_with_retry_sent (Y:=Paper) self
              {| req_url :=
                   "https://api.semanticscholar.org/graph/v1/author/"
                   +:+ author_id +:+ "/papers?offset=" +:+ pretty offset
                   +:+ "&limit=100&fields=" +:+ API_FIELDS;
                 req_params := []; req_headers := api_headers self |} w)
    as (k & _ & _ & Hys).
  destruct (_fetch_with_retry self _ w) as [[w1 ys] [e|[resp|]]];
    simpl in Hys; subst ys; try done.
  cbv zeta. destruct (body_records resp) as [|r rs] eqn:Hrec; [done|].
  rewrite <- Hrec. unfold GenM.bind.
  rewrite SemanticScholarFacts.yield_parsed_run.
  destruct (first_error _parse_paper (body_records resp)); [done|].
  cbn [ending_of]. destruct (_ <? 100); [done|].
  destruct (_ >=? MAX_TOTAL_RESULTS); [done|].
  specialize (IH (offset + 100) w1).
  destruct (author_pages self author_id fuel (offset + 100) w1)
    as [[w2 ys2] r2]. simpl in *. by subst.
Qed.

Lemma page_request_well_formed self query_str cf ys ye (j : nat) :
  nonempty query_str = true -> (j < 10)%nat ->
  well_formed_page_request
    (page_request self query_str cf ys ye (100 * Z.of_nat j)).
Proof.
  intros Hq Hj. unfold well_formed_page_request, page_request. simpl.
  split; [done|]. split; [set_solver|].
  split; [exists query_str; split; [set_solver|done]|].
  exists j. split; [done|].
  right. right. right. rewrite !elem_of_app. right. right. by left.
Qed.

End PagedSearchFacts.

(** X12. Whatever the network does, [_search_api] sends at most 30
    requests, and each of them is a request to the search endpoint for a
    page of 100 at an offset 0, 100, ..., 900 with a non-empty query
    string: no search is sent with an empty query. *)
Theorem search_api_requests (self : ProviderState) (query : Query) (w : World) :
  exists reqs,
    sent (SemanticScholar._search_api self query w).1.1 = sent w ++ reqs
    /\ (length reqs <= 30)%nat
    /\ Forall well_formed_page_request reqs.
Proof.
  assert (Hnothing : exists reqs, sent w = sent w ++ reqs
            /\ (length reqs <= 30)%nat /\ Forall well_formed_page_request reqs).
  { exists []. rewrite app_nil_r. split; [done|]. split; [simpl; lia|done]. }
  unfold SemanticScholar._search_api.
  destruct (_client self); [|done].
  destruct (remove_citation_range query) as [rest|]; [|done].
  destruct (SemanticScholar._translate_query rest) as [[qs ys] ye].
  destruct (nonempty qs) eqn:Hqs; [|done]. simpl.
  unfold SemanticScholar.fetch_pages.
  destruct (PagedSearchFacts.fetch_pages_loop_sent self
              (SemanticScholar.page_request self qs
                 (extract_citation_range query) ys ye)
              (extract_citation_range query) 10 0 w)
    as (reqs & Hrun & Hlen & Hall & _); [done|].
  change SemanticScholar.page_fuel with 10%nat.
  change (100 * Z.of_nat 0) with 0 in Hrun.
  destruct (SemanticScholar.fetch_pages_loop _ _ _ _ _ _) as [[w1 ys1] r1].
  simpl in *. exists reqs. split; [done|]. split; [lia|].
  eapply Forall_impl; [exact Hall|]. intros r (j & Hj & ->).
  by apply PagedSearchFacts.page_request_well_formed.
Qed.

(** X13. No Semantic Scholar search yields a paper, whatever the query
    and whatever the network replies. [_parse_paper] ends by calling
    [Paper] with the keywords [pdf_url], [open_access] and
    [references_count], which are not fields of [Paper]: it returns [None]
    for a record without a title and raises for every other record, so
    that the paged search, the search by author and [search] itself can
    only end without a paper or with an exception. *)
Theorem semantic_scholar_yields_nothing (self : ProviderState)
    (query : Query) (author_name : string) (w : World) :
  (forall paper_data paper,
     SemanticScholar._parse_paper paper_data <> inr (Some paper))
  /\ (SemanticScholar._search_api self query w).1.2 = []
  /\ (SemanticScholar._search_by_author self author_name w).1.2 = []
  /\ (SemanticScholar.search self query w).1.2 = [].
Proof.
  assert (Hapi : forall q, (SemanticScholar._search_api self q w).1.2 = []).
  { intros q. unfold SemanticScholar._search_api.
    destruct (_client self); [|done].
    destruct (remove_citation_range q) as [rest|]; [|done].
    destruct (SemanticScholar._translate_query rest) as [[qs ys] ye].
    destruct (nonempty qs); [|done]. cbn [negb].
    unfold SemanticScholar.fetch_pages.
    destruct (PagedSearchFacts.fetch_pages_loop_sent self
                (SemanticScholar.page_request self qs
                   (extract_citation_range q) ys ye)
                (extract_citation_range q) 10 0 w)
      as (reqs & _ & _ & _ & Hnone); [done|].
    exact Hnone. }
  assert (Hauthor : forall name,
            (SemanticScholar._search_by_author self name w).1.2 = []).
  { intros name. unfold SemanticScholar._search_by_author.
    destruct (_client self); [|done].
    unfold GenM.bind.
    destruct (PagedSearchFacts.fetch_with_retry_sent (Y:=Paper) self
                {| req_url :=
                     "https://api.semanticscholar.org/graph/v1/author/search?query="
                     +:+ name
                     +:+ "&limit=10&fields=authorId,name,paperCount,citationCount";
                   req_params := [];
                   req_headers := SemanticScholar.api_headers self |} w)
      as (k & _ & _ & Hys).
    destruct (SemanticScholar._fetch_with_retry self _ w)
      as [[w1 ys] [e|[resp|]]]; simpl in Hys; subst ys; try done.
    destruct (body_authors resp) as [|a rest]; [done|].
    destruct (authorId _) as [[|ch id]|]; try done.
    pose proof (PagedSearchFacts.author_pages_yields self (String ch id)
                  (Z.to_nat (SemanticScholar.MAX_TOTAL_RESULTS / 100)) 0 w1)
      as Hnone.
    destruct (SemanticScholar.author_pages _ _ _ _ _) as [[w2 ys2] r2].
    simpl in *. by subst. }
  split; [by intros [|e|fields] paper|].
  split; [apply Hapi|]. split; [apply Hauthor|].
  unfold SemanticScholar.search.
  destruct (_client self) eqn:Hc; [|done].
  destruct (has_fulltext query); [done|].
  destruct (truthy_str (SemanticScholar._extract_author_only query)).
  - apply Hauthor.
  - unfold GenM.flat_map. specialize (Hapi query).
    destruct (SemanticScholar._search_api self query w) as [[w1 ys] r].
    simpl in *. by subst.
Qed.

(** A page with a titled record ends the search at its first request. *)
Example titled_record_ends_search :
  SemanticScholar.search (entered echo_client) (Combinators.title "bert")
    world0
  = ({| sent := [SemanticScholar.page_request (entered echo_client)
                   (SemanticScholar.dquote +:+ "bert" +:+ SemanticScholar.dquote)
                   None None None 0];
        log := [] |},
     [], inl SemanticScholar.unexpected_keyword).
Proof. vm_compute. reflexivity. Qed.

(** [best_author] is the first author with the largest citation count. *)
Lemma best_author_first_max (seen rest : list AuthorHit) (best : AuthorHit)
    (i : nat) :
  seen !! i = Some best ->
  (forall a, a ∈ seen ->
     default 0 (hit_citationCount a) <= default 0 (hit_citationCount best)) ->
  (forall j a, (j < i)%nat -> seen !! j = Some a ->
     default 0 (hit_citationCount a) < default 0 (hit_citationCount best)) ->
  exists i' : nat,
    (seen ++ rest) !! i' = Some (SemanticScholar.best_author best rest)
    /\ (forall a, a ∈ seen ++ rest ->
          default 0 (hit_citationCount a)
          <= default 0 (hit_citationCount
                          (SemanticScholar.best_author best rest)))
    /\ (forall j a, (j < i')%nat -> (seen ++ rest) !! j = Some a ->
          default 0 (hit_citationCount a)
          < default 0 (hit_citationCount
                         (SemanticScholar.best_author best rest))).
Proof.
  revert seen best i.
  induction rest as [|a rest IH]; intros seen best i Hi Hmax Hfirst.
  - rewrite app_nil_r. by exists i.
  - cbn [SemanticScholar.best_author].
    replace (seen ++ a :: rest) with ((seen ++ [a]) ++ rest)
      by (by rewrite <- app_assoc).
    destruct (Z.ltb_spec (default 0 (hit_citationCount best))
                         (default 0 (hit_citationCount a))) as [Hlt|Hge].
    + apply (IH (seen ++ [a]) a (length seen)).
      * by rewrite lookup_app_r, Nat.sub_diag by lia.
      * intros b [Hb|Hb]%elem_of_app.
        -- specialize (Hmax b Hb). lia.
        -- apply list_elem_of_singleton in Hb as ->. lia.
      * intros j b Hj Hb. rewrite lookup_app_l in Hb by lia.
        apply list_elem_of_lookup_2 in Hb. specialize (Hmax b Hb). lia.
    + apply (IH (seen ++ [a]) best i).
      * apply lookup_lt_Some in Hi as Hlt. by rewrite lookup_app_l.
      * intros b [Hb|Hb]%elem_of_app; [by apply Hmax|].
        apply list_elem_of_singleton in Hb as ->. lia.
      * intros j b Hj Hb. apply lookup_lt_Some in Hi as Hlt.
        rewrite lookup_app_l in Hb by lia. by apply (Hfirst j).
Qed.

Lemma best_author_unique (a : AuthorHit) (rest : list AuthorHit)
    (i : nat) (b : AuthorHit) :
  (a :: rest) !! i = Some b ->
  (forall a', a' ∈ a :: rest ->
     default 0 (hit_citationCount a') <= default 0 (hit_citationCount b)) ->
  (forall j a', (j < i)%nat -> (a :: rest) !! j = Some a' ->
     default 0 (hit_citationCount a') < default 0 (hit_citationCount b)) ->
  SemanticScholar.best_author a rest = b.
Proof.
  intros Hi Hmax Hfirst.
  destruct (best_author_first_max [a] rest a 0) as (i' & Hi' & Hmax' & Hfirst').
  { done. }
  { intros a' ->%list_elem_of_singleton. lia. }
  { intros j a' Hj. lia. }
  change ([a] ++ rest) with (a :: rest) in *.
  destruct (Nat.lt_trichotomy i i') as [Hlt|[->|Hgt]].
  - specialize (Hfirst' i b Hlt Hi).
    apply list_elem_of_lookup_2 in Hi'. specialize (Hmax _ Hi'). lia.
  - congruence.
  - specialize (Hfirst i' _ Hgt Hi').
    apply list_elem_of_lookup_2 in Hi. specialize (Hmax' _ Hi). lia.
Qed.

(** X15. A search for a lone author field, all requests succeeding. With
    no author found, only the author search is sent and the search ends.
    Otherwise the author taken is the first of the authors found that has
    the largest citation count (a missing count is 0), and, if that author
    has an id, the author's papers are requested page by page, at offsets
    0, 100, 200, ..., at most ten pages. The search stops at the first
    page one of whose records makes the record parser raise, and ends with
    that exception; otherwise after the first page that is empty or has
    fewer than 100 records, or when the next offset reaches 1000 (no total
    is consulted). *)
Theorem search_by_author_pages (self : ProviderState) (client : Client)
    (author_name : string) (w : World) :
  _client self = Some client -> always_ok client ->
  (body_authors (reply client (length (sent w))
                   (author_search_req self author_name)) = [] ->
   SemanticScholar._search_by_author self author_name w
   = ({| sent := sent w ++ [author_search_req self author_name];
         log := log w |}, [], inr tt))
  /\ (forall (i : nat) (b : AuthorHit) (author_id : string),
        body_authors (reply client (length (sent w))
                        (author_search_req self author_name)) !! i = Some b ->
        (forall a,
           a ∈ body_authors (reply client (length (sent w))
                               (author_search_req self author_name)) ->
           default 0 (hit_citationCount a)
           <= default 0 (hit_citationCount b)) ->
        (forall j a, (j < i)%nat ->
           body_authors (reply client (length (sent w))
                           (author_search_req self author_name)) !! j
           = Some a ->
           default 0 (hit_citationCount a)
           < default 0 (hit_citationCount b)) ->
        authorId b = Some author_id ->
        nonempty author_id = true ->
        exists k : nat,
          (1 <= k <= 10)%nat
          /\ sent (SemanticScholar._search_by_author self author_name w).1.1
             = (sent w ++ [author_search_req self author_name])
               ++ map (author_page_req self author_id) (seq 0 k)
          /\ (SemanticScholar._search_by_author self author_name w).2
             = ending_of
                 (first_error SemanticScholar._parse_paper
                    (body_records
                       (reply client (length (sent w) + 1 + (k - 1))
                          (author_page_req self author_id (k - 1)))))
          /\ (first_error SemanticScholar._parse_paper
                (body_records
                   (reply client (length (sent w) + 1 + (k - 1))
                      (author_page_req self author_id (k - 1)))) = None ->
              author_page_ends (k - 1)
                (reply client (length (sent w) + 1 + (k - 1))
                   (author_page_req self author_id (k - 1))))
          /\ (forall j, (j < k - 1)%nat ->
                first_error SemanticScholar._parse_paper
                  (body_records
                     (reply client (length (sent w) + 1 + j)
                        (author_page_req self author_id j))) = None
                /\ ~ author_page_ends j
                       (reply client (length (sent w) + 1 + j)
                          (author_page_req self author_id j)))).
Proof.
  intros Hc Hok.
  assert (Hunfold : SemanticScholar._search_by_author self author_name w
    = match body_authors (reply client (length (sent w))
                            (author_search_req self author_name)) with
      | [] => ({| sent := sent w ++ [author_search_req self author_name];
                  log := log w |}, [], inr tt)
      | a :: rest =>
          match authorId (SemanticScholar.best_author a rest) with
          | Some (String c s) =>
              SemanticScholar.author_pages self (String c s) 10 0
                {| sent := sent w ++ [author_search_req self author_name];
                   log := log w |}
          | _ => ({| sent := sent w ++ [author_search_req self author_name];
                     log := log w |}, [], inr tt)
          end
      end).
  { unfold SemanticScholar._search_by_author. rewrite Hc.
    unfold GenM.bind at 1. fold (author_search_req self author_name).
    rewrite (SemanticScholarFacts.fetch_with_retry_ok self client Hc Hok).
    destruct (body_authors _) as [|a rest]; [done|].
    destruct (authorId _) as [[|c s]|]; try done.
    change (Z.to_nat (SemanticScholar.MAX_TOTAL_RESULTS / 100)) with 10%nat.
    destruct (SemanticScholar.author_pages _ _ _ _ _) as [[w2 ys2] r2]. done. }
  rewrite Hunfold. split.
  - by intros ->.
  - intros i b author_id Hi Hmax Hfirst Hid Hne.
    destruct (body_authors _) as [|a rest]; [done|].
    rewrite (best_author_unique a rest i b Hi Hmax Hfirst), Hid.
    destruct author_id as [|c s]; [done|].
    set (w1 := {| sent := sent w ++ [author_search_req self author_name];
                  log := log w |}).
    destruct (SemanticScholarFacts.author_pages_pages self client Hc Hok
                w1 (String c s) 10 0 w1)
      as (k & Hk & Hrun & Hend & Hbefore);
      [done|lia|by rewrite app_nil_r|].
    change (100 * Z.of_nat 0) with 0 in Hrun.
    assert (Hlen : length (sent w1) = (length (sent w) + 1)%nat).
    { unfold w1. simpl. rewrite length_app. done. }
    rewrite Hlen in Hrun, Hend, Hbefore. rewrite Hrun.
    exists k. split; [lia|]. split; [done|]. split; [done|]. split; [done|].
    intros j Hj. apply Hbefore. lia.
Qed.

Lemma search_by_author_pages_witness :
  exists k : nat,
    (1 <= k <= 10)%nat
    /\ sent (SemanticScholar._search_by_author (entered author_client)
               "devlin" world0).1.1
       = [author_search_req (entered author_client) "devlin"]
         ++ map (author_page_req (entered author_client) "2") (seq 0 k)
    /\ (SemanticScholar._search_by_author (entered author_client)
          "devlin" world0).2 = inl SemanticScholar.unexpected_keyword.
Proof.
  destruct (search_by_author_pages (entered author_client) author_client
              "devlin" world0) as [_ Hpages]; [reflexivity| |].
  { intros n req. eexists. split; [reflexivity|]. simpl. lia. }
  destruct (Hpages 1%nat {| authorId := Some "2"; hit_citationCount := Some 90 |}
              "2") as (k & Hk & Hsent & Hres & _).
  - reflexivity.
  - intros a Ha. simpl in Ha.
    repeat (apply elem_of_cons in Ha as [->|Ha]; [simpl; lia|]).
    by apply not_elem_of_nil in Ha.
  - intros [|j] a Hj Ha; [|lia]. injection Ha as <-. simpl. lia.
  - reflexivity.
  - reflexivity.
  - exists k. split; [exact Hk|]. split; [exact Hsent|exact Hres].
Defined.

(** ** [SemanticScholar._normalize_paper_id] *)

Example normalize_arxiv_doi :
  SemanticScholar._normalize_paper_id "10.48550/arXiv.1706.03762"
  = "ARXIV:1706.03762".
Proof. reflexivity. Qed.

Example normalize_plain_doi :
  SemanticScholar._normalize_paper_id "10.1038/nature14539"
  = "DOI:10.1038/nature14539".
Proof. reflexivity. Qed.

Lemma prefix_append (p t : string) : String.prefix p (p +:+ t) = true.
Proof.
  induction p as [|a p IH].
  - by destruct t.
  - change (String a p +:+ t) with (String a (p +:+ t)). cbn [String.prefix].
    by destruct (Ascii.ascii_dec a a).
Qed.

Lemma has_id_prefix_arxiv (t : string) :
  SemanticScholar.has_id_prefix ("ARXIV:" +:+ t) = true.
Proof.
  unfold SemanticScholar.has_id_prefix.
  by rewrite (prefix_append "ARXIV:" t), orb_true_r.
Qed.

Lemma has_id_prefix_doi (t : string) :
  SemanticScholar.has_id_prefix ("DOI:" +:+ t) = true.
Proof.
  unfold SemanticScholar.has_id_prefix.
  by rewrite (prefix_append "DOI:" t).
Qed.

(** X16. [_normalize_paper_id] is idempotent, and an identifier it returns
    with a slash in it always carries one of the prefixes [DOI:],
    [ARXIV:], [PMID:] or [CorpusId:]. *)
Theorem normalize_paper_id_idempotent (paper_id : string) :
  SemanticScholar._normalize_paper_id
    (SemanticScholar._normalize_paper_id paper_id)
  = SemanticScholar._normalize_paper_id paper_id
  /\ (SemanticScholar.contains "/"
        (SemanticScholar._normalize_paper_id paper_id) = true ->
      SemanticScholar.has_id_prefix
        (SemanticScholar._normalize_paper_id paper_id) = true).
Proof.
  assert (Hfix : forall x,
            String.prefix "10.48550/arXiv." x = false ->
            SemanticScholar.has_id_prefix x = true ->
            SemanticScholar._normalize_paper_id x = x).
  { intros x Ha Hp. unfold SemanticScholar._normalize_paper_id.
    by rewrite Ha, Hp, andb_false_r. }
  destruct (String.prefix "10.48550/arXiv." paper_id) eqn:Harxiv.
  - assert (SemanticScholar._normalize_paper_id paper_id
            = "ARXIV:" +:+ replace "10.48550/arXiv." "" paper_id) as ->.
    { unfold SemanticScholar._normalize_paper_id. by rewrite Harxiv. }
    split; [apply Hfix; [reflexivity|]|intros _]; apply has_id_prefix_arxiv.
  - destruct (SemanticScholar.contains "/" paper_id
              && negb (SemanticScholar.has_id_prefix paper_id)) eqn:Hdoi.
    + assert (SemanticScholar._normalize_paper_id paper_id
              = "DOI:" +:+ paper_id) as ->.
      { unfold SemanticScholar._normalize_paper_id. by rewrite Harxiv, Hdoi. }
      split; [apply Hfix; [reflexivity|]|intros _]; apply has_id_prefix_doi.
    + assert (SemanticScholar._normalize_paper_id paper_id = paper_id) as ->.
      { unfold SemanticScholar._normalize_paper_id. by rewrite Harxiv, Hdoi. }
      split.
      * unfold SemanticScholar._normalize_paper_id. by rewrite Harxiv, Hdoi.
      * intros Hslash. rewrite Hslash in Hdoi. simpl in Hdoi.
        by apply negb_false_iff in Hdoi.
Qed.

(** ** The fulltext fallback *)

Lemma in_index_nil paper : in_index [] paper = false.
Proof.
  unfold in_index. destruct (or_str _ _) as [id|]; [|done].
  by rewrite andb_false_r.
Qed.

(** The loop of [_search_with_fulltext_filter] keeps the papers the index
    knows, up to [max_results - count] of them. *)
Lemma filter_loop_yields (ids : list string) (max_results : Z)
    (source : list Paper) (count : Z) :
  (FulltextFallbackMixin.filter_loop (list_to_set ids) max_results count
     source).1
  = firstn (Z.to_nat (max_results - count))
      (List.filter (in_index ids) source).
Proof.
  revert count. induction source as [|paper rest IH]; intros count.
  - by rewrite firstn_nil.
  - cbn [FulltextFallbackMixin.filter_loop List.filter].
    destruct (count >=? max_results) eqn:Hfull.
    { apply Z.geb_le in Hfull.
      replace (Z.to_nat (max_results - count)) with 0%nat by lia. done. }
    assert (Hlt : count < max_results)
      by (destruct (Z.geb_spec count max_results); [done|lia]).
    assert (Htest : truthy_str (or_str (doi paper) (extras paper !! "paper_id"))
              && bool_decide
                   (default "" (or_str (doi paper) (extras paper !! "paper_id"))
                    ∈ (list_to_set ids : gset string))
              = in_index ids paper).
    { unfold in_index. destruct (or_str _ _) as [[|c s]|]; [done| |done].
      simpl. apply bool_decide_ext. by rewrite elem_of_list_to_set. }
    rewrite Htest. destruct (in_index ids paper).
    + specialize (IH (count + 1)).
      destruct (FulltextFallbackMixin.filter_loop _ _ (count + 1) rest)
        as [out drained].
      simpl in *. rewrite IH.
      replace (Z.to_nat (max_results - count))
        with (S (Z.to_nat (max_results - (count + 1)))) by lia.
      done.
    + apply IH.
Qed.

(** X17. For a query with a non-empty fulltext term and something left
    once the fulltext leaves are taken out, [_search_with_fulltext_filter]
    yields, of the papers [_search_api] yields for the remaining query and
    three times [max_results], those whose DOI (or else [paper_id]) the
    local index returns for the term, in their order and cut off after
    [max_results] of them. *)
Theorem fulltext_filter_yields
    (_search_api : Query -> Z -> Gen Paper unit)
    (index_search : string -> Z -> list string)
    (query base : Query) (term : string) (max_results : Z) (w : World) :
  extract_fulltext_term query = Some term ->
  nonempty term = true ->
  remove_fulltext query = Some base ->
  (FulltextFallbackMixin._search_with_fulltext_filter _search_api
     index_search query max_results w).1.2
  = firstn (Z.to_nat max_results)
      (List.filter (in_index (index_search term 10000))
         (_search_api base (max_results * 3) w).1.2).
Proof.
  intros Hterm Hne Hbase.
  unfold FulltextFallbackMixin._search_with_fulltext_filter.
  rewrite Hterm, Hbase. destruct term as [|c term]; [done|].
  cbn [truthy_str negb default from_option id].
  case_bool_decide as Hempty.
  - assert (Hids : index_search (String c term) 10000 = []).
    { destruct (index_search (String c term) 10000) as [|i ids]; [done|].
      assert (Hi : i ∈ (list_to_set (i :: ids) : gset string)) by set_solver.
      rewrite Hempty in Hi. set_solver. }
    rewrite Hids. simpl.
    induction ((_search_api base (max_results * 3) w).1.2) as [|p l IHl];
      simpl; [by rewrite firstn_nil|].
    by rewrite in_index_nil.
  - destruct (_search_api base (max_results * 3) w) as [[w1 source] ending].
    pose proof (filter_loop_yields (index_search (String c term) 10000)
                  max_results source 0) as Hloop.
    destruct (FulltextFallbackMixin.filter_loop _ _ 0 source) as [out drained].
    simpl in *. by rewrite Hloop, Z.sub_0_r.
Qed.

Lemma fulltext_filter_yields_witness :
  (FulltextFallbackMixin._search_with_fulltext_filter three_papers_api
     attention_index fulltext_query 1 world0).1.2
  = firstn (Z.to_nat 1)
      (List.filter (in_index (attention_index "self-attention" 10000))
         (three_papers_api (Combinators.title "attention") (1 * 3) world0).1.2).
Proof.
  apply (fulltext_filter_yields three_papers_api attention_index
           fulltext_query (Combinators.title "attention") "self-attention"
           1 world0); reflexivity.
Defined.

(** ** [take] *)

Lemma take_loop_run {T} (n : Z) (source : list T) (count : Z) :
  0 <= count ->
  Search.take_loop n count source
  = (firstn (Z.to_nat (n - count)) source,
     bool_decide (source = [] \/ count + Z.of_nat (length source) <= n)).
Proof.
  revert count. induction source as [|item rest IH]; intros count Hcount.
  - rewrite firstn_nil. cbn [Search.take_loop].
    by rewrite bool_decide_eq_true_2; [|left].
  - cbn [Search.take_loop]. destruct (Z.geb_spec count n) as [Hfull|Hroom].
    + replace (Z.to_nat (n - count)) with 0%nat by lia.
      rewrite bool_decide_eq_false_2; [done|].
      intros [?|Hle]; [done|]. simpl in Hle. lia.
    + rewrite IH by lia.
      replace (Z.to_nat (n - count)) with (S (Z.to_nat (n - (count + 1))))
        by lia.
      cbn [firstn]. f_equal. apply bool_decide_ext.
      split.
      * intros [->|Hle]; right; simpl in *; lia.
      * intros [?|Hle]; [done|]. right. simpl in Hle. lia.
Qed.

(** X18. [take(n, aiter)] yields the first [n] items of the source and no
    others. It ends with the exception of the source exactly when the
    source raises after at most [n] items (after none, if [n] is
    negative): to find the end of its source it asks for one item more
    than it yields, so a source that raises right after its [n]-th item
    makes [take] raise as well, while one that raises later does not. *)
Theorem take_first_n {T A} (n : Z) (items : list T) (ending : Exception + A)
    (e : Exception) :
  (Search.take n (items, ending)).1 = firstn (Z.to_nat n) items
  /\ ((Search.take n (items, ending)).2 = inl e
      <-> ending = inl e /\ Z.of_nat (length items) <= Z.max 0 n).
Proof.
  unfold Search.take. cbn [fst snd].
  rewrite take_loop_run by lia. rewrite Z.sub_0_r. cbn [fst snd].
  split; [done|].
  case_bool_decide as Hd.
  - assert (Z.of_nat (length items) <= Z.max 0 n).
    { destruct Hd as [->|Hle]; simpl; lia. }
    destruct ending as [e'|a]; split.
    + by intros [= ->].
    + by intros [[= ->] _].
    + done.
    + by intros [? _].
  - split; [done|]. intros [_ Hle]. destruct Hd.
    destruct items as [|item rest]; [by left|right]. simpl in *. lia.
Qed.

(** ** OpenAlex: alternatives and the single request *)

Lemma collect_params_Or_And (c : Ctx) (l r : Query) acc :
  OpenAlex._collect_params (plug c (Or l r)) acc
  = OpenAlex._collect_params (plug c (And l r)) acc.
Proof.
  revert acc. induction c as [|c IH q|q c IH|c IH q|q c IH|c IH];
    intros acc; simpl; try done.
  - by rewrite IH.
  - by rewrite IH.
  - by rewrite IH.
Qed.

(** X19. The OpenAlex translator does not tell alternatives from
    conjunctions: an Or node, wherever it sits in the query, gives the
    search string and the filter string of the And of its operands, and
    the search sends the same request and ends in the same way. *)
Theorem openalex_or_searched_as_and (c : Ctx) (l r : Query)
    (mailto : option string) (self : ProviderState) (max_results : Z)
    (w : World) :
  OpenAlex._build_params (plug c (Or l r))
  = OpenAlex._build_params (plug c (And l r))
  /\ OpenAlex.search mailto self (plug c (Or l r)) max_results w
     = OpenAlex.search mailto self (plug c (And l r)) max_results w.
Proof.
  assert (Hparams : OpenAlex._build_params (plug c (Or l r))
                    = OpenAlex._build_params (plug c (And l r))).
  { unfold OpenAlex._build_params. by rewrite collect_params_Or_And. }
  split; [done|]. unfold OpenAlex.search. by rewrite Hparams.
Qed.

(** A loop over the parsed records yields the papers of the records
    before the first on which the parser raises, and ends with the
    exception of that record, if there is one. *)
Lemma parsed_records_run (parse : RawRecord -> Exception + option Paper)
    (records : list RawRecord) (w : World) :
  GenM.for_each records
    (fun record => match parse record with
                   | inl e => GenM.raise e
                   | inr (Some paper) => GenM.yield paper
                   | inr None => GenM.ret tt
                   end) w
  = (w, parsed_before_error parse records,
     ending_of (first_error parse records)).
Proof.
  revert w. induction records as [|record records IH]; intros w; [done|].
  cbn [GenM.for_each parsed_before_error first_error]. unfold GenM.bind.
  destruct (parse record) as [e|[paper|]]; simpl; [done|..];
    by rewrite IH.
Qed.

(** X20. An initialized OpenAlex provider sends exactly one request per
    search, whatever the query and however large [max_results]: there is no
    second page. The request goes to the works endpoint and asks for
    [min(max_results, 200)] results. If the reply is a 2xx response, the
    search yields the papers of the titled works of that one response, in
    their order, up to the first work on which [_parse_work] raises, and
    ends with the exception of that work if there is one; if the reply is
    not a 2xx response it raises without yielding anything. *)
Theorem openalex_search_single_request (mailto : option string)
    (self : ProviderState) (client : Client) (query : Query)
    (max_results : Z) (w : World) :
  _client self = Some client ->
  exists req,
    sent (OpenAlex.search mailto self query max_results w).1.1
    = sent w ++ [req]
    /\ req_url req = OpenAlex.BASE_URL
    /\ ("per_page", pretty (Z.min max_results 200)) ∈ req_params req
    /\ match client (length (sent w)) req with
       | inr response =>
           if (200 <=? status_code response) && (status_code response <? 300)
           then (OpenAlex.search mailto self query max_results w).1.2
                = parsed_before_error OpenAlex._parse_work
                    (body_records response)
                /\ (OpenAlex.search mailto self query max_results w).2
                   = ending_of (first_error OpenAlex._parse_work
                                  (body_records response))
           else (OpenAlex.search mailto self query max_results w).1.2 = []
                /\ (OpenAlex.search mailto self query max_results w).2
                   = inl (HTTPStatusError (status_code response))
       | inl e =>
           (OpenAlex.search mailto self query max_results w).1.2 = []
           /\ (OpenAlex.search mailto self query max_results w).2 = inl e
       end.
Proof.
  intros Hclient.
  destruct (OpenAlex._build_params query) as [search_terms filter_str] eqn:Hbp.
  set (req := {| req_url := OpenAlex.BASE_URL;
                 req_params :=
                   [("per_page", pretty (Z.min max_results 200))]
                   ++ (if truthy_str mailto
                       then [("mailto", default "" mailto)] else [])
                   ++ (if nonempty search_terms
                       then [("search", search_terms)] else [])
                   ++ (if nonempty filter_str
                       then [("filter", filter_str)] else []);
                 req_headers := [] |}).
  set (w1 := {| sent := sent w ++ [req]; log := log w |}).
  assert (Hrun : OpenAlex.search mailto self query max_results w
            = match client (length (sent w)) req with
              | inl e => (w1, [], inl e)
              | inr response =>
                  if (200 <=? status_code response)
                     && (status_code response <? 300)
                  then (w1, parsed_before_error OpenAlex._parse_work
                              (body_records response),
                        ending_of (first_error OpenAlex._parse_work
                                     (body_records response)))
                  else (w1, [], inl (HTTPStatusError (status_code response)))
              end).
  { unfold OpenAlex.search. rewrite Hclient, Hbp.
    unfold GenM.bind, GenM.get. fold req. fold w1.
    destruct (client (length (sent w)) req) as [e|response]; [done|].
    unfold raise_for_status.
    destruct ((200 <=? status_code response) && (status_code response <? 300));
      [|done].
    unfold GenM.ret. by rewrite parsed_records_run. }
  exists req. rewrite Hrun.
  destruct (client (length (sent w)) req) as [e|response].
  { repeat split; by left. }
  destruct ((200 <=? status_code response) && (status_code response <? 300));
    repeat split; by left.
Qed.

Lemma openalex_search_single_request_witness :
  exists req,
    sent (OpenAlex.search None (entered null_location_client) negated_query 500
            world0).1.1 = sent world0 ++ [req]
    /\ req_url req = OpenAlex.BASE_URL
    /\ ("per_page", pretty (Z.min 500 200)) ∈ req_params req
    /\ match null_location_client (length (sent world0)) req with
       | inr response =>
           if (200 <=? status_code response) && (status_code response <? 300)
           then (OpenAlex.search None (entered null_location_client) negated_query 500
                   world0).1.2
                = parsed_before_error OpenAlex._parse_work
                    (body_records response)
                /\ (OpenAlex.search None (entered null_location_client) negated_query
                      500 world0).2
                   = ending_of (first_error OpenAlex._parse_work
                                  (body_records response))
           else (OpenAlex.search None (entered null_location_client) negated_query 500
                   world0).1.2 = []
                /\ (OpenAlex.search None (entered null_location_client) negated_query
                      500 world0).2
                   = inl (HTTPStatusError (status_code response))
       | inl e =>
           (OpenAlex.search None (entered null_location_client) negated_query 500
              world0).1.2 = []
           /\ (OpenAlex.search None (entered null_location_client) negated_query 500
                 world0).2 = inl e
       end.
Proof.
  apply (openalex_search_single_request None (entered null_location_client)
           null_location_client negated_query 500 world0).
  reflexivity.
Defined.

(** The work with a [null] location ends the search after the first
    paper. *)
Example openalex_null_location :
  (OpenAlex.search None (entered null_location_client) negated_query 500
     world0).1.2 = [Samples.bert]
  /\ (OpenAlex.search None (entered null_location_client) negated_query 500
        world0).2 = inl null_location.
Proof. vm_compute. by split. Qed.

(** ** Scopus: what is translated and what is sent *)

Lemma translate_query_defined (query : Query) :
  if scopus_supported query
  then exists query_str, Scopus._translate_query query = inr query_str
  else exists msg, Scopus._translate_query query = inl (ValueError msg).
Proof.
  induction query as [f v|l IHl r IHr|l IHl r IHr|o IHo|s e|mn mx];
    cbn [scopus_supported Scopus._translate_query].
  - unfold scopus_field.
    repeat (destruct (String.eqb f _); [cbn [orb]; rewrite ?orb_true_r; eauto|]).
    simpl. eauto.
  - destruct (scopus_supported l); destruct IHl as [sl ->]; [|simpl; eauto].
    destruct (scopus_supported r); destruct IHr as [sr ->]; simpl; eauto.
  - destruct (scopus_supported l); destruct IHl as [sl ->]; [|simpl; eauto].
    destruct (scopus_supported r); destruct IHr as [sr ->]; simpl; eauto.
  - destruct (scopus_supported o); destruct IHo as [so ->]; eauto.
  - repeat case_match; eauto.
  - eauto.
Qed.

(** X21. [Scopus._translate_query] returns a query string exactly for the
    queries built from title, author, abstract, keyword, fulltext and doi
    fields, year ranges, And, Or and Not; a field of another name or a
    citation range anywhere in the query makes it raise [ValueError]. *)
Theorem scopus_translate_supported (query : Query) :
  if scopus_supported query
  then exists query_str, Scopus._translate_query query = inr query_str
  else exists msg, Scopus._translate_query query = inl (ValueError msg).
Proof.
  apply translate_query_defined.
Qed.

(** X22. An initialized Scopus provider sends nothing unless it has an
    API key and the query is one it can translate: otherwise its search
    raises [ValueError] before any request. When it does search it sends
    exactly one request, to the Scopus endpoint, with the key in the
    [X-ELS-APIKey] header and a count of [min(max_results, 25)]. *)
Theorem scopus_search_requests (self : ProviderState) (client : Client)
    (query : Query) (max_results : Z) (w : World) :
  _client self = Some client ->
  if truthy_str (_api_key self) && scopus_supported query
  then exists req,
         sent (Scopus.search self query max_results w).1.1 = sent w ++ [req]
         /\ req_url req = Scopus.BASE_URL
         /\ ("X-ELS-APIKey", default "" (_api_key self)) ∈ req_headers req
         /\ ("count", pretty (Z.min max_results 25)) ∈ req_params req
  else exists msg,
         Scopus.search self query max_results w = (w, [], inl (ValueError msg)).
Proof.
  intros Hclient. unfold Scopus.search. rewrite Hclient.
  destruct (truthy_str (_api_key self)); cbn [negb andb]; [|eauto].
  pose proof (translate_query_defined query) as Htr.
  destruct (scopus_supported query).
  - destruct Htr as [query_str ->].
    set (req := {| req_url := Scopus.BASE_URL;
                   req_params := [("query", query_str);
                                  ("count", pretty (Z.min max_results 25));
                                  ("start", "0"); ("view", "COMPLETE")];
                   req_headers :=
                     [("X-ELS-APIKey", default "" (_api_key self));
                      ("Accept", "application/json")] |}).
    exists req. unfold GenM.bind, GenM.get.
    assert (Hparts : req_url req = Scopus.BASE_URL
              /\ ("X-ELS-APIKey", default "" (_api_key self)) ∈ req_headers req
              /\ ("count", pretty (Z.min max_results 25)) ∈ req_params req).
    { split; [done|]. split; [by left|]. right. by left. }
    destruct (client (length (sent w)) req) as [e|response]; [done|].
    unfold raise_for_status.
    destruct ((200 <=? status_code response) && (status_code response <? 300));
      [|done].
    unfold GenM.ret. by rewrite parsed_records_run.
  - destruct Htr as [msg ->]. eauto.
Qed.

Lemma scopus_search_requests_witness :
  exists msg,
    Scopus.search (entered echo_client) (Combinators.title "bert") 10 world0
    = (world0, [], inl (ValueError msg)).
Proof.
  apply (scopus_search_requests (entered echo_client) echo_client
           (Combinators.title "bert") 10 world0).
  reflexivity.
Defined.

(** ** [OpenAlex._reconstruct_abstract] *)

Module AbstractFacts.

Import OpenAlex.

Lemma insert_by_pos_Permutation x l : insert_by_pos x l ≡ₚ x :: l.
Proof.
  induction l as [|y l IH]; simpl; [done|].
  destruct (x.1 <=? y.1); [done|]. by rewrite IH, Permutation_swap.
Qed.

Lemma sort_by_pos_Permutation l : sort_by_pos l ≡ₚ l.
Proof.
  induction l as [|x l IH]; simpl; [done|].
  by rewrite insert_by_pos_Permutation, IH.
Qed.

Lemma insert_by_pos_sorted x l :
  StronglySorted by_pos l -> StronglySorted by_pos (insert_by_pos x l).
Proof.
  induction 1 as [|y l Hl IH Hy]; simpl.
  - repeat constructor.
  - destruct (Z.leb_spec x.1 y.1) as [Hle|Hgt].
    + constructor; [by constructor|].
      constructor; [done|].
      eapply Forall_impl; [exact Hy|]. unfold by_pos. intros z Hz. lia.
    + constructor; [done|].
      rewrite insert_by_pos_Permutation. constructor; [|done].
      unfold by_pos. lia.
Qed.

Lemma sort_by_pos_sorted l : StronglySorted by_pos (sort_by_pos l).
Proof.
  induction l as [|x l IH]; simpl; [constructor|].
  by apply insert_by_pos_sorted.
Qed.

Lemma numbered_sorted (ws : list string) (k : nat) :
  StronglySorted by_pos (imap (fun i w => (Z.of_nat (k + i), w)) ws).
Proof.
  revert k. induction ws as [|w ws IH]; intros k; simpl; [constructor|].
  constructor.
  - specialize (IH (S k)).
    erewrite imap_ext; [exact IH|]. intros i x _. simpl. f_equal. lia.
  - apply Forall_forall. intros [z v] Hin.
    apply elem_of_lookup_imap in Hin as (i & y & Heq & _).
    injection Heq as -> ->. unfold by_pos. simpl. lia.
Qed.

Lemma numbered_lookup (ws : list string) z v :
  (z, v) ∈ numbered ws -> exists i : nat, z = Z.of_nat i /\ ws !! i = Some v.
Proof.
  unfold numbered. intros Hin.
  apply elem_of_lookup_imap in Hin as (i & y & Heq & Hi).
  injection Heq as -> ->. eauto.
Qed.

End AbstractFacts.

(** X23. [_reconstruct_abstract] undoes the inversion of a text: if the
    inverted index lists every word of a sequence of words at exactly the
    positions where it occurs (in whatever order its items and their
    positions come), the abstract returned is the sequence of words joined
    by single spaces. *)
Theorem reconstruct_abstract_round_trip
    (inverted_index : list (string * list Z)) (ws : list string) :
  OpenAlex.positioned_words inverted_index ≡ₚ numbered ws ->
  OpenAlex._reconstruct_abstract inverted_index = join " " ws.
Proof.
  intros Hperm. unfold OpenAlex._reconstruct_abstract.
  assert (Hsorted : OpenAlex.sort_by_pos
                      (OpenAlex.positioned_words inverted_index)
                    = numbered ws).
  { apply (StronglySorted_unique_strong by_pos).
    - intros [z1 v1] [z2 v2] H1 H2 Hle Hge.
      rewrite AbstractFacts.sort_by_pos_Permutation, Hperm in H1.
      apply AbstractFacts.numbered_lookup in H1 as (i1 & -> & Hv1).
      apply AbstractFacts.numbered_lookup in H2 as (i2 & -> & Hv2).
      unfold by_pos in Hle, Hge. simpl in Hle, Hge.
      assert (i1 = i2) as -> by lia. congruence.
    - apply AbstractFacts.sort_by_pos_sorted.
    - pose proof (AbstractFacts.numbered_sorted ws 0) as Hs.
      erewrite imap_ext in Hs; [exact Hs|]. done.
    - by rewrite AbstractFacts.sort_by_pos_Permutation. }
  rewrite Hsorted. f_equal. unfold numbered.
  clear. generalize 0%nat as k.
  assert (Hgen : forall (k : nat) (l : list string),
            map snd (imap (fun i w => (Z.of_nat (k + i), w)) l) = l).
  { intros k l. revert k. induction l as [|w l IH]; intros k; simpl; [done|].
    f_equal. erewrite imap_ext; [apply (IH (S k))|].
    intros i x _. simpl. f_equal. lia. }
  intros _. apply (Hgen 0%nat).
Qed.

Lemma reconstruct_abstract_round_trip_witness :
  OpenAlex._reconstruct_abstract hamlet_index = join " " hamlet_words.
Proof.
  apply (reconstruct_abstract_round_trip hamlet_index hamlet_words).
  apply (bool_decide_unpack _). vm_compute. exact I.
Defined.

(** ** [Paper.__eq__] as a relation *)

(** X24. [Paper.__eq__] is reflexive and symmetric, but it is not
    transitive: a record without a DOI is equal to every record with its
    title and year, and two of those are unequal as soon as their DOIs
    differ. Equality of papers is therefore not an equivalence. *)
Theorem Paper_eq_not_transitive :
  (forall p, Paper___eq__ p p = true)
  /\ (forall p q, Paper___eq__ p q = Paper___eq__ q p)
  /\ (forall p q r,
        truthy_str (doi q) = false ->
        truthy_str (doi p) = true -> truthy_str (doi r) = true ->
        lower (title p) = lower (title q) -> year p = year q ->
        lower (title r) = lower (title q) -> year r = year q ->
        doi p <> doi r ->
        Paper___eq__ p q = true /\ Paper___eq__ q r = true
        /\ Paper___eq__ p r = false)
  /\ exists p q r,
       Paper___eq__ p q = true /\ Paper___eq__ q r = true
       /\ Paper___eq__ p r = false.
Proof.
  assert (Hmixed : forall p q r,
        truthy_str (doi q) = false ->
        truthy_str (doi p) = true -> truthy_str (doi r) = true ->
        lower (title p) = lower (title q) -> year p = year q ->
        lower (title r) = lower (title q) -> year r = year q ->
        doi p <> doi r ->
        Paper___eq__ p q = true /\ Paper___eq__ q r = true
        /\ Paper___eq__ p r = false).
  { intros p q r Hq Hp Hr Htp Hyp Htr Hyr Hne. unfold Paper___eq__.
    rewrite Hq, Hp, Hr, Htp, Hyp, Htr, Hyr. cbn [andb].
    rewrite !bool_decide_eq_true_2 by done.
    by rewrite bool_decide_eq_false_2. }
  split; [|split; [|split; [exact Hmixed|]]].
  - intros p. unfold Paper___eq__.
    destruct (truthy_str (doi p)); cbn [andb];
      by rewrite ?bool_decide_eq_true_2.
  - intros p q. unfold Paper___eq__.
    rewrite (andb_comm (truthy_str (doi q))).
    destruct (truthy_str (doi p) && truthy_str (doi q)).
    + apply bool_decide_ext. split; congruence.
    + f_equal; apply bool_decide_ext; split; congruence.
  - exists Samples.attention_arxiv, Samples.attention_openalex,
      Samples.attention_lowercase_doi.
    by apply Hmixed.
Qed.

(** ** Semantic Scholar: queries without a search term *)

Lemma collect_terms_no_leaf (query : Query) (terms : list string) :
  has_term_leaf query = false ->
  (SemanticScholar._collect_terms query terms).1 = terms.
Proof.
  revert terms.
  induction query as [f v|l IHl r IHr|l IHl r IHr|o IHo|s e|mn mx];
    intros terms; cbn [has_term_leaf SemanticScholar._collect_terms].
  - intros [Ht Hp]%orb_false_iff. by rewrite Ht, Hp.
  - intros [Hl Hr]%orb_false_iff.
    specialize (IHl terms Hl).
    destruct (SemanticScholar._collect_terms l terms) as [t1 [ys1 ye1]].
    simpl in IHl. subst t1.
    specialize (IHr terms Hr).
    destruct (SemanticScholar._collect_terms r terms) as [t2 [ys2 ye2]].
    done.
  - intros [Hl Hr]%orb_false_iff.
    specialize (IHl [] Hl). specialize (IHr [] Hr).
    destruct (SemanticScholar._collect_terms l []) as [t1 [ys1 ye1]].
    destruct (SemanticScholar._collect_terms r []) as [t2 [ys2 ye2]].
    simpl in *. by subst.
  - intros Ho. specialize (IHo [] Ho).
    destruct (SemanticScholar._collect_terms o []) as [t1 [ys1 ye1]].
    simpl in *. subst. by rewrite app_nil_r.
  - done.
  - done.
Qed.

Lemma remove_citation_range_no_leaf (query rest : Query) :
  has_term_leaf query = false ->
  remove_citation_range query = Some rest ->
  has_term_leaf rest = false.
Proof.
  revert rest.
  induction query as [f v|l IHl r IHr|l IHl r IHr|o IHo|s e|mn mx];
    intros rest; cbn [has_term_leaf remove_citation_range].
  - by intros ? [= <-].
  - intros [Hl Hr]%orb_false_iff.
    destruct (remove_citation_range l) as [l'|],
             (remove_citation_range r) as [r'|]; intros [= <-];
      cbn [has_term_leaf]; rewrite ?(IHl l'), ?(IHr r'); done.
  - intros [Hl Hr]%orb_false_iff.
    destruct (remove_citation_range l) as [l'|],
             (remove_citation_range r) as [r'|]; intros [= <-];
      cbn [has_term_leaf]; rewrite ?(IHl l'), ?(IHr r'); done.
  - intros Ho. destruct (remove_citation_range o) as [o'|]; intros [= <-].
    cbn [has_term_leaf]. by apply IHo.
  - by intros ? [= <-].
  - done.
Qed.

Lemma has_fulltext_term_leaf (query : Query) :
  has_term_leaf query = false -> has_fulltext query = false.
Proof.
  induction query as [f v|l IHl r IHr|l IHl r IHr|o IHo|s e|mn mx];
    cbn [has_term_leaf has_fulltext]; try done.
  - unfold SemanticScholar.is_plain_field.
    destruct (String.eqb f "fulltext"); [|done].
    by rewrite !orb_true_r.
  - intros [Hl Hr]%orb_false_iff. by rewrite IHl, IHr.
  - intros [Hl Hr]%orb_false_iff. by rewrite IHl, IHr.
Qed.

(** X25. A query without any field leaf that Semantic Scholar turns into
    a search term (one made of year ranges, citation ranges and fields of
    unknown names, however combined) is not searched at all: an
    initialized provider yields nothing for it, sends no request, logs
    nothing and raises nothing. The year range is never sent on its
    own. *)
Theorem semantic_scholar_needs_a_term (self : ProviderState) (client : Client)
    (query : Query) (w : World) :
  _client self = Some client ->
  has_term_leaf query = false ->
  SemanticScholar._search_api self query w = (w, [], inr tt)
  /\ SemanticScholar.search self query w = (w, [], inr tt).
Proof.
  intros Hclient Hleaf.
  assert (Hapi : SemanticScholar._search_api self query w = (w, [], inr tt)).
  { unfold SemanticScholar._search_api. rewrite Hclient.
    destruct (remove_citation_range query) as [rest|] eqn:Hrest; [|done].
    pose proof (remove_citation_range_no_leaf _ _ Hleaf Hrest) as Hleaf'.
    pose proof (collect_terms_no_leaf rest [] Hleaf') as Hterms.
    unfold SemanticScholar._translate_query.
    destruct (SemanticScholar._collect_terms rest []) as [terms [ys ye]].
    simpl in Hterms. subst terms. done. }
  split; [done|].
  unfold SemanticScholar.search. rewrite Hclient.
  rewrite (has_fulltext_term_leaf _ Hleaf).
  assert (Hauthor : SemanticScholar._extract_author_only query = None).
  { destruct query as [f v| | | | |]; try done.
    cbn [has_term_leaf] in Hleaf. simpl.
    unfold SemanticScholar.is_plain_field in Hleaf.
    destruct (String.eqb f "author"); [|done].
    by rewrite orb_true_r in Hleaf. }
  rewrite Hauthor. cbn [truthy_str].
  unfold GenM.flat_map. by rewrite Hapi.
Qed.

Lemma semantic_scholar_needs_a_term_witness :
  SemanticScholar._search_api (entered echo_client) ranges_only world0
  = (world0, [], inr tt)
  /\ SemanticScholar.search (entered echo_client) ranges_only world0
     = (world0, [], inr tt).
Proof.
  apply (semantic_scholar_needs_a_term (entered echo_client) echo_client
           ranges_only world0); reflexivity.
Defined.

(** ** [make_filename] *)

Lemma replace_slash (s : string) :
  replace "/" "_" s
  = match s with
    | EmptyString => EmptyString
    | String c rest =>
        String (if bool_decide (c = "/"%char) then "_"%char else c)
               (replace "/" "_" rest)
    end.
Proof.
  destruct s as [|c rest]; [done|].
  unfold replace. cbn [replace_go String.prefix].
  destruct (Ascii.ascii_dec "/" c) as [<-|Hne].
  - rewrite bool_decide_eq_true_2 by done. by destruct rest.
  - rewrite bool_decide_eq_false_2 by done. done.
Qed.

Lemma make_filename_cons (c : ascii) (rest : string) :
  Download.make_filename (String c rest)
  = String (if bool_decide (c ∈ unsafe_chars) then "_"%char else c)
           (Download.make_filename rest).
Proof.
  unfold Download.make_filename. rewrite replace_slash.
  cbn [Download.sub_invalid]. f_equal.
  unfold unsafe_chars.
  destruct (bool_decide (c = "/"%char)) eqn:Hslash.
  - apply bool_decide_eq_true in Hslash as ->. done.
  - apply bool_decide_eq_false in Hslash.
    destruct (bool_decide (c ∈ Download.invalid_chars)) eqn:Hinv.
    + apply bool_decide_eq_true in Hinv.
      rewrite bool_decide_eq_true_2; [done|by right].
    + apply bool_decide_eq_false in Hinv.
      rewrite bool_decide_eq_false_2; [done|].
      by intros [?|?]%elem_of_cons.
Qed.

(** X26. [make_filename] keeps the length of the DOI, leaves no slash,
    backslash, colon, asterisk, question mark, double quote, angle bracket
    or bar in it, changes nothing in a name that has none of these, and is
    idempotent. It is not injective: the DOIs [10.1/a_b] and [10.1/a/b]
    get the same file name. *)
Theorem make_filename_safe (doi : string) :
  String.length (Download.make_filename doi) = String.length doi
  /\ (forall c, c ∈ unsafe_chars ->
                has_char c (Download.make_filename doi) = false)
  /\ ((forall c, c ∈ unsafe_chars -> has_char c doi = false) ->
      Download.make_filename doi = doi)
  /\ Download.make_filename (Download.make_filename doi)
     = Download.make_filename doi
  /\ Download.make_filename "10.1/a_b" = Download.make_filename "10.1/a/b".
Proof.
  assert (Hnone : forall s c, c ∈ unsafe_chars ->
                    has_char c (Download.make_filename s) = false).
  { intros s c Hc. induction s as [|d s IH]; [done|].
    rewrite make_filename_cons. cbn [has_char]. rewrite IH, orb_false_r.
    apply bool_decide_eq_false. intros ->.
    case_bool_decide as Hd; [|done].
    subst. revert Hc. clear. vm_compute. 
    intros Hc. repeat (apply elem_of_cons in Hc as [Hc|Hc]; [done|]).
    by apply not_elem_of_nil in Hc. }
  assert (Hsame : forall s, (forall c, c ∈ unsafe_chars -> has_char c s = false) ->
                    Download.make_filename s = s).
  { intros s. induction s as [|d s IH]; intros Hs; [done|].
    rewrite make_filename_cons.
    rewrite bool_decide_eq_false_2.
    - f_equal. apply IH. intros c Hc. specialize (Hs c Hc).
      cbn [has_char] in Hs. by apply orb_false_iff in Hs as [_ ?].
    - intros Hd. specialize (Hs d Hd). cbn [has_char] in Hs.
      by rewrite bool_decide_eq_true_2 in Hs. }
  split; [|split; [by apply Hnone|split; [by apply Hsame|split; [|done]]]].
  - induction doi as [|d s IH]; [done|].
    rewrite make_filename_cons. simpl. by rewrite IH.
  - apply Hsame. intros c Hc. by apply Hnone.
Qed.
